(** * GS2_DP_MOH: a shallow embedding of the optimisation core

    The first half embeds the Python sources, module by module:
    - [Py]: the fragments of the Python runtime the code relies on
      (exceptions, insertion-ordered dictionaries, [sorted],
      [itertools.combinations], true division);
    - the skill table of gs_config.py;
    - [Challenge3]: [ImprovedAdaptabilityOptimizer] of gs_challenge3.py;
    - [Challenge1]: [ImprovedMaxValuePathDP] of gs_challenge1.py;
    - [GraphValidation]: [GraphValidator] of gs_graph_validation.py;
    - [Challenge5]: [ImprovedSkillRecommender] of gs_challenge5.py.

    The second half states and proves the properties C1 to C10 of those
    definitions, in the same order of modules.  Printing is not
    modelled.  A function that can raise returns a [Py.result]. *)

From Stdlib Require Import List ZArith String Ascii Bool Lia Permutation Sorted.
From Stdlib Require Import Floats DecimalString QArith Reals Qreals Lra.
Import ListNotations.
Open Scope string_scope.
Open Scope list_scope.
Open Scope Z_scope.

(* ===================================================================== *)
(** * The Python runtime, as far as the sources use it *)
(* ===================================================================== *)

Module Py.

(** Exceptions the modelled code can raise. *)
Inductive exn : Type :=
| KeyError (key : string)
| ZeroDivisionError
| ValueError (msg : string)
| FuelExhausted.   (* not a Python exception: a [while] loop of the model
                      reached its iteration bound *)

(** A computation either returns or raises. *)
Inductive result (A : Type) : Type :=
| Ok (a : A)
| Raise (e : exn).
Arguments Ok {A} a.
Arguments Raise {A} e.

Definition bind {A B} (m : result A) (k : A -> result B) : result B :=
  match m with
  | Ok a => k a
  | Raise e => Raise e
  end.

Declare Scope py_scope.
Delimit Scope py_scope with py.
Notation "x <- m ;; k" := (bind m (fun x => k))
  (at level 61, m at next level, right associativity) : py_scope.
Open Scope py_scope.

(** [[f(x) for x in l]] where [f] may raise. *)
Fixpoint mapM {A B} (f : A -> result B) (l : list A) : result (list B) :=
  match l with
  | [] => Ok []
  | x :: xs => y <- f x ;; ys <- mapM f xs ;; Ok (y :: ys)
  end.

(** A [for] loop threading a state, whose body may raise. *)
Fixpoint foldM {A S} (f : S -> A -> result S) (l : list A) (s : S) : result S :=
  match l with
  | [] => Ok s
  | x :: xs => s' <- f s x ;; foldM f xs s'
  end.

(** Keys of dictionaries: a type with a boolean equality. *)
Class Key (K : Type) := {
  keq : K -> K -> bool;
  keq_spec : forall a b, keq a b = true <-> a = b
}.

#[export] Instance Key_string : Key string :=
  {| keq := String.eqb; keq_spec := String.eqb_eq |}.

#[export] Instance Key_Z : Key Z :=
  {| keq := Z.eqb; keq_spec := Z.eqb_eq |}.

Definition pair_eqb (a b : Z * Z) : bool :=
  (fst a =? fst b) && (snd a =? snd b).

Lemma pair_eqb_eq (a b : Z * Z) : pair_eqb a b = true <-> a = b.
Proof.
  destruct a as [a1 a2], b as [b1 b2]; unfold pair_eqb; simpl.
  rewrite andb_true_iff, !Z.eqb_eq. split.
  - intros [-> ->]; reflexivity.
  - intros H; inversion H; auto.
Qed.

#[export] Instance Key_ZZ : Key (Z * Z) :=
  {| keq := pair_eqb; keq_spec := pair_eqb_eq |}.

(** A Python [dict]: keys are unique and iteration follows insertion
    order, so the dictionary is the list of its items in that order. *)
Definition dict (K V : Type) : Type := list (K * V).

Section Dict.
Context {K V : Type} `{Key K}.

(** [d.get(k)] *)
Fixpoint dict_get (d : dict K V) (k : K) : option V :=
  match d with
  | [] => None
  | (k', v) :: rest => if keq k' k then Some v else dict_get rest k
  end.

(** [k in d] *)
Definition dict_mem (d : dict K V) (k : K) : bool :=
  match dict_get d k with Some _ => true | None => false end.

(** [d[k] = v]: an existing key keeps its position, a new key goes last. *)
Fixpoint dict_set (d : dict K V) (k : K) (v : V) : dict K V :=
  match d with
  | [] => [(k, v)]
  | (k', v') :: rest =>
      if keq k' k then (k', v) :: rest else (k', v') :: dict_set rest k v
  end.
End Dict.

(** [d[k]] on a dictionary keyed by strings: raises [KeyError]. *)
Definition getitem {V} (d : dict string V) (k : string) : result V :=
  match dict_get d k with
  | Some v => Ok v
  | None => Raise (KeyError k)
  end.

(** [k in l] for a list or a set of strings. *)
Definition mem (k : string) (l : list string) : bool :=
  existsb (String.eqb k) l.

(** [float(z)]: the binary64 number nearest to the integer [z]. *)
Definition float_of_Z (z : Z) : float :=
  SF2Prim (binary_normalize prec emax z 0 false).

(** The integers that binary64 holds exactly: those of magnitude at
    most 2^53.  On them [float_of_Z] loses nothing. *)
Definition float_exact (z : Z) : Prop := Z.abs z <= 9007199254740992.

(** [a / b] on integers: [ZeroDivisionError] on a zero divisor, else the
    binary64 quotient.  CPython rounds the exact quotient once, and
    raises [OverflowError] when it is beyond the range of binary64.
    For [float_exact] operands the quotient is at most 2^53 in
    magnitude and its single rounding is the IEEE quotient of the
    converted operands, which is what this definition returns; it is
    the behaviour of [/] on that range only.  The statements about
    code that divides skill values carry [float_exact] as a hypothesis
    on the operands; the other divisions of the sources have list
    lengths as operands and discard the quotient. *)
Definition truediv (a b : Z) : result float :=
  if b =? 0 then Raise ZeroDivisionError
  else Ok (PrimFloat.div (float_of_Z a) (float_of_Z b)).

(** [sorted(l, key=..., reverse=True)] and [l.sort(key=..., reverse=True)]
    once the keys are computed: a stable sort into descending key order
    (equal keys keep their original relative order), comparing keys
    with [<] only. *)
Fixpoint insert_desc {A K} (lt : K -> K -> bool) (x : A * K) (l : list (A * K))
  : list (A * K) :=
  match l with
  | [] => [x]
  | y :: ys =>
      if lt (snd y) (snd x) then x :: y :: ys
      else y :: insert_desc lt x ys
  end.

Definition sort_desc {A K} (lt : K -> K -> bool) (l : list (A * K)) : list (A * K) :=
  fold_left (fun acc x => insert_desc lt x acc) l [].

Definition sorted_by_key_reverse {A} (key : A -> result float) (l : list A)
  : result (list A) :=
  keys <- mapM key l ;;
  Ok (map fst (sort_desc PrimFloat.ltb (combine l keys))).

(** [l[:k]] *)
Definition slice_to {A} (l : list A) (k : Z) : list A :=
  if 0 <=? k then firstn (Z.to_nat k) l
  else firstn (Z.to_nat (Z.of_nat (List.length l) + k)) l.

(** [str(z)] for an integer, as an f-string renders it. *)
Definition str_of_Z (z : Z) : string :=
  DecimalString.NilZero.string_of_int (Z.to_int z).

(** [itertools.combinations(l, k)]: the [k]-element subsequences of [l]
    in lexicographic order of their positions. *)
Fixpoint combinations {A} (l : list A) (k : nat) : list (list A) :=
  match k with
  | O => [[]]
  | S k' =>
      match l with
      | [] => []
      | x :: xs => map (cons x) (combinations xs k') ++ combinations xs k
      end
  end.

(** [sum(l)] on integers. *)
Definition sumZ (l : list Z) : Z := fold_left Z.add l 0.

End Py.

Import Py.

(* ===================================================================== *)
(** * The skill table (gs_config.py) *)
(* ===================================================================== *)

(** One entry of [SKILLS_DATABASE], with the fields the optimisers read. *)
Record Skill : Type := mkSkill {
  Valor : Z;
  Tempo : Z;
  Complexidade : Z;
  Pre_Reqs : list string
}.

Definition SkillsDB : Type := dict string Skill.

Definition GLOBAL_SEED : Z := 42.

(** [SKILLS_DATABASE], in the order of the source literal. *)
Definition SKILLS_DATABASE : SkillsDB :=
  [("H1", mkSkill 10 40 2 []);
   ("H2", mkSkill 12 50 3 []);
   ("H3", mkSkill 15 60 4 []);
   ("H4", mkSkill 11 45 3 []);
   ("H5", mkSkill 9 35 2 []);
   ("H6", mkSkill 10 40 3 []);
   ("H7", mkSkill 13 55 4 []);
   ("S1", mkSkill 18 70 5 ["H1"; "H2"]);
   ("S2", mkSkill 20 80 6 ["H1"; "H2"; "H7"]);
   ("S3", mkSkill 22 65 5 ["H1"]);
   ("S4", mkSkill 30 100 8 ["H2"; "H3"; "S1"]);
   ("S5", mkSkill 25 90 7 ["H5"; "H6"]);
   ("S6", mkSkill 40 120 9 ["S4"]);
   ("S7", mkSkill 35 110 8 ["H4"; "H5"; "H6"]);
   ("S8", mkSkill 28 85 7 ["S2"; "H4"]);
   ("S9", mkSkill 26 75 6 ["H6"; "H7"]);
   ("H11", mkSkill 32 95 8 ["H4"; "S1"]);
   ("H12", mkSkill 29 88 7 ["H4"; "S5"])].

Definition TARGET_SKILL : string := "S6".
Definition MAX_TIME : Z := 350.
Definition MAX_COMPLEXITY : Z := 30.
Definition USE_RELAXED_CONSTRAINTS : bool := true.

(* ===================================================================== *)
(** * gs_challenge3.py: [ImprovedAdaptabilityOptimizer] *)
(* ===================================================================== *)

Module Challenge3.

(** The object built by [__init__]. *)
Record optimizer : Type := mkOptimizer {
  skills_db : SkillsDB;
  basic_skills : list string;
  min_adapt : Z
}.

(** The result dictionaries of the three solvers share their keys. *)
Record solution : Type := mkSolution {
  algorithm : string;
  selected : list string;
  total_value : Z;
  total_time : Z;
  num_skills : Z
}.

(** [__init__]: every basic skill must be in the table ([KeyError]
    otherwise) and must have no prerequisite ([ValueError] otherwise). *)
Definition check_basic (db : SkillsDB) (skill_id : string) : result unit :=
  skill <- getitem db skill_id ;;
  match Pre_Reqs skill with
  | [] => Ok tt
  | _ :: _ => Raise (ValueError (String.append skill_id " não é básica!"))
  end.

Definition init (db : SkillsDB) (basic : list string) (min_adapt : Z)
  : result optimizer :=
  _ <- mapM (check_basic db) basic ;;
  Ok (mkOptimizer db basic min_adapt).

(** [sum(self.skills_db[s][field] for s in l)] *)
Definition sum_field (db : SkillsDB) (field : Skill -> Z) (l : list string)
  : result Z :=
  vs <- mapM (fun s => skill <- getitem db s ;; Ok (field skill)) l ;;
  Ok (sumZ vs).

(** The sort key of [greedy_solution]: [Valor / Tempo]. *)
Definition value_time_ratio (db : SkillsDB) (s : string) : result float :=
  skill <- getitem db s ;;
  truediv (Valor skill) (Tempo skill).

(** The loop of [greedy_solution]: take skills in sorted order and stop
    with the first one that brings the running value to the threshold. *)
Fixpoint greedy_loop (db : SkillsDB) (min_adapt : Z) (skills_sorted : list string)
    (selected : list string) (total_value total_time : Z)
  : result (list string * Z * Z) :=
  match skills_sorted with
  | [] => Ok (selected, total_value, total_time)
  | skill_id :: rest =>
      skill <- getitem db skill_id ;;
      if min_adapt <=? total_value + Valor skill then
        Ok (selected ++ [skill_id], total_value + Valor skill,
            total_time + Tempo skill)
      else
        greedy_loop db min_adapt rest (selected ++ [skill_id])
          (total_value + Valor skill) (total_time + Tempo skill)
  end.

Definition greedy_solution (self : optimizer) : result solution :=
  skills_sorted <- sorted_by_key_reverse (value_time_ratio (skills_db self))
                     (basic_skills self) ;;
  r <- greedy_loop (skills_db self) (min_adapt self) skills_sorted [] 0 0 ;;
  let '(sel, value, time) := r in
  Ok (mkSolution "Guloso (V/T)" sel value time (Z.of_nat (List.length sel))).

(** [optimal_solution_bruteforce].  [best] is [None] while [best_time]
    is [float('inf')] and [best_solution] is [None]; the two variables
    are always assigned together. *)
Definition bruteforce_visit (db : SkillsDB) (min_adapt : Z)
    (best : option (Z * list string)) (combo : list string)
  : result (option (Z * list string)) :=
  total_value <- sum_field db Valor combo ;;
  if min_adapt <=? total_value then
    total_time <- sum_field db Tempo combo ;;
    match best with
    | None => Ok (Some (total_time, combo))
    | Some (best_time, _) =>
        if total_time <? best_time then Ok (Some (total_time, combo))
        else Ok best
    end
  else Ok best.

(** The combinations in the order the two nested loops visit them:
    sizes [1 .. len(basic_skills)], each in [combinations] order. *)
Definition bruteforce_order (basic : list string) : list (list string) :=
  List.concat (map (combinations basic) (seq 1 (List.length basic))).

Definition optimal_solution_bruteforce (self : optimizer)
  : result (option solution) :=
  best <- foldM (bruteforce_visit (skills_db self) (min_adapt self))
            (bruteforce_order (basic_skills self)) None ;;
  match best with
  | None => Ok None
  | Some (best_time, best_solution) =>
      tv <- sum_field (skills_db self) Valor best_solution ;;
      Ok (Some (mkSolution "Ótimo (Força Bruta)" best_solution tv best_time
                  (Z.of_nat (List.length best_solution))))
  end.

(** [optimal_solution_dp].  The table maps a value level to
    [(minimum time, skills)]. *)
Definition dp_table : Type := dict Z (Z * list string).

(** One pass of the inner loop: relax [new_dp] with one item of [dp]. *)
Definition dp_relax (skill_id : string) (skill : Skill)
    (new_dp : dp_table) (item : Z * (Z * list string)) : dp_table :=
  let '(current_value, (current_time, current_skills)) := item in
  let new_value := current_value + Valor skill in
  let new_time := current_time + Tempo skill in
  let new_skills := current_skills ++ [skill_id] in
  match dict_get new_dp new_value with
  | None => dict_set new_dp new_value (new_time, new_skills)
  | Some (old_time, _) =>
      if new_time <? old_time then dict_set new_dp new_value (new_time, new_skills)
      else new_dp
  end.

(** One pass of the outer loop: [new_dp = dp.copy()], then relax with
    every item of the old [dp]. *)
Definition dp_step (db : SkillsDB) (dp : dp_table) (skill_id : string)
  : result dp_table :=
  skill <- getitem db skill_id ;;
  Ok (fold_left (dp_relax skill_id skill) dp dp).

Definition dp_initial : dp_table := [(0, (0, []))].

(** The final scan: the least time among the levels at or above the
    threshold; the first such level wins a tie.  [None] stands for
    [best_time = float('inf')], [best_solution = None]. *)
Definition dp_pick (min_adapt : Z) (best : option (Z * list string * Z))
    (item : Z * (Z * list string)) : option (Z * list string * Z) :=
  let '(value, (time, skills)) := item in
  if min_adapt <=? value then
    match best with
    | None => Some (time, skills, value)
    | Some (best_time, _, _) =>
        if time <? best_time then Some (time, skills, value) else best
    end
  else best.

Definition optimal_solution_dp (self : optimizer) : result (option solution) :=
  dp <- foldM (dp_step (skills_db self)) (basic_skills self) dp_initial ;;
  match fold_left (dp_pick (min_adapt self)) dp None with
  | None => Ok None
  | Some (best_time, best_solution, best_value) =>
      Ok (Some (mkSolution "Ótimo (DP)" best_solution best_value best_time
                  (Z.of_nat (List.length best_solution))))
  end.

(** The literal data of [demonstrate_counterexample]. *)
Record counterexample_side : Type := mkSide {
  choice : list string;
  side_time : Z;
  side_value : Z
}.

Record counterexample_record : Type := mkCounterexample {
  database : list (string * (Z * Z));   (* id, (Valor, Tempo) *)
  min_adaptability : Z;
  greedy_side : counterexample_side;
  optimal_side : counterexample_side
}.

Definition demonstrate_counterexample : counterexample_record :=
  mkCounterexample
    [("A", (16, 10)); ("B", (12, 7)); ("C", (8, 4))]
    16
    (mkSide ["C"; "B"] 11 20)
    (mkSide ["A"] 10 16).

(** The table of the counterexample as a skill table: the entries are
    basic skills, so their prerequisite lists are empty. *)
Definition counterexample_db : SkillsDB :=
  map (fun e => (fst e, mkSkill (fst (snd e)) (snd (snd e)) 1 []))
      (database demonstrate_counterexample).

End Challenge3.

(* ===================================================================== *)
(** * gs_challenge1.py: [ImprovedMaxValuePathDP] *)
(* ===================================================================== *)

Module Challenge1.

(** The object built by [__init__]. *)
Record solver : Type := mkSolver {
  skills_db : SkillsDB;
  target : string;
  max_states_per_cell : Z;
  required_skills : list string;
  min_feasible_time : Z;
  min_feasible_complexity : Z
}.

(** ** [_get_required_skills] *)

(** The [while to_process] loop.  [to_process] is a stack: its top, the
    last element of the Python list, is the head here, so [extend]
    pushes the prerequisites in reverse.  [required] lists the set in
    insertion order.  Each skill is expanded once, so the number of
    iterations is at most one plus the number of prerequisite entries
    of the table; [fuel] carries that bound. *)
Fixpoint required_loop (fuel : nat) (db : SkillsDB)
    (required to_process : list string) : result (list string) :=
  match to_process with
  | [] => Ok required
  | skill :: rest =>
      match fuel with
      | O => Raise FuelExhausted
      | S fuel' =>
          if mem skill required then required_loop fuel' db required rest
          else
            entry <- getitem db skill ;;
            required_loop fuel' db (required ++ [skill])
              (rev (Pre_Reqs entry) ++ rest)
      end
  end.

Definition required_fuel (db : SkillsDB) : nat :=
  S (S (list_sum (map (fun e => List.length (Pre_Reqs (snd e))) db))).

(** [list(required)] enumerates a set of strings in hash order, which
    the program does not control: [set_order] stands for that
    enumeration. *)
Definition _get_required_skills (set_order : list string -> list string)
    (db : SkillsDB) (target : string) : result (list string) :=
  required <- required_loop (required_fuel db) db [] [target] ;;
  Ok (set_order required).

(** ** [_topological_sort] *)

Definition in_degree_table : Type := dict string Z.

(** [{skill: 0 for skill in self.required_skills}] *)
Definition in_degree_zero (required : list string) : in_degree_table :=
  fold_left (fun d skill => dict_set d skill 0) required [].

(** [in_degree[skill] += delta] *)
Definition in_degree_add (d : in_degree_table) (skill : string) (delta : Z)
  : result in_degree_table :=
  n <- getitem d skill ;;
  Ok (dict_set d skill (n + delta)).

(** The first loop: count, for every required skill, its prerequisites
    that are keys of [in_degree]. *)
Definition count_prereq (skill : string) (d : in_degree_table) (prereq : string)
  : result in_degree_table :=
  if dict_mem d prereq then in_degree_add d skill 1 else Ok d.

Definition count_skill (db : SkillsDB) (d : in_degree_table) (skill : string)
  : result in_degree_table :=
  entry <- getitem db skill ;;
  foldM (count_prereq skill) (Pre_Reqs entry) d.

(** [[s for s in self.required_skills if in_degree[s] == 0]] *)
Fixpoint zero_in_degree (d : in_degree_table) (required : list string)
  : result (list string) :=
  match required with
  | [] => Ok []
  | s :: rest =>
      n <- getitem d s ;;
      tail <- zero_in_degree d rest ;;
      Ok (if n =? 0 then s :: tail else tail)
  end.

(** The body of the inner [for skill in self.required_skills]. *)
Definition release (db : SkillsDB) (current : string)
    (st : in_degree_table * list string) (skill : string)
  : result (in_degree_table * list string) :=
  entry <- getitem db skill ;;
  if mem current (Pre_Reqs entry) then
    n <- getitem (fst st) skill ;;
    let d := dict_set (fst st) skill (n - 1) in
    if n - 1 =? 0 then Ok (d, snd st ++ [skill]) else Ok (d, snd st)
  else Ok st.

(** The [while queue] loop; [queue.pop(0)] takes the head.  A skill
    enters the queue only when its counter drops from one to zero, so
    the loop runs at most as many times as the queue is long at the
    start plus the number of counters; [fuel] carries that bound. *)
Fixpoint kahn_loop (fuel : nat) (db : SkillsDB) (required : list string)
    (d : in_degree_table) (queue order : list string) : result (list string) :=
  match queue with
  | [] => Ok order
  | current :: rest =>
      match fuel with
      | O => Raise FuelExhausted
      | S fuel' =>
          st <- foldM (release db current) required (d, rest) ;;
          kahn_loop fuel' db required (fst st) (snd st) (order ++ [current])
      end
  end.

Definition topological_sort_of (db : SkillsDB) (required : list string)
  : result (list string) :=
  d <- foldM (count_skill db) required (in_degree_zero required) ;;
  queue <- zero_in_degree d required ;;
  kahn_loop (S (List.length queue + List.length d)) db required d queue [].

Definition _topological_sort (self : solver) : result (list string) :=
  topological_sort_of (skills_db self) (required_skills self).

(** ** [_calculate_minimum_path] *)

Definition minimum_step (db : SkillsDB) (st : list string * Z * Z)
    (skill_id : string) : result (list string * Z * Z) :=
  let '(acquired, total_time, total_complexity) := st in
  if mem skill_id acquired then Ok st
  else
    skill <- getitem db skill_id ;;
    Ok (acquired ++ [skill_id], total_time + Tempo skill,
        total_complexity + Complexidade skill).

Definition minimum_path_of (db : SkillsDB) (required : list string)
  : result (Z * Z) :=
  topo_order <- topological_sort_of db required ;;
  st <- foldM (minimum_step db) topo_order ([], 0, 0) ;;
  Ok (snd (fst st), snd st).

Definition _calculate_minimum_path (self : solver) : result (Z * Z) :=
  minimum_path_of (skills_db self) (required_skills self).

(** ** [__init__] *)

Definition init (set_order : list string -> list string) (db : SkillsDB)
    (target : string) (max_states_per_cell : Z) : result solver :=
  required <- _get_required_skills set_order db target ;;
  mins <- minimum_path_of db required ;;
  Ok (mkSolver db target max_states_per_cell required (fst mins) (snd mins)).

(** ** [_prune_dominated_states] *)

(** A DP state: [{'valor': .., 'skills': frozenset, 'path': list}]. *)
Record state : Type := mkState {
  valor : Z;
  skills : list string;
  path : list string
}.

Definition _prune_dominated_states (self : solver) (states : list state)
  : list state :=
  if Z.of_nat (List.length states) <=? max_states_per_cell self then states
  else
    slice_to
      (map fst (sort_desc Z.ltb (map (fun st => (st, valor st)) states)))
      (max_states_per_cell self).

(** ** [solve_deterministic] *)

(** The result dictionary: [{'success': True, 'path': .., 'total_value':
    .., 'total_time': .., 'total_complexity': ..}] or [{'success':
    False, 'message': ..}]. *)
Inductive path_result : Type :=
| Found (path : list string) (total_value total_time total_complexity : Z)
| NotFound (message : string).

Definition success (r : path_result) : bool :=
  match r with
  | Found _ _ _ _ => true
  | NotFound _ => false
  end.

(** [dp]: a [defaultdict(list)] keyed by [(t, c)]. *)
Definition dp_table : Type := dict (Z * Z) (list state).

(** [d[key].extend(states)] on a [defaultdict(list)]: a missing key is
    created with an empty list first. *)
Definition dd_extend (d : dp_table) (key : Z * Z) (states : list state)
  : dp_table :=
  match dict_get d key with
  | Some old => dict_set d key (old ++ states)
  | None => dict_set d key states
  end.

(** The body of [for state in states]: one candidate transition. *)
Definition transition (skill_id : string) (skill : Skill)
    (max_time max_complexity : Z) (t c : Z)
    (new_dp : dp_table) (st : state) : dp_table :=
  let prereqs_satisfied :=
    forallb (fun p => mem p (skills st)) (Pre_Reqs skill) in
  if negb prereqs_satisfied || mem skill_id (skills st) then new_dp
  else
    let new_t := t + Tempo skill in
    let new_c := c + Complexidade skill in
    if (new_t <=? max_time) && (new_c <=? max_complexity) then
      dd_extend new_dp (new_t, new_c)
        [mkState (valor st + Valor skill)
                 (skills st ++ [skill_id])
                 (path st ++ [skill_id])]
    else new_dp.

(** The body of [for skill_id in topo_order]. *)
Definition process_skill (self : solver) (max_time max_complexity : Z)
    (dp : dp_table) (skill_id : string) : result dp_table :=
  skill <- getitem (skills_db self) skill_id ;;
  (* copy the old states *)
  let copied := fold_left (fun nd e => dd_extend nd (fst e) (snd e)) dp [] in
  (* add the transitions *)
  let extended :=
    fold_left
      (fun nd e =>
         fold_left
           (transition skill_id skill max_time max_complexity
              (fst (fst e)) (snd (fst e)))
           (snd e) nd)
      dp copied in
  (* prune every cell *)
  Ok (map (fun e => (fst e, _prune_dominated_states self (snd e))) extended).

Definition dp_initial : dp_table := [((0, 0), [mkState 0 [] []])].

(** The final scan; [best_value] starts at [-1], [best_solution] at
    [None], and a later state must be strictly better to replace. *)
Definition pick_best (target : string) (best : Z * option state) (st : state)
  : Z * option state :=
  if mem target (skills st) && (fst best <? valor st)
  then (valor st, Some st) else best.

Definition best_state (target : string) (dp : dp_table) : option state :=
  snd (fold_left (fun best e => fold_left (pick_best target) (snd e) best)
         dp (-1, None)).

Definition sum_field (db : SkillsDB) (field : Skill -> Z) (l : list string)
  : result Z :=
  vs <- mapM (fun s => skill <- getitem db s ;; Ok (field skill)) l ;;
  Ok (sumZ vs).

(** The message of the failure result:
    [f'Impossível atingir {self.target} com T≤{max_time}, C≤{max_complexity}']. *)
Definition failure_message (target : string) (max_time max_complexity : Z)
  : string :=
  String.concat ""
    ["Impossível atingir "; target; " com T≤"; str_of_Z max_time;
     ", C≤"; str_of_Z max_complexity].

Definition solve_deterministic (self : solver) (max_time max_complexity : Z)
  : result path_result :=
  topo_order <- _topological_sort self ;;
  dp <- foldM (process_skill self max_time max_complexity) topo_order dp_initial ;;
  match best_state (target self) dp with
  | Some best_solution =>
      total_time <- sum_field (skills_db self) Tempo (path best_solution) ;;
      total_complexity <-
        sum_field (skills_db self) Complexidade (path best_solution) ;;
      Ok (Found (path best_solution) (valor best_solution)
            total_time total_complexity)
  | None =>
      Ok (NotFound (failure_message (target self) max_time max_complexity))
  end.

(** ** [check_feasibility] *)

Definition check_feasibility (self : solver) (max_time max_complexity : Z)
  : bool * string :=
  if (min_feasible_time self <=? max_time)
     && (min_feasible_complexity self <=? max_complexity)
  then (true, "Restrições viáveis")
  else (false,
        String.concat ""
          ["Restrições muito rígidas! Mínimo necessário: T≥";
           str_of_Z (min_feasible_time self); ", C≥";
           str_of_Z (min_feasible_complexity self)]).

(** ** [run_challenge1], up to the deterministic solution *)

(** The limits [run_challenge1] (and [run_challenge1_with_viz] of
    main.py, which always relaxes) hands to the solver: the configured
    budgets, or the minimums plus a margin when the budgets are not
    feasible. *)
Definition challenge_limits (self : solver) : Z * Z :=
  let is_feasible := fst (check_feasibility self MAX_TIME MAX_COMPLEXITY) in
  if USE_RELAXED_CONSTRAINTS && negb is_feasible
  then (min_feasible_time self + 50, min_feasible_complexity self + 6)
  else (MAX_TIME, MAX_COMPLEXITY).

Definition run_challenge1_deterministic
    (set_order : list string -> list string) : result path_result :=
  solver <- init set_order SKILLS_DATABASE TARGET_SKILL 50 ;;
  let limits := challenge_limits solver in
  solve_deterministic solver (fst limits) (snd limits).

(** ** [solve_with_uncertainty] *)

(** The result of the Monte Carlo run; a failed deterministic solve is
    passed through unchanged. *)
Record uncertainty : Type := mkUncertainty {
  mc_path : list string;
  deterministic_value : Z;
  expected_value : float;
  std_value : float;
  min_value : float;
  max_value : float;
  simulations : list float;
  mc_total_time : Z;
  mc_total_complexity : Z
}.

Inductive uncertainty_result : Type :=
| Simulated (u : uncertainty)
| Unsolved (r : path_result).

Section MonteCarlo.
  (** numpy, as far as the method uses it.  The generator behind
      [np.random] is a process-wide state: [np.random.seed] replaces
      it, [np.random.uniform] reads and advances it. *)
  Variable rng : Type.
  Variable np_random_seed : Z -> rng.
  Variable np_random_uniform : float -> float -> rng -> float * rng.
  Variables np_mean np_std : list float -> float.
  Variables np_min np_max : list float -> result float.

(** One trial: the inner [for skill_id in path]. *)
Definition simulate_skill (db : SkillsDB) (st : result float * rng)
    (skill_id : string) : result float * rng :=
  match fst st with
  | Raise e => st
  | Ok total_value =>
      match getitem db skill_id with
      | Raise e => (Raise e, snd st)
      | Ok skill =>
          let '(u, g) :=
            np_random_uniform 0x1.ccccccccccccdp-1%float
                              0x1.199999999999ap+0%float (snd st) in
          let simulated_value := PrimFloat.mul (float_of_Z (Valor skill)) u in
          (Ok (PrimFloat.add total_value simulated_value), g)
      end
  end.

Definition simulate_trial (db : SkillsDB) (path : list string) (g : rng)
  : result float * rng :=
  fold_left (simulate_skill db) path (Ok 0%float, g).

(** The outer [for i in range(n_simulations)]. *)
Fixpoint simulate_trials (db : SkillsDB) (path : list string) (n : nat)
    (simulated_values : list float) (g : rng) : result (list float) * rng :=
  match n with
  | O => (Ok simulated_values, g)
  | S n' =>
      match simulate_trial db path g with
      | (Raise e, g') => (Raise e, g')
      | (Ok total_value, g') =>
          simulate_trials db path n' (simulated_values ++ [total_value]) g'
      end
  end.

(** The method, as a function of the generator state it finds and
    leaves behind. *)
Definition solve_with_uncertainty (self : solver) (max_time max_complexity : Z)
    (n_simulations : Z) (g : rng) : result uncertainty_result * rng :=
  match solve_deterministic self max_time max_complexity with
  | Raise e => (Raise e, g)
  | Ok (NotFound message) => (Ok (Unsolved (NotFound message)), g)
  | Ok (Found path total_value total_time total_complexity) =>
      let g0 := np_random_seed GLOBAL_SEED in
      match simulate_trials (skills_db self) path (Z.to_nat n_simulations) [] g0 with
      | (Raise e, g') => (Raise e, g')
      | (Ok simulated_values, g') =>
          (lo <- np_min simulated_values ;;
           hi <- np_max simulated_values ;;
           Ok (Simulated
                 (mkUncertainty path total_value
                    (np_mean simulated_values) (np_std simulated_values)
                    lo hi simulated_values total_time total_complexity)),
           g')
      end
  end.

End MonteCarlo.

End Challenge1.

(* ===================================================================== *)
(** * gs_graph_validation.py: [GraphValidator] *)
(* ===================================================================== *)

Module GraphValidation.

(** The object built by [__init__]; [all_skill_ids] is a set, listed
    here in the order in which it is iterated. *)
Record validator : Type := mkValidator {
  skills_db : SkillsDB;
  all_skill_ids : list string
}.

Definition init (set_order : list string -> list string) (db : SkillsDB)
  : validator :=
  mkValidator db (set_order (map fst db)).

(** The [report] dictionary. *)
Record report : Type := mkReport {
  valid : bool;
  cycles : list string;
  orphan_nodes : list (string * string);
  missing_prereqs : list (string * string);
  topological_order : list string
}.

(** ** [_check_orphan_prereqs] *)

Definition _check_orphan_prereqs (self : validator) : list (string * string) :=
  flat_map
    (fun item =>
       flat_map
         (fun prereq =>
            if mem prereq (all_skill_ids self) then []
            else [(fst item, prereq)])
         (Pre_Reqs (snd item)))
    (skills_db self).

(** ** [_detect_cycles] *)

Inductive color : Type := WHITE | GRAY | BLACK.

Definition is_gray (c : color) : bool :=
  match c with GRAY => true | _ => false end.

Definition is_white (c : color) : bool :=
  match c with WHITE => true | _ => false end.

(** The two dictionaries the nested [dfs_visit] closes over. *)
Record dfs_state : Type := mkDfs {
  colors : dict string color;
  parent : dict string (option string)
}.

(** Truth value of [parent[current]]: [None] and the empty string are
    false. *)
Definition truthy (p : option string) : bool :=
  match p with
  | None => false
  | Some s => negb (String.eqb s "")
  end.

(** [cycle.insert(1, x)] *)
Definition insert_at_1 (cycle : list string) (x : string) : list string :=
  match cycle with
  | [] => [x]
  | head :: rest => head :: x :: rest
  end.

(** The [while parent[current] and parent[current] != prereq] loop that
    rebuilds the cycle; it climbs the parent chain, which is no longer
    than the number of nodes. *)
Fixpoint climb (fuel : nat) (parents : dict string (option string))
    (prereq current : string) (cycle : list string) : result (list string) :=
  match fuel with
  | O => Raise FuelExhausted
  | S fuel' =>
      p <- getitem parents current ;;
      if truthy p then
        match p with
        | Some next =>
            if String.eqb next prereq then Ok cycle
            else climb fuel' parents prereq next (insert_at_1 cycle next)
        | None => Ok cycle
        end
      else Ok cycle
  end.

(** [dfs_visit(node)], with the [for prereq in prereqs] loop as the
    inner fixpoint.  The recursion descends through white nodes only,
    so its depth is at most the number of nodes; [fuel] bounds the
    depth. *)
Fixpoint dfs_visit (fuel : nat) (db : SkillsDB) (node : string) (st : dfs_state)
  : result (dfs_state * (bool * list string)) :=
  match fuel with
  | O => Raise FuelExhausted
  | S fuel' =>
      let st := mkDfs (dict_set (colors st) node GRAY) (parent st) in
      entry <- getitem db node ;;
      (fix visit_prereqs (prereqs : list string) (st : dfs_state)
         : result (dfs_state * (bool * list string)) :=
         match prereqs with
         | [] =>
             Ok (mkDfs (dict_set (colors st) node BLACK) (parent st), (false, []))
         | prereq :: rest =>
             c <- getitem (colors st) prereq ;;
             if is_gray c then
               cycle <- climb (S (List.length (parent st))) (parent st)
                          prereq node [prereq; node] ;;
               Ok (st, (true, cycle ++ [prereq]))
             else if is_white c then
               let st := mkDfs (colors st)
                               (dict_set (parent st) prereq (Some node)) in
               r <- dfs_visit fuel' db prereq st ;;
               if fst (snd r) then Ok r else visit_prereqs rest (fst r)
             else visit_prereqs rest st
         end) (Pre_Reqs entry) st
  end.

(** The outer [for skill in self.all_skill_ids]. *)
Fixpoint detect_from (db : SkillsDB) (depth : nat) (ids : list string)
    (st : dfs_state) : result (bool * list string) :=
  match ids with
  | [] => Ok (false, [])
  | skill :: rest =>
      c <- getitem (colors st) skill ;;
      if is_white c then
        r <- dfs_visit depth db skill st ;;
        if fst (snd r) then Ok (snd r) else detect_from db depth rest (fst r)
      else detect_from db depth rest st
  end.

Definition _detect_cycles (self : validator) : result (bool * list string) :=
  let ids := all_skill_ids self in
  let st :=
    mkDfs (fold_left (fun d skill => dict_set d skill WHITE) ids [])
          (fold_left (fun d skill => dict_set d skill None) ids []) in
  detect_from (skills_db self) (S (List.length ids)) ids st.

(** ** [_topological_sort] (Kahn) *)

Definition in_degree_add (d : dict string Z) (skill : string) (delta : Z)
  : result (dict string Z) :=
  n <- getitem d skill ;;
  Ok (dict_set d skill (n + delta)).

Definition count_item (d : dict string Z) (item : string * Skill)
  : result (dict string Z) :=
  foldM (fun d _ => in_degree_add d (fst item) 1) (Pre_Reqs (snd item)) d.

Definition release (current : string) (st : dict string Z * list string)
    (item : string * Skill) : result (dict string Z * list string) :=
  if mem current (Pre_Reqs (snd item)) then
    n <- getitem (fst st) (fst item) ;;
    let d := dict_set (fst st) (fst item) (n - 1) in
    if n - 1 =? 0 then Ok (d, snd st ++ [fst item]) else Ok (d, snd st)
  else Ok st.

Fixpoint kahn_loop (fuel : nat) (db : SkillsDB) (d : dict string Z)
    (queue order : list string) : result (list string) :=
  match queue with
  | [] => Ok order
  | current :: rest =>
      match fuel with
      | O => Raise FuelExhausted
      | S fuel' =>
          st <- foldM (release current) db (d, rest) ;;
          kahn_loop fuel' db (fst st) (snd st) (order ++ [current])
      end
  end.

Definition _topological_sort (self : validator) : result (list string) :=
  let zero := fold_left (fun d skill => dict_set d skill 0) (all_skill_ids self) [] in
  d <- foldM count_item (skills_db self) zero ;;
  let queue := map fst (filter (fun e => snd e =? 0) d) in
  kahn_loop (S (List.length d)) (skills_db self) d queue [].

(** ** [_print_graph_statistics] *)

(** The method only prints, but its arithmetic can raise: the counters
    of [out_degree] are looked up by prerequisite, the mean in-degree
    divides by the number of nodes and the density by
    [n_nodes * (n_nodes - 1)]. *)
Definition _print_graph_statistics (self : validator) : result unit :=
  let ids := all_skill_ids self in
  let n_nodes := Z.of_nat (List.length ids) in
  let n_edges :=
    Z.of_nat (list_sum (map (fun e => List.length (Pre_Reqs (snd e)))
                          (skills_db self))) in
  let out_zero := fold_left (fun d skill => dict_set d skill 0) ids [] in
  _ <- foldM
         (fun d skill_id =>
            entry <- getitem (skills_db self) skill_id ;;
            foldM (fun d prereq => in_degree_add d prereq 1) (Pre_Reqs entry) d)
         ids out_zero ;;
  _ <- truediv n_edges n_nodes ;;
  _ <- truediv n_edges (n_nodes * (n_nodes - 1)) ;;
  Ok tt.

(** ** [validate_graph] *)

(** Printing is not modelled; what remains of [verbose] is its effect
    on control flow: both [return False, report] statements sit inside
    an [if verbose:] block. *)
Definition validate_graph (self : validator) (verbose : bool)
  : result (bool * report) :=
  let report0 := mkReport true [] [] [] [] in
  (* 1. missing prerequisites *)
  let orphans := _check_orphan_prereqs self in
  let found_orphans := match orphans with [] => false | _ :: _ => true end in
  let report1 :=
    if found_orphans
    then mkReport false (cycles report0) orphans (missing_prereqs report0)
                  (topological_order report0)
    else report0 in
  if found_orphans && verbose then Ok (false, report1)
  else
    (* 2. cycles *)
    detected <- _detect_cycles self ;;
    let '(has_cycle, cycle_path) := detected in
    let report2 :=
      if has_cycle
      then mkReport false cycle_path (orphan_nodes report1)
                    (missing_prereqs report1) (topological_order report1)
      else report1 in
    if has_cycle && verbose then Ok (false, report2)
    else
      (* 3. topological order *)
      topo_order <- _topological_sort self ;;
      let report3 :=
        mkReport (valid report2) (cycles report2) (orphan_nodes report2)
                 (missing_prereqs report2) topo_order in
      _ <- (if verbose then _print_graph_statistics self else Ok tt) ;;
      Ok (true, report3).

(** ** [validate_before_optimization] *)

(** The line feed of the message literals. *)
Definition newline : string := String (ascii_of_nat 10) EmptyString.

(** Truth value of a list. *)
Definition nonempty {A} (l : list A) : bool :=
  match l with
  | [] => false
  | _ :: _ => true
  end.

(** The argument is [None] when the caller leaves the default. *)
Definition validate_before_optimization
    (set_order : list string -> list string) (skills_db : option SkillsDB)
  : result bool :=
  let skills_db :=
    match skills_db with
    | None => SKILLS_DATABASE
    | Some db => db
    end in
  let validator := init set_order skills_db in
  r <- validate_graph validator true ;;
  let '(is_valid, report) := r in
  if negb is_valid then
    let error_msg :=
      String.append newline
        (String.append "🚫 VALIDAÇÃO FALHOU - Não é possível prosseguir!"
           newline) in
    let error_msg :=
      if nonempty (orphan_nodes report)
      then String.append error_msg
             (String.append "   Pré-requisitos inexistentes detectados." newline)
      else error_msg in
    let error_msg :=
      if nonempty (cycles report)
      then String.append error_msg
             (String.append "   Ciclos detectados no grafo." newline)
      else error_msg in
    Raise (ValueError error_msg)
  else Ok true.

End GraphValidation.

(* ===================================================================== *)
(** * gs_challenge5.py: [ImprovedSkillRecommender] *)
(* ===================================================================== *)

(** Expected values are Python floats.  The claims about them concern
    which quantities enter the formula, not rounding, so the arithmetic
    is carried out exactly, in the rationals: [0.95] is [95/100]. *)
Module Challenge5.
Local Open Scope Q_scope.

Record scenario : Type := mkScenario {
  prob : Q;
  value_multiplier : dict string Q
}.

(** [_define_market_scenarios] *)
Definition scenarios : dict string scenario :=
  [("AI_Boom",
    mkScenario (4 # 10) [("S6", 15 # 10); ("S4", 13 # 10); ("H11", 12 # 10)]);
   ("Cloud_Native",
    mkScenario (35 # 100) [("S7", 14 # 10); ("S9", 13 # 10); ("S8", 12 # 10)]);
   ("Security_First",
    mkScenario (25 # 100) [("S5", 16 # 10); ("H12", 13 # 10)])].

Definition horizon_years : Z := 5%Z.
Definition discount_factor : Q := 95 # 100.

(** The synergy bonus: [1.0], plus [0.05] for every prerequisite
    already held. *)
Definition synergy_bonus (entry : Skill) (current_skills : list string) : Q :=
  fold_left
    (fun bonus prereq =>
       if mem prereq current_skills then bonus + (5 # 100) else bonus)
    (Pre_Reqs entry) 1.

(** The loop over the scenarios: the undiscounted expected value. *)
Definition scenario_sum (skill_id : string) (entry : Skill)
    (current_skills : list string) : Q :=
  fold_left
    (fun expected_value item =>
       let scenario_data := snd item in
       let multiplier :=
         match dict_get (value_multiplier scenario_data) skill_id with
         | Some m => m
         | None => 1
         end in
       let scenario_value :=
         inject_Z (Valor entry) * multiplier
         * synergy_bonus entry current_skills in
       expected_value + prob scenario_data * scenario_value)
    scenarios 0.

(** [_calculate_expected_value]; [years_ahead] is declared [int]. *)
Definition _calculate_expected_value (db : SkillsDB) (skill_id : string)
    (current_skills : list string) (years_ahead : Z) : result Q :=
  entry <- getitem db skill_id ;;
  let expected_value := scenario_sum skill_id entry current_skills in
  let discount := discount_factor ^ years_ahead in
  Ok (expected_value * discount).

(** [_get_available_skills] *)
Definition _get_available_skills (db : SkillsDB) (acquired : list string)
  : list string :=
  map fst
    (filter
       (fun item =>
          negb (mem (fst item) acquired)
          && forallb (fun p => mem p acquired) (Pre_Reqs (snd item)))
       db).

(** [int(x)] on a number: truncation toward zero. *)
Definition py_int (x : Q) : Z := Z.quot (Qnum x) (Z.pos (Qden x)).

(** A state reached by the DP and the candidate it yields. *)
Record dp_entry : Type := mkEntry {
  entry_time : Z;
  entry_skills : list string;
  entry_value : Q;
  entry_path : list string
}.

(** The body of [for skill_id in available] in [recommend_with_dp]:
    from the state [(t, skills_set) -> (current_value, path)], the
    candidate entry for [dp[new_t][new_skills]], or nothing when the
    skill would end beyond the horizon. *)
Definition expand (db : SkillsDB) (horizon_hours : Z) (from : dp_entry)
    (skill_id : string) : result (option dp_entry) :=
  skill <- getitem db skill_id ;;
  let new_t := (entry_time from + Tempo skill)%Z in
  if (horizon_hours <? new_t)%Z then Ok None
  else
    let years_ahead := new_t # 2000 in
    expected_value <-
      _calculate_expected_value db skill_id (entry_skills from)
        (py_int years_ahead) ;;
    Ok (Some (mkEntry new_t
                (entry_skills from ++ [skill_id])
                (entry_value from + expected_value)
                (entry_path from ++ [skill_id]))).

End Challenge5.

(* ===================================================================== *)
(** * Facts about the runtime fragments *)
(* ===================================================================== *)

Section PyFacts.

Lemma bind_ok_inv {A B} (m : result A) (k : A -> result B) (b : B) :
  bind m k = Ok b -> exists a, m = Ok a /\ k a = Ok b.
Proof. destruct m; simpl; [eauto | discriminate]. Qed.

Lemma mapM_total {A B} (f : A -> result B) (g : A -> B) (l : list A) :
  (forall x, In x l -> f x = Ok (g x)) -> mapM f l = Ok (map g l).
Proof.
  induction l as [|x xs IH]; intros Hf; simpl; [reflexivity|].
  rewrite (Hf x) by (left; reflexivity). simpl.
  rewrite IH by (intros y Hy; apply Hf; right; exact Hy). reflexivity.
Qed.

Lemma mapM_ok_each {A B} (f : A -> result B) (l : list A) (ys : list B) :
  mapM f l = Ok ys -> forall x, In x l -> exists y, f x = Ok y.
Proof.
  revert ys; induction l as [|x xs IH]; intros ys Hm z Hz; [destruct Hz|].
  simpl in Hm. apply bind_ok_inv in Hm as (y & Hy & Hm).
  apply bind_ok_inv in Hm as (ys' & Hys & _).
  destruct Hz as [<- | Hz]; [eauto | eapply IH; eauto].
Qed.

Lemma foldM_total {A S} (f : S -> A -> result S) (g : S -> A -> S)
    (l : list A) (s : S) :
  (forall s x, In x l -> f s x = Ok (g s x)) ->
  foldM f l s = Ok (fold_left g l s).
Proof.
  revert s; induction l as [|x xs IH]; intros s Hf; simpl; [reflexivity|].
  rewrite (Hf s x) by (left; reflexivity). simpl.
  apply IH. intros s' y Hy. apply Hf. right; exact Hy.
Qed.

Lemma fold_add_shift (l : list Z) (a b : Z) :
  fold_left Z.add l (a + b) = a + fold_left Z.add l b.
Proof.
  revert a b; induction l as [|y ys IH]; intros a b; simpl; [reflexivity|].
  rewrite <- Z.add_assoc. apply IH.
Qed.

Lemma sumZ_cons (x : Z) (l : list Z) : sumZ (x :: l) = x + sumZ l.
Proof.
  unfold sumZ. simpl. rewrite <- fold_add_shift, Z.add_0_r. reflexivity.
Qed.

Lemma sumZ_app (l1 l2 : list Z) : sumZ (l1 ++ l2) = sumZ l1 + sumZ l2.
Proof.
  induction l1 as [|x xs IH]; simpl.
  - reflexivity.
  - rewrite !sumZ_cons, IH. lia.
Qed.

Lemma sumZ_perm (l1 l2 : list Z) : Permutation l1 l2 -> sumZ l1 = sumZ l2.
Proof.
  induction 1; rewrite ?sumZ_cons in *; lia.
Qed.

Section DictFacts.
Context {K V : Type} `{Key K}.

Lemma keq_refl (k : K) : keq k k = true.
Proof. apply keq_spec. reflexivity. Qed.

Lemma keq_neq (a b : K) : a <> b -> keq a b = false.
Proof.
  intros Hn. destruct (keq a b) eqn:E; [|reflexivity].
  apply keq_spec in E. contradiction.
Qed.

Lemma dict_get_In (d : dict K V) (k : K) (v : V) :
  dict_get d k = Some v -> In (k, v) d.
Proof.
  induction d as [|[k' v'] rest IH]; simpl; [discriminate|].
  destruct (keq k' k) eqn:E.
  - apply keq_spec in E. intros [= ->]. left. subst. reflexivity.
  - intros Hg. right. apply IH. exact Hg.
Qed.

Lemma dict_get_set_same (d : dict K V) (k : K) (v : V) :
  dict_get (dict_set d k v) k = Some v.
Proof.
  induction d as [|[k' v'] rest IH]; simpl.
  - rewrite keq_refl. reflexivity.
  - destruct (keq k' k) eqn:E; simpl; rewrite E; [reflexivity | exact IH].
Qed.

Lemma dict_get_set_other (d : dict K V) (k k0 : K) (v : V) :
  k0 <> k -> dict_get (dict_set d k v) k0 = dict_get d k0.
Proof.
  intros Hn. induction d as [|[k' v'] rest IH]; simpl.
  - rewrite keq_neq by congruence. reflexivity.
  - destruct (keq k' k) eqn:E; simpl.
    + apply keq_spec in E. subst k'.
      rewrite keq_neq by congruence. reflexivity.
    + destruct (keq k' k0); [reflexivity | exact IH].
Qed.

Lemma dict_set_In (d : dict K V) (k : K) (v : V) (e : K * V) :
  In e (dict_set d k v) -> e = (k, v) \/ In e d.
Proof.
  induction d as [|[k' v'] rest IH]; simpl.
  - intros [<- | []]. left; reflexivity.
  - destruct (keq k' k) eqn:E; simpl.
    + apply keq_spec in E. subst k'. intros [<- | Hin]; auto.
    + intros [<- | Hin]; auto. destruct (IH Hin); auto.
Qed.

Lemma in_dict_get (d : dict K V) (k : K) (v : V) :
  In (k, v) d -> exists v', dict_get d k = Some v'.
Proof.
  induction d as [|[k' v'] rest IH]; simpl; [intros []|].
  intros [E | Hin].
  - inversion E; subst. rewrite keq_refl. eauto.
  - destruct (keq k' k); eauto.
Qed.
End DictFacts.

End PyFacts.

(* ===================================================================== *)
(** * Facts about gs_challenge3.py *)
(* ===================================================================== *)

(** Selections of candidates are subsequences of the candidate list:
    a candidate listed twice counts as two items, as it does for
    [combinations] and for the DP. *)
Inductive Subseq {A : Type} : list A -> list A -> Prop :=
| Subseq_nil : Subseq [] []
| Subseq_skip x s l : Subseq s l -> Subseq s (x :: l)
| Subseq_take x s l : Subseq s l -> Subseq (x :: s) (x :: l).

#[local] Hint Constructors Subseq : core.

Section SubseqFacts.
Context {A : Type}.
Implicit Types s l : list A.

Lemma Subseq_nil_l l : Subseq [] l.
Proof. induction l; auto. Qed.

Lemma Subseq_refl l : Subseq l l.
Proof. induction l; auto. Qed.

Lemma Subseq_of_nil s : Subseq s [] -> s = [].
Proof. inversion 1; reflexivity. Qed.

Lemma Subseq_length s l : Subseq s l -> (List.length s <= List.length l)%nat.
Proof. induction 1; simpl; lia. Qed.

Lemma Subseq_In s l x : Subseq s l -> In x s -> In x l.
Proof.
  induction 1; simpl; auto.
  intros [-> | Hin]; auto.
Qed.

Lemma Subseq_app_r s l l' : Subseq s l -> Subseq s (l ++ l').
Proof.
  induction 1; simpl; auto. apply Subseq_nil_l.
Qed.

Lemma Subseq_app_l l l' : Subseq l (l ++ l').
Proof. apply Subseq_app_r, Subseq_refl. Qed.

Lemma Subseq_snoc s l x : Subseq s l -> Subseq (s ++ [x]) (l ++ [x]).
Proof. induction 1; simpl; auto. Qed.

(** A subsequence of [l ++ [x]] either avoids the last item or ends
    with it. *)
Lemma Subseq_snoc_inv s l x :
  Subseq s (l ++ [x]) ->
  Subseq s l \/ exists s', s = s' ++ [x] /\ Subseq s' l.
Proof.
  revert s; induction l as [|y l IH]; intros s Hs; simpl in Hs.
  - inversion Hs as [|? ? ? H1|? ? ? H1]; subst;
      apply Subseq_of_nil in H1; subst.
    + left; auto.
    + right; exists []; auto.
  - inversion Hs as [|? ? ? H1|? s1 ? H1]; subst.
    + destruct (IH _ H1) as [H2 | (s' & -> & H2)]; [left; auto|].
      right; exists s'; auto.
    + destruct (IH _ H1) as [H2 | (s' & -> & H2)]; [left; auto|].
      right; exists (y :: s'); auto.
Qed.

(** The selections of a reordered list are, up to order, selections
    of the original list. *)
Lemma Subseq_perm s l l' :
  Subseq s l -> Permutation l l' ->
  exists s', Subseq s' l' /\ Permutation s' s.
Proof.
  intros Hs Hp; revert s Hs.
  induction Hp as [|x l l' Hp IH|x y l|l l' l'' Hp1 IH1 Hp2 IH2]; intros s Hs.
  - exists s; auto.
  - inversion Hs as [|? ? ? H1|? s1 ? H1]; subst.
    + destruct (IH _ H1) as (s' & H2 & H3). exists s'; auto.
    + destruct (IH _ H1) as (s' & H2 & H3). exists (x :: s'); auto.
  - inversion Hs as [|? ? ? H1|? s1 ? H1]; subst.
    + inversion H1 as [|? ? ? H2|? s2 ? H2]; subst.
      * exists s; auto.
      * exists (x :: s2); auto.
    + inversion H1 as [|? ? ? H2|? s2 ? H2]; subst.
      * exists (y :: s1); auto.
      * exists (x :: y :: s2); split; auto. apply perm_swap.
  - destruct (IH1 _ Hs) as (s1 & H1 & P1).
    destruct (IH2 _ H1) as (s2 & H2 & P2).
    exists s2; split; auto. eapply Permutation_trans; eauto.
Qed.

Lemma combinations_Subseq l k c :
  In c (combinations l k) <-> Subseq c l /\ List.length c = k.
Proof.
  revert k c; induction l as [|x xs IH]; intros k c.
  - destruct k; simpl.
    + split.
      * intros [<- | []]; auto.
      * intros [Hs _]. apply Subseq_of_nil in Hs. auto.
    + split; [intros [] | intros [Hs Hl]].
      apply Subseq_of_nil in Hs; subst; discriminate.
  - destruct k; simpl.
    + split.
      * intros [<- | []]. split; auto. apply Subseq_nil_l.
      * intros [_ Hl]. destruct c; [auto | discriminate].
    + rewrite in_app_iff, in_map_iff. split.
      * intros [(c' & <- & Hc) | Hc].
        -- apply IH in Hc as [Hs Hl]. simpl. auto.
        -- apply IH in Hc as [Hs Hl]. auto.
      * intros [Hs Hl]. inversion Hs as [|? ? ? H1|? s1 ? H1]; subst.
        -- right. apply IH. auto.
        -- left. exists s1. split; auto. apply IH. simpl in Hl. auto.
Qed.
End SubseqFacts.

Section Challenge3Facts.
Import Challenge3.

Variable db : SkillsDB.

(** The table entry of an identifier known to be in the table. *)
Definition skill_of (s : string) : Skill :=
  match dict_get db s with
  | Some skill => skill
  | None => mkSkill 0 0 0 []
  end.

Definition present (s : string) : Prop := dict_get db s <> None.

Definition sum_valor (l : list string) : Z :=
  sumZ (map (fun s => Valor (skill_of s)) l).

Definition sum_tempo (l : list string) : Z :=
  sumZ (map (fun s => Tempo (skill_of s)) l).

Lemma getitem_present s : present s -> getitem db s = Ok (skill_of s).
Proof.
  unfold present, getitem, skill_of. destruct (dict_get db s); congruence.
Qed.

Lemma getitem_ok_present s skill : getitem db s = Ok skill -> present s.
Proof.
  unfold present, getitem. destruct (dict_get db s); congruence.
Qed.

Lemma init_present basic thr self :
  init db basic thr = Ok self ->
  self = mkOptimizer db basic thr /\ Forall present basic.
Proof.
  unfold init. intros Hi. apply bind_ok_inv in Hi as (u & Hm & Hr).
  split; [congruence|]. apply Forall_forall. intros s Hs.
  destruct (mapM_ok_each _ _ _ Hm s Hs) as (y & Hy).
  unfold check_basic in Hy. apply bind_ok_inv in Hy as (skill & Hg & _).
  eapply getitem_ok_present; eauto.
Qed.

Lemma sum_field_present (field : Skill -> Z) l :
  Forall present l ->
  sum_field db field l = Ok (sumZ (map (fun s => field (skill_of s)) l)).
Proof.
  intros Hp. unfold sum_field.
  rewrite (mapM_total _ (fun s => field (skill_of s))); [reflexivity|].
  intros s Hs. rewrite Forall_forall in Hp.
  rewrite getitem_present by auto. reflexivity.
Qed.

Lemma sum_valor_app l1 l2 : sum_valor (l1 ++ l2) = sum_valor l1 + sum_valor l2.
Proof. unfold sum_valor. rewrite map_app, sumZ_app. reflexivity. Qed.

Lemma sum_tempo_app l1 l2 : sum_tempo (l1 ++ l2) = sum_tempo l1 + sum_tempo l2.
Proof. unfold sum_tempo. rewrite map_app, sumZ_app. reflexivity. Qed.

Lemma sum_valor_perm l1 l2 : Permutation l1 l2 -> sum_valor l1 = sum_valor l2.
Proof. intros Hp. apply sumZ_perm, Permutation_map, Hp. Qed.

Lemma sum_tempo_perm l1 l2 : Permutation l1 l2 -> sum_tempo l1 = sum_tempo l2.
Proof. intros Hp. apply sumZ_perm, Permutation_map, Hp. Qed.

Lemma sum_valor_single s : sum_valor [s] = Valor (skill_of s).
Proof. unfold sum_valor; simpl. rewrite sumZ_cons. unfold sumZ; simpl. lia. Qed.

Lemma sum_tempo_single s : sum_tempo [s] = Tempo (skill_of s).
Proof. unfold sum_tempo; simpl. rewrite sumZ_cons. unfold sumZ; simpl. lia. Qed.

(** Dropping items with non-negative weight does not increase a sum. *)
Lemma Subseq_sum_le (w : string -> Z) s l :
  Subseq s l -> Forall (fun x => 0 <= w x) l ->
  sumZ (map w s) <= sumZ (map w l).
Proof.
  induction 1 as [|x s l Hs IH|x s l Hs IH]; intros Hw; simpl.
  - lia.
  - inversion Hw; subst. rewrite sumZ_cons. specialize (IH H2). lia.
  - inversion Hw; subst. rewrite !sumZ_cons. specialize (IH H2). lia.
Qed.

(** ** The value-level table of [optimal_solution_dp] *)

(** An entry is sound for a prefix [p] of the candidates when its skill
    list is a selection from [p] with the recorded value and time. *)
Definition entry_sound (p : list string) (e : Z * (Z * list string)) : Prop :=
  Subseq (snd (snd e)) p /\
  sum_valor (snd (snd e)) = fst e /\
  sum_tempo (snd (snd e)) = fst (snd e).

(** The table reaches level [v] within time [t]. *)
Definition reaches (d : dp_table) (v t : Z) : Prop :=
  exists t' ss, dict_get d v = Some (t', ss) /\ t' <= t.

Definition dp_sound (p : list string) (d : dp_table) : Prop :=
  Forall (entry_sound p) d.

Definition dp_complete (p : list string) (d : dp_table) : Prop :=
  forall S, Subseq S p -> reaches d (sum_valor S) (sum_tempo S).

Lemma reaches_weaken d v t t' : reaches d v t -> t <= t' -> reaches d v t'.
Proof. intros (t0 & ss & Hg & Hle) Ht. exists t0, ss. split; [auto | lia]. Qed.

Lemma dp_sound_set p d k e :
  dp_sound p d -> entry_sound p (k, e) -> dp_sound p (dict_set d k e).
Proof.
  unfold dp_sound. rewrite !Forall_forall. intros Hd He x Hx.
  apply dict_set_In in Hx as [-> | Hx]; auto.
Qed.

Lemma relax_sound p x nd item :
  entry_sound p item -> dp_sound (p ++ [x]) nd ->
  dp_sound (p ++ [x]) (dp_relax x (skill_of x) nd item).
Proof.
  destruct item as [cv [ct cs]]. intros (Hs & Hv & Ht) Hnd.
  simpl in Hs, Hv, Ht. unfold dp_relax.
  assert (Hnew : entry_sound (p ++ [x])
            (cv + Valor (skill_of x), (ct + Tempo (skill_of x), cs ++ [x]))).
  { repeat split; simpl.
    - apply Subseq_snoc, Hs.
    - rewrite sum_valor_app, sum_valor_single. lia.
    - rewrite sum_tempo_app, sum_tempo_single. lia. }
  destruct (dict_get nd (cv + Valor (skill_of x))) as [[old ?]|].
  - destruct (ct + Tempo (skill_of x) <? old); auto using dp_sound_set.
  - auto using dp_sound_set.
Qed.

Lemma relax_reaches_mono x sk nd item v t :
  reaches nd v t -> reaches (dp_relax x sk nd item) v t.
Proof.
  destruct item as [cv [ct cs]]. intros (t0 & ss & Hg & Hle). unfold dp_relax.
  destruct (Z.eq_dec v (cv + Valor sk)) as [-> | Hne].
  - rewrite Hg. destruct (ct + Tempo sk <? t0) eqn:E.
    + exists (ct + Tempo sk), (cs ++ [x]). rewrite dict_get_set_same.
      apply Z.ltb_lt in E. split; [reflexivity | lia].
    + exists t0, ss. auto.
  - destruct (dict_get nd (cv + Valor sk)) as [[old ?]|].
    + destruct (ct + Tempo sk <? old).
      * exists t0, ss. rewrite dict_get_set_other by auto. auto.
      * exists t0, ss. auto.
    + exists t0, ss. rewrite dict_get_set_other by auto. auto.
Qed.

Lemma relax_reaches_new x sk nd cv ct cs :
  reaches (dp_relax x sk nd (cv, (ct, cs))) (cv + Valor sk) (ct + Tempo sk).
Proof.
  unfold dp_relax.
  destruct (dict_get nd (cv + Valor sk)) as [[old ss]|] eqn:Hg.
  - destruct (ct + Tempo sk <? old) eqn:E.
    + exists (ct + Tempo sk), (cs ++ [x]). rewrite dict_get_set_same.
      split; [reflexivity | lia].
    + exists old, ss. apply Z.ltb_ge in E. auto.
  - exists (ct + Tempo sk), (cs ++ [x]). rewrite dict_get_set_same.
    split; [reflexivity | lia].
Qed.

(** The inner loop over the items of the old table. *)
Lemma relax_all p x items nd :
  Forall (entry_sound p) items -> dp_sound (p ++ [x]) nd ->
  let nd' := fold_left (dp_relax x (skill_of x)) items nd in
  dp_sound (p ++ [x]) nd' /\
  (forall v t, reaches nd v t -> reaches nd' v t) /\
  (forall cv ct cs, In (cv, (ct, cs)) items ->
     reaches nd' (cv + Valor (skill_of x)) (ct + Tempo (skill_of x))).
Proof.
  revert nd; induction items as [|item items IH]; intros nd Hit Hnd; simpl.
  - repeat split; auto. intros ? ? ? [].
  - inversion Hit as [|? ? Hi Hrest]; subst.
    destruct (IH (dp_relax x (skill_of x) nd item) Hrest
                (relax_sound _ _ _ _ Hi Hnd)) as (H1 & H2 & H3).
    repeat split; auto.
    + intros v t Hr. apply H2, relax_reaches_mono, Hr.
    + intros cv ct cs [-> | Hin]; [|eauto].
      apply H2, relax_reaches_new.
Qed.

Lemma dp_sound_extend p x d : dp_sound p d -> dp_sound (p ++ [x]) d.
Proof.
  unfold dp_sound. apply Forall_impl. intros e (Hs & Hv & Ht).
  repeat split; auto. apply Subseq_app_r, Hs.
Qed.

(** One candidate more: the table stays sound and complete. *)
Lemma dp_step_invariant p x d :
  dp_sound p d -> dp_complete p d ->
  let d' := fold_left (dp_relax x (skill_of x)) d d in
  dp_sound (p ++ [x]) d' /\ dp_complete (p ++ [x]) d'.
Proof.
  intros Hs Hc d'.
  destruct (relax_all p x d d Hs (dp_sound_extend _ _ _ Hs)) as (H1 & H2 & H3).
  split; [exact H1|]. intros S HS.
  apply Subseq_snoc_inv in HS as [HS | (S' & -> & HS)].
  - apply H2, Hc, HS.
  - destruct (Hc _ HS) as (t0 & ss & Hg & Hle).
    apply dict_get_In in Hg. specialize (H3 _ _ _ Hg).
    rewrite sum_valor_app, sum_tempo_app, sum_valor_single, sum_tempo_single.
    eapply reaches_weaken; [exact H3 | lia].
Qed.

Lemma dp_table_invariant rest : forall p d,
  Forall present rest -> dp_sound p d -> dp_complete p d ->
  exists d', foldM (dp_step db) rest d = Ok d' /\
             dp_sound (p ++ rest) d' /\ dp_complete (p ++ rest) d'.
Proof.
  induction rest as [|x rest IH]; intros p d Hp Hs Hc; simpl.
  - exists d. rewrite app_nil_r. auto.
  - inversion Hp as [|? ? Hx Hrest]; subst.
    unfold dp_step at 1. rewrite (getitem_present _ Hx). simpl.
    destruct (dp_step_invariant p x d Hs Hc) as (Hs' & Hc').
    destruct (IH (p ++ [x]) _ Hrest Hs' Hc') as (d' & Hf & Hs'' & Hc'').
    exists d'. rewrite <- app_assoc in Hs'', Hc''. auto.
Qed.

Lemma dp_initial_invariant : dp_sound [] dp_initial /\ dp_complete [] dp_initial.
Proof.
  split.
  - constructor; [|constructor]. repeat split; simpl; auto.
  - intros S HS. apply Subseq_of_nil in HS. subst.
    exists 0, []. split; [reflexivity | unfold sum_tempo, sumZ; simpl; lia].
Qed.

(** The final scan returns a least-time entry at or above the threshold,
    and nothing exactly when no entry is at or above it. *)
Definition pick_ok (thr : Z) (seen : dp_table)
    (best : option (Z * list string * Z)) : Prop :=
  match best with
  | None => forall v t ss, In (v, (t, ss)) seen -> v < thr
  | Some (bt, bs, bv) =>
      In (bv, (bt, bs)) seen /\ thr <= bv /\
      forall v t ss, In (v, (t, ss)) seen -> thr <= v -> bt <= t
  end.

Lemma dp_pick_invariant thr items : forall seen best,
  pick_ok thr seen best ->
  pick_ok thr (seen ++ items) (fold_left (dp_pick thr) items best).
Proof.
  induction items as [|[v [t ss]] items IH]; intros seen best Hb; simpl.
  - rewrite app_nil_r. exact Hb.
  - replace (seen ++ (v, (t, ss)) :: items)
      with ((seen ++ [(v, (t, ss))]) ++ items) by (rewrite <- app_assoc; reflexivity).
    apply IH. unfold dp_pick.
    destruct (thr <=? v) eqn:Ev.
    + apply Z.leb_le in Ev. destruct best as [[[bt bs] bv]|]; simpl in *.
      * destruct Hb as (Hin & Hbv & Hmin).
        destruct (t <? bt) eqn:Et; simpl.
        -- apply Z.ltb_lt in Et. repeat split.
           ++ apply in_or_app. right. left. reflexivity.
           ++ exact Ev.
           ++ intros v' t' ss' Hin' Hv'. apply in_app_or in Hin' as [Hin' | [E | []]].
              ** specialize (Hmin _ _ _ Hin' Hv'). lia.
              ** inversion E; subst. lia.
        -- apply Z.ltb_ge in Et. repeat split.
           ++ apply in_or_app. left. exact Hin.
           ++ exact Hbv.
           ++ intros v' t' ss' Hin' Hv'. apply in_app_or in Hin' as [Hin' | [E | []]].
              ** eauto.
              ** inversion E; subst. lia.
      * repeat split.
        -- apply in_or_app. right. left. reflexivity.
        -- exact Ev.
        -- intros v' t' ss' Hin' Hv'. apply in_app_or in Hin' as [Hin' | [E | []]].
           ++ specialize (Hb _ _ _ Hin'). lia.
           ++ inversion E; subst. lia.
    + apply Z.leb_gt in Ev. destruct best as [[[bt bs] bv]|]; simpl in *.
      * destruct Hb as (Hin & Hbv & Hmin). repeat split; auto.
        -- apply in_or_app. left. exact Hin.
        -- intros v' t' ss' Hin' Hv'. apply in_app_or in Hin' as [Hin' | [E | []]].
           ++ eauto.
           ++ inversion E; subst. lia.
      * intros v' t' ss' Hin'. apply in_app_or in Hin' as [Hin' | [E | []]].
        -- eauto.
        -- inversion E; subst. lia.
Qed.

(** What [optimal_solution_dp] returns: nothing when no selection meets
    the threshold, else a selection that meets it in the least time. *)
Lemma optimal_solution_dp_spec basic thr :
  Forall present basic ->
  let self := mkOptimizer db basic thr in
  (optimal_solution_dp self = Ok None /\
   forall S, Subseq S basic -> sum_valor S < thr)
  \/
  (exists sol, optimal_solution_dp self = Ok (Some sol) /\
     Subseq (selected sol) basic /\
     thr <= sum_valor (selected sol) /\
     total_value sol = sum_valor (selected sol) /\
     total_time sol = sum_tempo (selected sol) /\
     forall S, Subseq S basic -> thr <= sum_valor S ->
               total_time sol <= sum_tempo S).
Proof.
  intros Hp self.
  destruct dp_initial_invariant as (Hs0 & Hc0).
  destruct (dp_table_invariant basic [] dp_initial Hp Hs0 Hc0)
    as (d & Hd & Hs & Hc).
  simpl in Hs, Hc.
  assert (Hpick : pick_ok thr d (fold_left (dp_pick thr) d None)).
  { apply (dp_pick_invariant thr d [] None). simpl. intros ? ? ? []. }
  unfold optimal_solution_dp. simpl. rewrite Hd. simpl.
  destruct (fold_left (dp_pick thr) d None) as [[[bt bs] bv]|]; simpl in Hpick.
  - right. destruct Hpick as (Hin & Hbv & Hmin).
    unfold dp_sound in Hs. rewrite Forall_forall in Hs.
    destruct (Hs _ Hin) as (H1 & H2 & H3). simpl in H1, H2, H3.
    eexists. split; [reflexivity|]. simpl.
    repeat split; auto; try lia.
    intros S HS Hthr. destruct (Hc _ HS) as (t0 & ss & Hg & Hle).
    apply dict_get_In in Hg. specialize (Hmin _ _ _ Hg Hthr). lia.
  - left. split; [reflexivity|]. intros S HS.
    destruct (Hc _ HS) as (t0 & ss & Hg & Hle).
    apply dict_get_In in Hg. eauto.
Qed.

(** ** [optimal_solution_bruteforce] *)

Definition bf_ok (thr : Z) (seen : list (list string))
    (best : option (Z * list string)) : Prop :=
  match best with
  | None => forall c, In c seen -> sum_valor c < thr
  | Some (bt, bc) =>
      In bc seen /\ thr <= sum_valor bc /\ bt = sum_tempo bc /\
      forall c, In c seen -> thr <= sum_valor c -> bt <= sum_tempo c
  end.

Lemma bruteforce_invariant thr combos : forall seen best,
  (forall c, In c combos -> Forall present c) ->
  bf_ok thr seen best ->
  exists best', foldM (bruteforce_visit db thr) combos best = Ok best' /\
                bf_ok thr (seen ++ combos) best'.
Proof.
  induction combos as [|c combos IH]; intros seen best Hp Hb; simpl.
  - exists best. rewrite app_nil_r. auto.
  - assert (Hc : Forall present c) by (apply Hp; left; reflexivity).
    unfold bruteforce_visit at 1.
    rewrite (sum_field_present Valor c Hc). simpl.
    fold (sum_valor c).
    replace (seen ++ c :: combos) with ((seen ++ [c]) ++ combos)
      by (rewrite <- app_assoc; reflexivity).
    destruct (thr <=? sum_valor c) eqn:Ev.
    + apply Z.leb_le in Ev.
      rewrite (sum_field_present Tempo c Hc). simpl. fold (sum_tempo c).
      destruct best as [[bt bc]|]; simpl in Hb.
      * destruct Hb as (Hin & Hbv & Hbt & Hmin).
        destruct (sum_tempo c <? bt) eqn:Et; simpl.
        -- apply Z.ltb_lt in Et. apply IH; [auto with datatypes|].
           simpl. repeat split; auto with datatypes.
           intros c' Hin' Hv'. apply in_app_or in Hin' as [Hin' | [<- | []]].
           ++ specialize (Hmin _ Hin' Hv'). lia.
           ++ lia.
        -- apply Z.ltb_ge in Et. apply IH; [auto with datatypes|].
           simpl. repeat split; auto with datatypes.
           intros c' Hin' Hv'. apply in_app_or in Hin' as [Hin' | [<- | []]].
           ++ auto.
           ++ lia.
      * simpl. apply IH; [auto with datatypes|].
        simpl. repeat split; auto with datatypes.
        intros c' Hin' Hv'. apply in_app_or in Hin' as [Hin' | [<- | []]].
        -- specialize (Hb _ Hin'). lia.
        -- lia.
    + apply Z.leb_gt in Ev. simpl. apply IH; [auto with datatypes|].
      destruct best as [[bt bc]|]; simpl in *.
      * destruct Hb as (Hin & Hbv & Hbt & Hmin).
        repeat split; auto with datatypes.
        intros c' Hin' Hv'. apply in_app_or in Hin' as [Hin' | [<- | []]].
        -- auto.
        -- lia.
      * intros c' Hin'. apply in_app_or in Hin' as [Hin' | [<- | []]]; auto.
Qed.

(** The two nested loops visit exactly the non-empty selections. *)
Lemma bruteforce_order_In basic c :
  In c (bruteforce_order basic) <-> Subseq c basic /\ c <> [].
Proof.
  unfold bruteforce_order. rewrite in_concat. split.
  - intros (l & Hl & Hc). apply in_map_iff in Hl as (k & <- & Hk).
    apply in_seq in Hk. apply combinations_Subseq in Hc as [Hs Hlen].
    split; [exact Hs|]. intros ->. simpl in Hlen. lia.
  - intros [Hs Hne]. exists (combinations basic (List.length c)). split.
    + apply in_map. apply in_seq. pose proof (Subseq_length _ _ Hs).
      destruct c; [congruence | simpl in *; lia].
    + apply combinations_Subseq. auto.
Qed.

Lemma Subseq_present s l : Subseq s l -> Forall present l -> Forall present s.
Proof.
  intros Hs. rewrite !Forall_forall. intros Hl x Hx.
  apply Hl. eapply Subseq_In; eauto.
Qed.

(** What [optimal_solution_bruteforce] returns: the same, over the
    non-empty selections only. *)
Lemma optimal_solution_bruteforce_spec basic thr :
  Forall present basic ->
  let self := mkOptimizer db basic thr in
  (optimal_solution_bruteforce self = Ok None /\
   forall S, Subseq S basic -> S <> [] -> sum_valor S < thr)
  \/
  (exists sol, optimal_solution_bruteforce self = Ok (Some sol) /\
     Subseq (selected sol) basic /\ selected sol <> [] /\
     thr <= sum_valor (selected sol) /\
     total_value sol = sum_valor (selected sol) /\
     total_time sol = sum_tempo (selected sol) /\
     forall S, Subseq S basic -> S <> [] -> thr <= sum_valor S ->
               total_time sol <= sum_tempo S).
Proof.
  intros Hp self.
  destruct (bruteforce_invariant thr (bruteforce_order basic) [] None)
    as (best & Hf & Hb).
  { intros c Hc. apply bruteforce_order_In in Hc as [Hs _].
    eapply Subseq_present; eauto. }
  { simpl. intros ? []. }
  simpl in Hb. unfold optimal_solution_bruteforce. simpl. rewrite Hf. simpl.
  destruct best as [[bt bc]|]; simpl in Hb.
  - right. destruct Hb as (Hin & Hbv & Hbt & Hmin).
    apply bruteforce_order_In in Hin as [Hs Hne].
    rewrite (sum_field_present Valor bc) by (eapply Subseq_present; eauto).
    simpl. eexists. split; [reflexivity|]. simpl.
    repeat split; auto.
    intros S HS HSne Hthr. apply Hmin; auto.
    apply bruteforce_order_In. auto.
  - left. split; [reflexivity|]. intros S HS HSne.
    apply Hb, bruteforce_order_In. auto.
Qed.

(** ** [greedy_solution] *)

Lemma insert_desc_perm {A K} (lt : K -> K -> bool) (x : A * K) l :
  Permutation (insert_desc lt x l) (x :: l).
Proof.
  induction l as [|y ys IH]; simpl; [reflexivity|].
  destruct (lt (snd y) (snd x)); [reflexivity|].
  rewrite IH. apply perm_swap.
Qed.

Lemma sort_desc_perm {A K} (lt : K -> K -> bool) (l : list (A * K)) :
  Permutation (sort_desc lt l) l.
Proof.
  unfold sort_desc.
  assert (G : forall acc, Permutation
                (fold_left (fun acc x => insert_desc lt x acc) l acc) (acc ++ l)).
  { induction l as [|x xs IH]; intros acc; simpl.
    - rewrite app_nil_r. reflexivity.
    - rewrite IH, insert_desc_perm. apply Permutation_middle. }
  apply (G []).
Qed.

Lemma map_fst_combine {A B} (f : A -> B) (l : list A) :
  map fst (combine l (map f l)) = l.
Proof. induction l; simpl; congruence. Qed.

(** Sorting by ratio succeeds when no time is zero, and reorders the
    candidates. *)
Lemma sorted_by_ratio_perm basic :
  Forall present basic ->
  Forall (fun s => Tempo (skill_of s) <> 0) basic ->
  exists sorted,
    sorted_by_key_reverse (value_time_ratio db) basic = Ok sorted /\
    Permutation sorted basic.
Proof.
  intros Hp Ht. unfold sorted_by_key_reverse.
  set (ratio := fun s => PrimFloat.div (float_of_Z (Valor (skill_of s)))
                          (float_of_Z (Tempo (skill_of s)))).
  rewrite (mapM_total _ ratio).
  - simpl. eexists. split; [reflexivity|].
    apply Permutation_trans with (map fst (combine basic (map ratio basic))).
    + apply Permutation_map, sort_desc_perm.
    + rewrite map_fst_combine. reflexivity.
  - intros s Hs. rewrite Forall_forall in Hp, Ht.
    unfold value_time_ratio. rewrite getitem_present by auto. simpl.
    unfold truediv. specialize (Ht s Hs). apply Z.eqb_neq in Ht.
    rewrite Ht. reflexivity.
Qed.

(** The loop selects a prefix of the sorted candidates; it stops early
    only on reaching the threshold. *)
Lemma greedy_loop_spec thr skills_sorted : forall sel tv tt,
  Forall present skills_sorted ->
  exists pre suf,
    skills_sorted = pre ++ suf /\
    greedy_loop db thr skills_sorted sel tv tt
      = Ok (sel ++ pre, tv + sum_valor pre, tt + sum_tempo pre) /\
    (thr <= tv + sum_valor pre \/ suf = []).
Proof.
  induction skills_sorted as [|x rest IH]; intros sel tv tt Hp; simpl.
  - exists [], []. unfold sum_valor, sum_tempo, sumZ; simpl.
    rewrite app_nil_r, !Z.add_0_r. auto.
  - inversion Hp as [|? ? Hx Hrest]; subst.
    rewrite (getitem_present _ Hx). simpl.
    destruct (thr <=? tv + Valor (skill_of x)) eqn:E.
    + apply Z.leb_le in E. exists [x], rest.
      rewrite sum_valor_single, sum_tempo_single. auto.
    + destruct (IH (sel ++ [x]) (tv + Valor (skill_of x))
                  (tt + Tempo (skill_of x)) Hrest)
        as (pre & suf & -> & Hg & Hstop).
      exists (x :: pre), suf. rewrite Hg.
      change (x :: pre) with ([x] ++ pre).
      rewrite sum_valor_app, sum_tempo_app, sum_valor_single, sum_tempo_single.
      rewrite <- !app_assoc, !Z.add_assoc. simpl. repeat split.
      destruct Hstop as [Hstop | ->]; [left; lia | right; reflexivity].
Qed.

(** What [greedy_solution] returns: a prefix of some reordering of the
    candidates, which either meets the threshold or is everything. *)
Lemma greedy_solution_spec basic thr :
  Forall present basic ->
  Forall (fun s => Tempo (skill_of s) <> 0) basic ->
  exists g rest,
    greedy_solution (mkOptimizer db basic thr) = Ok g /\
    Permutation (selected g ++ rest) basic /\
    total_value g = sum_valor (selected g) /\
    total_time g = sum_tempo (selected g) /\
    (thr <= total_value g \/ rest = []).
Proof.
  intros Hp Ht.
  destruct (sorted_by_ratio_perm basic Hp Ht) as (sorted & Hs & Hperm).
  assert (Hps : Forall present sorted).
  { rewrite Forall_forall in *. intros x Hx. apply Hp.
    eapply Permutation_in; eauto. }
  destruct (greedy_loop_spec thr sorted [] 0 0 Hps)
    as (pre & suf & -> & Hg & Hstop).
  unfold greedy_solution. simpl. rewrite Hs. simpl. rewrite Hg. simpl.
  eexists. exists suf. split; [reflexivity|]. simpl. auto.
Qed.

End Challenge3Facts.

(** C3.  Whenever [optimal_solution_dp] returns a solution, its
    [total_time] is at most the [total_time] of the selection returned
    by [greedy_solution] on the same optimizer.  Candidates have positive
    time costs, as the skill table requires, and [greedy_solution]
    divides value by time: values and times are integers that binary64
    holds exactly, so that the division neither overflows nor rounds
    twice. *)
Theorem dp_time_le_greedy_time :
  forall (db : SkillsDB) (basic : list string) (thr : Z)
         (self : Challenge3.optimizer) (dp_sol : Challenge3.solution),
    Challenge3.init db basic thr = Ok self ->
    (forall s skill, In s basic -> getitem db s = Ok skill ->
                     0 < Tempo skill /\
                     float_exact (Valor skill) /\ float_exact (Tempo skill)) ->
    Challenge3.optimal_solution_dp self = Ok (Some dp_sol) ->
    exists g,
      Challenge3.greedy_solution self = Ok g /\
      Challenge3.total_time dp_sol <= Challenge3.total_time g.
Proof.
  intros db basic thr self dp_sol Hinit Hpos Hdp.
  apply init_present in Hinit as [-> Hp].
  assert (Ht : Forall (fun s => 0 < Tempo (skill_of db s)) basic).
  { rewrite Forall_forall in *. intros s Hs.
    apply (Hpos s); auto. apply getitem_present; auto. }
  destruct (greedy_solution_spec db basic thr Hp) as (g & rest & Hg & Hperm & Hv & Htm & Hstop).
  { eapply Forall_impl; [|exact Ht]. simpl. intros; lia. }
  exists g. split; [exact Hg|].
  destruct (optimal_solution_dp_spec db basic thr Hp)
    as [[Hnone _] | (sol & Hsome & Hsub & Hthr & Hval & Htime & Hmin)].
  { simpl in Hnone. congruence. }
  simpl in Hsome. assert (sol = dp_sol) by congruence. subst sol.
  destruct Hstop as [Hreach | ->].
  - (* the greedy selection meets the threshold: it is a feasible selection *)
    destruct (Subseq_perm _ _ _ (Subseq_app_l (Challenge3.selected g) rest) Hperm)
      as (S & HS & HPS).
    rewrite Htm, <- (sum_tempo_perm db _ _ HPS).
    apply Hmin; [exact HS|].
    rewrite (sum_valor_perm db _ _ HPS). lia.
  - (* the greedy selection is the whole candidate list *)
    rewrite app_nil_r in Hperm.
    rewrite Htm, Htime, (sum_tempo_perm db _ _ Hperm).
    apply Subseq_sum_le; [exact Hsub|].
    eapply Forall_impl; [|exact Ht]. simpl. intros; lia.
Qed.

Definition literal_optimizer : Challenge3.optimizer :=
  Challenge3.mkOptimizer Challenge3.counterexample_db ["A"; "B"; "C"] 16.

Lemma dp_time_le_greedy_time_witness :
  Challenge3.init Challenge3.counterexample_db ["A"; "B"; "C"] 16
    = Ok literal_optimizer /\
  exists g,
    Challenge3.greedy_solution literal_optimizer = Ok g /\
    10 <= Challenge3.total_time g.
Proof.
  split; [vm_compute; reflexivity|].
  apply (dp_time_le_greedy_time Challenge3.counterexample_db ["A"; "B"; "C"] 16
           literal_optimizer
           (Challenge3.mkSolution "Ótimo (DP)" ["A"] 16 10 1)).
  - vm_compute; reflexivity.
  - intros s skill [<- | [<- | [<- | []]]] Hget;
      vm_compute in Hget; inversion Hget; subst; unfold float_exact; simpl; lia.
  - vm_compute; reflexivity.
Defined.

(** The agreement C4 speaks of: both solvers report no solution, or both
    return solutions with the same [total_time]. *)
Definition dp_bf_agree (dp bf : result (option Challenge3.solution)) : Prop :=
  (dp = Ok None /\ bf = Ok None) \/
  (exists d b, dp = Ok (Some d) /\ bf = Ok (Some b) /\
               Challenge3.total_time d = Challenge3.total_time b).

Definition one_skill_db : SkillsDB := [("H1", mkSkill 10 40 2 [])].

(** C4 as stated fails at threshold 0 with the single candidate H1
    (value 10, time 40): the DP answers with the empty selection in time
    0, the brute force, which starts at size 1, answers [H1] in time 40. *)
Lemma dp_bf_disagree_at_threshold_zero :
  exists self,
    Challenge3.init one_skill_db ["H1"] 0 = Ok self /\
    ~ dp_bf_agree (Challenge3.optimal_solution_dp self)
                  (Challenge3.optimal_solution_bruteforce self).
Proof.
  eexists. split; [vm_compute; reflexivity|].
  intros [[Hdp _] | (d & b & Hdp & Hbf & Ht)].
  - vm_compute in Hdp. discriminate.
  - vm_compute in Hdp, Hbf. inversion Hdp; inversion Hbf; subst.
    simpl in Ht. discriminate.
Qed.

(** C4, amended.  For every candidate list and every positive threshold,
    [optimal_solution_dp] and [optimal_solution_bruteforce] agree: both
    return [None] and no selection meets the threshold, or both return
    solutions with the same [total_time], the least time of a selection
    that meets the threshold. *)
Theorem dp_agrees_with_bruteforce :
  forall (db : SkillsDB) (basic : list string) (thr : Z)
         (self : Challenge3.optimizer),
    Challenge3.init db basic thr = Ok self ->
    0 < thr ->
    dp_bf_agree (Challenge3.optimal_solution_dp self)
                (Challenge3.optimal_solution_bruteforce self) /\
    (Challenge3.optimal_solution_dp self = Ok None ->
       forall S, Subseq S basic -> sum_valor db S < thr) /\
    (forall d, Challenge3.optimal_solution_dp self = Ok (Some d) ->
       Subseq (Challenge3.selected d) basic /\
       thr <= sum_valor db (Challenge3.selected d) /\
       Challenge3.total_time d = sum_tempo db (Challenge3.selected d) /\
       forall S, Subseq S basic -> thr <= sum_valor db S ->
                 Challenge3.total_time d <= sum_tempo db S).
Proof.
  intros db basic thr self Hinit Hthr.
  apply init_present in Hinit as [-> Hp].
  assert (Hempty : forall S : list string, thr <= sum_valor db S -> S <> []).
  { intros S HS ->. unfold sum_valor, sumZ in HS. simpl in HS. lia. }
  destruct (optimal_solution_dp_spec db basic thr Hp)
    as [[Hdp Hno] | (d & Hdp & Hsub & Hval & Htv & Htime & Hmin)];
  destruct (optimal_solution_bruteforce_spec db basic thr Hp)
    as [[Hbf Hno'] | (b & Hbf & Hsub' & Hne' & Hval' & Htv' & Htime' & Hmin')];
  simpl in Hdp, Hbf.
  - split; [left; auto|]. split; [auto|]. intros d Hd. congruence.
  - specialize (Hno _ Hsub'). lia.
  - specialize (Hno' _ Hsub (Hempty _ Hval)). lia.
  - split; [|split].
    + right. exists d, b. repeat split; auto.
      pose proof (Hmin _ Hsub' Hval').
      pose proof (Hmin' _ Hsub (Hempty _ Hval) Hval). lia.
    + intros Hnone. congruence.
    + intros d' Hd'. assert (d' = d) by congruence. subst d'. auto.
Qed.

Lemma dp_agrees_with_bruteforce_witness :
  0 < 16 /\
  dp_bf_agree (Challenge3.optimal_solution_dp literal_optimizer)
              (Challenge3.optimal_solution_bruteforce literal_optimizer).
Proof.
  split; [lia|].
  apply (dp_agrees_with_bruteforce Challenge3.counterexample_db
           ["A"; "B"; "C"] 16 literal_optimizer).
  - vm_compute; reflexivity.
  - lia.
Defined.

(** C5.  On the literal input A(16,10), B(12,7), C(8,4) with threshold
    16, [greedy_solution] selects C then B with total time 11 and
    [optimal_solution_dp] selects A alone with total time 10; these are
    the values recorded in [demonstrate_counterexample]. *)
Theorem literal_counterexample_scenario :
  Challenge3.init Challenge3.counterexample_db
     (map fst (Challenge3.database Challenge3.demonstrate_counterexample))
     (Challenge3.min_adaptability Challenge3.demonstrate_counterexample)
    = Ok literal_optimizer /\
  Challenge3.greedy_solution literal_optimizer
    = Ok (Challenge3.mkSolution "Guloso (V/T)" ["C"; "B"] 20 11 2) /\
  Challenge3.optimal_solution_dp literal_optimizer
    = Ok (Some (Challenge3.mkSolution "Ótimo (DP)" ["A"] 16 10 1)) /\
  Challenge3.greedy_side Challenge3.demonstrate_counterexample
    = Challenge3.mkSide ["C"; "B"] 11 20 /\
  Challenge3.optimal_side Challenge3.demonstrate_counterexample
    = Challenge3.mkSide ["A"] 10 16.
Proof. repeat split; vm_compute; reflexivity. Qed.

(** C10.  When the candidates' values sum to less than the threshold,
    [greedy_solution] still returns an ordinary result record: it selects
    every candidate, its [total_value] is that sum, below the threshold,
    and the record has no failure field; [optimal_solution_dp] returns
    [None] on the same optimizer.  Values are non-negative and times
    non-zero, as in every skill table, and both are integers that
    binary64 holds exactly, so that the division of value by time
    neither overflows nor rounds twice. *)
Theorem greedy_never_signals_infeasibility :
  forall (db : SkillsDB) (basic : list string) (thr total : Z)
         (self : Challenge3.optimizer),
    Challenge3.init db basic thr = Ok self ->
    (forall s skill, In s basic -> getitem db s = Ok skill ->
                     0 <= Valor skill /\ Tempo skill <> 0 /\
                     float_exact (Valor skill) /\ float_exact (Tempo skill)) ->
    Challenge3.sum_field db Valor basic = Ok total ->
    total < thr ->
    (exists g,
       Challenge3.greedy_solution self = Ok g /\
       Permutation (Challenge3.selected g) basic /\
       Challenge3.total_value g = total /\
       Challenge3.total_value g < thr) /\
    Challenge3.optimal_solution_dp self = Ok None.
Proof.
  intros db basic thr total self Hinit Hwf Hsum Hlt.
  apply init_present in Hinit as [-> Hp].
  rewrite (sum_field_present db Valor basic Hp) in Hsum.
  fold (sum_valor db basic) in Hsum. injection Hsum as Hsum.
  assert (Hv : Forall (fun s => 0 <= Valor (skill_of db s)) basic).
  { rewrite Forall_forall in *. intros s Hs.
    apply (Hwf s); auto. apply getitem_present; auto. }
  assert (Ht : Forall (fun s => Tempo (skill_of db s) <> 0) basic).
  { rewrite Forall_forall in *. intros s Hs.
    apply (Hwf s); auto. apply getitem_present; auto. }
  assert (Hbound : forall S, Subseq S basic -> sum_valor db S < thr).
  { intros S HS.
    pose proof (Subseq_sum_le (fun s => Valor (skill_of db s)) S basic HS Hv) as Hle.
    fold (sum_valor db S) in Hle. fold (sum_valor db basic) in Hle. lia. }
  split.
  - destruct (greedy_solution_spec db basic thr Hp Ht)
      as (g & rest & Hg & Hperm & Hval & Htm & Hstop).
    assert (Hsel : sum_valor db (Challenge3.selected g) < thr).
    { destruct (Subseq_perm _ _ _ (Subseq_app_l (Challenge3.selected g) rest) Hperm)
        as (S & HS & HPS).
      rewrite <- (sum_valor_perm db _ _ HPS). auto. }
    destruct Hstop as [Hreach | ->]; [lia|].
    rewrite app_nil_r in Hperm.
    exists g. repeat split; auto.
    + rewrite Hval, (sum_valor_perm db _ _ Hperm). exact Hsum.
    + lia.
  - destruct (optimal_solution_dp_spec db basic thr Hp)
      as [[Hdp _] | (d & _ & Hsub & Hval & _)]; [exact Hdp|].
    specialize (Hbound _ Hsub). lia.
Qed.

Lemma greedy_never_signals_infeasibility_witness :
  36 < 40 /\
  (exists g,
     Challenge3.greedy_solution
       (Challenge3.mkOptimizer Challenge3.counterexample_db ["A"; "B"; "C"] 40)
       = Ok g /\
     Permutation (Challenge3.selected g) ["A"; "B"; "C"] /\
     Challenge3.total_value g = 36 /\
     Challenge3.total_value g < 40) /\
  Challenge3.optimal_solution_dp
    (Challenge3.mkOptimizer Challenge3.counterexample_db ["A"; "B"; "C"] 40)
    = Ok None.
Proof.
  split; [lia|].
  apply (greedy_never_signals_infeasibility Challenge3.counterexample_db
           ["A"; "B"; "C"] 40 36).
  - vm_compute; reflexivity.
  - intros s skill [<- | [<- | [<- | []]]] Hget;
      vm_compute in Hget; inversion Hget; subst; unfold float_exact; simpl; lia.
  - vm_compute; reflexivity.
  - lia.
Defined.

(* ===================================================================== *)
(** * Facts about gs_challenge1.py *)
(* ===================================================================== *)

Section Challenge1Tables.
Import Challenge1.

(** A property of every state of a table, which may mention the cell
    [(t, c)] the state sits in. *)
Definition all_states (P : Z * Z -> state -> Prop) (dp : dp_table) : Prop :=
  forall k sts st, In (k, sts) dp -> In st sts -> P k st.

Lemma dd_extend_all P d k sts :
  all_states P d -> (forall st, In st sts -> P k st) ->
  all_states P (dd_extend d k sts).
Proof.
  unfold dd_extend. intros Hd Hs k' sts' st' Hin Hst.
  destruct (dict_get d k) as [old|] eqn:E.
  - apply dict_set_In in Hin as [Heq | Hin]; [|eauto].
    inversion Heq; subst.
    apply in_app_or in Hst as [Hst | Hst]; [|auto].
    apply dict_get_In in E. eauto.
  - apply dict_set_In in Hin as [Heq | Hin]; [|eauto].
    inversion Heq; subst. auto.
Qed.

Lemma copy_all P (l : dp_table) : forall acc,
  all_states P acc -> all_states P l ->
  all_states P (fold_left (fun nd e => dd_extend nd (fst e) (snd e)) l acc).
Proof.
  induction l as [|[k sts] l IH]; intros acc Ha Hl; simpl; [exact Ha|].
  apply IH.
  - apply dd_extend_all; [exact Ha|]. intros st Hst.
    apply (Hl k sts); [left; reflexivity | exact Hst].
  - intros k' sts' st' Hin. apply (Hl k' sts'). right. exact Hin.
Qed.

Section Step.
  Variables (P P' : Z * Z -> state -> Prop).
  Variables (skill_id : string) (skill : Skill) (max_time max_complexity : Z).

  (** What a transition must establish for the new state. *)
  Hypothesis step_ok : forall t c st,
    P (t, c) st ->
    forallb (fun p => mem p (skills st)) (Pre_Reqs skill) = true ->
    mem skill_id (skills st) = false ->
    t + Tempo skill <= max_time ->
    c + Complexidade skill <= max_complexity ->
    P' (t + Tempo skill, c + Complexidade skill)
       (mkState (valor st + Valor skill) (skills st ++ [skill_id])
                (path st ++ [skill_id])).

Lemma transition_all t c nd st :
  all_states P' nd -> P (t, c) st ->
  all_states P' (transition skill_id skill max_time max_complexity t c nd st).
Proof.
  intros Hnd Hst. unfold transition.
  destruct (forallb (fun p => mem p (skills st)) (Pre_Reqs skill)) eqn:Epre;
    simpl; [|exact Hnd].
  destruct (mem skill_id (skills st)) eqn:Emem; simpl; [exact Hnd|].
  destruct (t + Tempo skill <=? max_time) eqn:Et; simpl; [|exact Hnd].
  destruct (c + Complexidade skill <=? max_complexity) eqn:Ec; simpl;
    [|exact Hnd].
  apply Z.leb_le in Et, Ec.
  apply dd_extend_all; [exact Hnd|].
  intros st' [<- | []]. apply step_ok; auto.
Qed.

Lemma transitions_all t c sts : forall nd,
  all_states P' nd -> (forall st, In st sts -> P (t, c) st) ->
  all_states P'
    (fold_left (transition skill_id skill max_time max_complexity t c) sts nd).
Proof.
  induction sts as [|st sts IH]; intros nd Hnd Hs; simpl; [exact Hnd|].
  apply IH; [|intros; apply Hs; right; assumption].
  apply transition_all; [exact Hnd | apply Hs; left; reflexivity].
Qed.

Lemma extend_all (l : dp_table) : forall nd,
  all_states P' nd -> all_states P l ->
  all_states P'
    (fold_left
       (fun nd e =>
          fold_left
            (transition skill_id skill max_time max_complexity
               (fst (fst e)) (snd (fst e)))
            (snd e) nd)
       l nd).
Proof.
  induction l as [|[[t c] sts] l IH]; intros nd Hnd Hl; simpl; [exact Hnd|].
  apply IH; [|intros k' sts' st' Hin; apply (Hl k' sts'); right; exact Hin].
  apply transitions_all; [exact Hnd|].
  intros st Hst. apply (Hl (t, c) sts); [left; reflexivity | exact Hst].
Qed.
End Step.

Lemma firstn_In {A} (n : nat) (l : list A) (x : A) : In x (firstn n l) -> In x l.
Proof.
  intros Hin. rewrite <- (firstn_skipn n l). apply in_or_app. left. exact Hin.
Qed.

Lemma slice_to_In {A} (l : list A) (k : Z) (x : A) : In x (slice_to l k) -> In x l.
Proof. unfold slice_to. destruct (0 <=? k); apply firstn_In. Qed.

Lemma prune_In self sts st :
  In st (_prune_dominated_states self sts) -> In st sts.
Proof.
  unfold _prune_dominated_states.
  destruct (Z.of_nat (List.length sts) <=? max_states_per_cell self); [auto|].
  intros Hin. apply slice_to_In in Hin.
  eapply Permutation_in in Hin;
    [|apply Permutation_map, sort_desc_perm].
  rewrite map_map in Hin. simpl in Hin. rewrite map_id in Hin. exact Hin.
Qed.

(** One pass of the outer loop carries [P] to [P'] when [P'] is weaker
    than [P] and every admitted transition establishes it. *)
Lemma process_skill_all (P P' : Z * Z -> state -> Prop) self mt mc dp skill_id dp' :
  process_skill self mt mc dp skill_id = Ok dp' ->
  (forall k st, P k st -> P' k st) ->
  (forall skill t c st,
     getitem (skills_db self) skill_id = Ok skill ->
     P (t, c) st ->
     forallb (fun p => mem p (skills st)) (Pre_Reqs skill) = true ->
     mem skill_id (skills st) = false ->
     t + Tempo skill <= mt ->
     c + Complexidade skill <= mc ->
     P' (t + Tempo skill, c + Complexidade skill)
        (mkState (valor st + Valor skill) (skills st ++ [skill_id])
                 (path st ++ [skill_id]))) ->
  all_states P dp -> all_states P' dp'.
Proof.
  unfold process_skill. intros Hp Hweak Hstep Hdp.
  apply bind_ok_inv in Hp as (skill & Hget & Hp). injection Hp as <-.
  intros k sts st Hin Hst.
  apply in_map_iff in Hin as ([k0 sts0] & Heq & Hin). simpl in Heq.
  inversion Heq; subst. apply prune_In in Hst.
  revert Hin Hst. generalize k sts0 st. fold (all_states P'
    (fold_left
       (fun nd e =>
          fold_left (transition skill_id skill mt mc (fst (fst e)) (snd (fst e)))
            (snd e) nd)
       dp (fold_left (fun nd e => dd_extend nd (fst e) (snd e)) dp []))).
  apply (extend_all P P' skill_id skill mt mc); [eauto| |exact Hdp].
  apply copy_all; [intros ? ? ? [] |].
  intros k' sts' st' Hin' Hst'. eapply Hweak, Hdp; eauto.
Qed.

(** Iterating over a list of skills with a property indexed by the
    skills processed so far. *)
Lemma process_skills_all (P : list string -> Z * Z -> state -> Prop)
    self mt mc todo : forall done dp dp',
  foldM (process_skill self mt mc) todo dp = Ok dp' ->
  (forall skill_id, In skill_id todo ->
     forall d k st, P d k st -> P (d ++ [skill_id]) k st) ->
  (forall skill_id, In skill_id todo ->
     forall d skill t c st,
     getitem (skills_db self) skill_id = Ok skill ->
     P d (t, c) st ->
     forallb (fun p => mem p (skills st)) (Pre_Reqs skill) = true ->
     mem skill_id (skills st) = false ->
     t + Tempo skill <= mt ->
     c + Complexidade skill <= mc ->
     P (d ++ [skill_id]) (t + Tempo skill, c + Complexidade skill)
        (mkState (valor st + Valor skill) (skills st ++ [skill_id])
                 (path st ++ [skill_id]))) ->
  all_states (P done) dp -> all_states (P (done ++ todo)) dp'.
Proof.
  induction todo as [|x todo IH]; intros done dp dp' Hf Hweak Hstep Hdp.
  - simpl in Hf. injection Hf as <-. rewrite app_nil_r. exact Hdp.
  - simpl in Hf. apply bind_ok_inv in Hf as (dp1 & H1 & Hf).
    replace (done ++ x :: todo) with ((done ++ [x]) ++ todo)
      by (rewrite <- app_assoc; reflexivity).
    apply (IH (done ++ [x]) dp1 dp' Hf).
    + intros y Hy. apply Hweak. right. exact Hy.
    + intros y Hy. apply Hstep. right. exact Hy.
    + apply (process_skill_all (P done) (P (done ++ [x])) self mt mc dp x dp1 H1).
      * apply Hweak. left. reflexivity.
      * intros skill t c st. apply Hstep. left. reflexivity.
      * exact Hdp.
Qed.

(** The final scan returns a state of the table that holds the target. *)
Lemma pick_best_from target sts : forall best st,
  snd (fold_left (pick_best target) sts best) = Some st ->
  snd best = Some st \/ (In st sts /\ mem target (skills st) = true).
Proof.
  induction sts as [|s sts IH]; intros best st Hf; simpl in Hf; [auto|].
  apply IH in Hf as [Hf | [Hin Hm]]; [|right; split; [right|]; assumption].
  unfold pick_best in Hf.
  destruct (mem target (skills s)) eqn:Em; simpl in Hf; [|auto].
  destruct (fst best <? valor s); simpl in Hf; [|auto].
  injection Hf as <-. right. split; [left; reflexivity | exact Em].
Qed.

Lemma best_state_from target (dp : dp_table) st :
  best_state target dp = Some st ->
  exists k sts, In (k, sts) dp /\ In st sts /\ mem target (skills st) = true.
Proof.
  unfold best_state.
  assert (G : forall best,
    snd (fold_left (fun best e => fold_left (pick_best target) (snd e) best)
           dp best) = Some st ->
    snd best = Some st \/
    exists k sts, In (k, sts) dp /\ In st sts /\ mem target (skills st) = true).
  { induction dp as [|[k sts] dp IH]; intros best Hf; simpl in Hf; [auto|].
    apply IH in Hf as [Hf | (k' & sts' & Hin & Hst & Hm)].
    - apply pick_best_from in Hf as [Hf | [Hin Hm]]; [auto|].
      right. exists k, sts. simpl. auto.
    - right. exists k', sts'. simpl. auto. }
  intros Hf. apply G in Hf as [Hf | Hf]; [discriminate | exact Hf].
Qed.

Lemma mem_In (x : string) (l : list string) : mem x l = true <-> In x l.
Proof.
  unfold mem. rewrite existsb_exists. split.
  - intros (y & Hy & E). apply String.eqb_eq in E. subst. exact Hy.
  - intros Hin. exists x. split; [exact Hin | apply String.eqb_refl].
Qed.

End Challenge1Tables.

(** A path is a topological linearization when every prerequisite of
    each of its skills occurs at an earlier position. *)
Definition topological_linearization (db : SkillsDB) (path : list string) : Prop :=
  forall pre s suf entry,
    path = pre ++ s :: suf ->
    getitem db s = Ok entry ->
    forall p, In p (Pre_Reqs entry) -> In p pre.

Lemma snoc_split {A} (pre suf l : list A) (s x : A) :
  pre ++ s :: suf = l ++ [x] ->
  (suf = [] /\ s = x /\ pre = l) \/
  (exists suf', suf = suf' ++ [x] /\ l = pre ++ s :: suf').
Proof.
  induction suf as [|y suf' _] using rev_ind; intros H.
  - left. apply app_inj_tail in H as [-> ->]. auto.
  - right. exists suf'.
    change (pre ++ s :: suf' ++ [y]) with (pre ++ (s :: suf') ++ [y]) in H.
    rewrite app_assoc in H. apply app_inj_tail in H as [<- ->]. auto.
Qed.

Lemma linearization_snoc db path skill_id skill :
  topological_linearization db path ->
  getitem db skill_id = Ok skill ->
  forallb (fun p => mem p path) (Pre_Reqs skill) = true ->
  topological_linearization db (path ++ [skill_id]).
Proof.
  intros Hlin Hget Hpre pre s suf entry Heq Hs p Hp.
  symmetry in Heq. apply snoc_split in Heq as [(-> & -> & ->) | (suf' & -> & ->)].
  - rewrite Hget in Hs. injection Hs as <-.
    rewrite forallb_forall in Hpre. apply mem_In, Hpre, Hp.
  - eapply Hlin; eauto.
Qed.

(** Every state of every table built by [solve_deterministic] carries a
    linearization, and its [skills] are the skills of its [path]. *)
Definition state_linear (db : SkillsDB) (st : Challenge1.state) : Prop :=
  Challenge1.skills st = Challenge1.path st /\
  topological_linearization db (Challenge1.path st).

Lemma tables_linear self mt mc topo dp :
  foldM (Challenge1.process_skill self mt mc) topo Challenge1.dp_initial = Ok dp ->
  all_states (fun _ st => state_linear (Challenge1.skills_db self) st) dp.
Proof.
  intros Hf.
  apply (process_skills_all
           (fun _ _ st => state_linear (Challenge1.skills_db self) st)
           self mt mc topo [] _ _ Hf).
  - auto.
  - intros skill_id _ _ skill t c st Hget [Hsk Hlin] Hpre _ _ _.
    split; simpl; [congruence|].
    eapply linearization_snoc; eauto. rewrite <- Hsk. exact Hpre.
  - intros k sts st [Heq | []] Hst. inversion Heq; subst.
    destruct Hst as [<- | []]. split; [reflexivity|].
    intros pre s suf entry Heq'. destruct pre; discriminate.
Qed.

(** The shape of a successful run: the path and value come from a state
    of the final table that holds the target. *)
Lemma solve_deterministic_found self mt mc p tv tt tc :
  Challenge1.solve_deterministic self mt mc = Ok (Challenge1.Found p tv tt tc) ->
  exists topo dp k sts st,
    Challenge1._topological_sort self = Ok topo /\
    foldM (Challenge1.process_skill self mt mc) topo Challenge1.dp_initial = Ok dp /\
    In (k, sts) dp /\ In st sts /\
    mem (Challenge1.target self) (Challenge1.skills st) = true /\
    p = Challenge1.path st /\ tv = Challenge1.valor st /\
    Challenge1.sum_field (Challenge1.skills_db self) Tempo p = Ok tt /\
    Challenge1.sum_field (Challenge1.skills_db self) Complexidade p = Ok tc.
Proof.
  unfold Challenge1.solve_deterministic. intros Hs.
  apply bind_ok_inv in Hs as (topo & Htopo & Hs).
  apply bind_ok_inv in Hs as (dp & Hdp & Hs).
  destruct (Challenge1.best_state (Challenge1.target self) dp) as [st|] eqn:Eb;
    [|discriminate].
  apply bind_ok_inv in Hs as (tt' & Htt & Hs).
  apply bind_ok_inv in Hs as (tc' & Htc & Hs).
  injection Hs as <- <- <- <-.
  apply best_state_from in Eb as (k & sts & Hin & Hst & Hm).
  exists topo, dp, k, sts, st. repeat split; auto.
Qed.

(** C2.  The path of every successful result of [solve_deterministic]
    is a topological linearization: each prerequisite of each skill of
    the path occurs earlier in the path. *)
Theorem returned_path_is_linearization :
  forall (self : Challenge1.solver) (max_time max_complexity : Z)
         (path : list string) (total_value total_time total_complexity : Z),
    Challenge1.solve_deterministic self max_time max_complexity
      = Ok (Challenge1.Found path total_value total_time total_complexity) ->
    topological_linearization (Challenge1.skills_db self) path.
Proof.
  intros self mt mc p tv tt tc Hs.
  apply solve_deterministic_found in Hs
    as (topo & dp & k & sts & st & _ & Hdp & Hin & Hst & _ & -> & _).
  apply tables_linear in Hdp. apply (Hdp k sts st Hin Hst).
Qed.

Definition identity_order (l : list string) : list string := l.

Definition repository_solver : Challenge1.solver :=
  Challenge1.mkSolver SKILLS_DATABASE TARGET_SKILL 50
    ["S6"; "S4"; "S1"; "H2"; "H1"; "H3"] 440 31.

Lemma returned_path_is_linearization_witness :
  Challenge1.solve_deterministic repository_solver 490 37
    = Ok (Challenge1.Found ["H2"; "H1"; "H3"; "S1"; "S4"; "S6"] 125 440 31) /\
  topological_linearization SKILLS_DATABASE
    ["H2"; "H1"; "H3"; "S1"; "S4"; "S6"].
Proof.
  split; [vm_compute; reflexivity|].
  apply (returned_path_is_linearization repository_solver 490 37
           ["H2"; "H1"; "H3"; "S1"; "S4"; "S6"] 125 440 31).
  vm_compute; reflexivity.
Defined.

(** ** The prerequisite closure and the minimum path *)

Definition sum_complexidade (db : SkillsDB) (l : list string) : Z :=
  sumZ (map (fun s => Complexidade (skill_of db s)) l).

Lemma sum_complexidade_app db l1 l2 :
  sum_complexidade db (l1 ++ l2) = sum_complexidade db l1 + sum_complexidade db l2.
Proof. unfold sum_complexidade. rewrite map_app, sumZ_app. reflexivity. Qed.

Lemma sum_complexidade_single db s :
  sum_complexidade db [s] = Complexidade (skill_of db s).
Proof.
  unfold sum_complexidade; simpl. rewrite sumZ_cons. unfold sumZ; simpl. lia.
Qed.

Lemma sum_complexidade_perm db l1 l2 :
  Permutation l1 l2 -> sum_complexidade db l1 = sum_complexidade db l2.
Proof. intros Hp. apply sumZ_perm, Permutation_map, Hp. Qed.

(** A set of skills closed under prerequisites. *)
Definition prereq_closed (db : SkillsDB) (C : list string) : Prop :=
  forall s entry, In s C -> getitem db s = Ok entry ->
                  forall p, In p (Pre_Reqs entry) -> In p C.

Lemma linearization_closed db path :
  topological_linearization db path -> prereq_closed db path.
Proof.
  intros Hlin s entry Hs Hget p Hp.
  apply in_split in Hs as (pre & suf & ->).
  apply in_or_app. left. eapply Hlin; eauto.
Qed.

Lemma getitem_skill_of db s entry : getitem db s = Ok entry -> skill_of db s = entry.
Proof.
  unfold getitem, skill_of. destruct (dict_get db s); congruence.
Qed.

(** Everything [_get_required_skills] collects lies in every closed set
    that holds the target. *)
Lemma required_loop_closed db C : prereq_closed db C ->
  forall fuel required to_process R,
    Challenge1.required_loop fuel db required to_process = Ok R ->
    incl required C -> incl to_process C -> incl R C.
Proof.
  intros HC. induction fuel as [|fuel IH]; intros required to_process R Hr Hreq Hto.
  - destruct to_process; simpl in Hr; [|discriminate].
    injection Hr as <-. exact Hreq.
  - destruct to_process as [|skill rest]; simpl in Hr.
    + injection Hr as <-. exact Hreq.
    + assert (Hskill : In skill C) by (apply Hto; left; reflexivity).
      assert (Hrest : incl rest C) by (intros x Hx; apply Hto; right; exact Hx).
      destruct (mem skill required).
      * eapply IH; eauto.
      * apply bind_ok_inv in Hr as (entry & Hget & Hr).
        eapply IH; [exact Hr | |].
        -- apply incl_app; [exact Hreq|]. intros x [<- | []]. exact Hskill.
        -- apply incl_app; [|exact Hrest].
           intros x Hx. apply in_rev in Hx. eapply HC; eauto.
Qed.

(** The topological order only lists required skills. *)
Lemma release_incl db current X l : forall d q st,
  foldM (Challenge1.release db current) l (d, q) = Ok st ->
  incl q X -> incl l X -> incl (snd st) X.
Proof.
  induction l as [|skill l IH]; intros d q st Hf Hq Hl; simpl in Hf.
  - injection Hf as <-. exact Hq.
  - apply bind_ok_inv in Hf as ([d1 q1] & H1 & Hf).
    eapply IH; [exact Hf | | intros x Hx; apply Hl; right; exact Hx].
    unfold Challenge1.release in H1. simpl in H1.
    apply bind_ok_inv in H1 as (entry & _ & H1).
    destruct (mem current (Pre_Reqs entry)).
    + apply bind_ok_inv in H1 as (n & _ & H1).
      destruct (n - 1 =? 0); injection H1 as <- <-; [|exact Hq].
      apply incl_app; [exact Hq|]. intros x [<- | []]. apply Hl. left. reflexivity.
    + injection H1 as <- <-. exact Hq.
Qed.

Lemma kahn_loop_incl db required : forall fuel d queue order topo,
  Challenge1.kahn_loop fuel db required d queue order = Ok topo ->
  incl queue required -> incl order required -> incl topo required.
Proof.
  induction fuel as [|fuel IH]; intros d queue order topo Hk Hq Ho.
  - destruct queue; simpl in Hk; [|discriminate]. injection Hk as <-. exact Ho.
  - destruct queue as [|current rest]; simpl in Hk.
    + injection Hk as <-. exact Ho.
    + apply bind_ok_inv in Hk as (st & Hst & Hk).
      eapply IH; [exact Hk | |].
      * eapply release_incl; [exact Hst | | apply incl_refl].
        intros x Hx. apply Hq. right. exact Hx.
      * apply incl_app; [exact Ho|]. intros x [<- | []]. apply Hq. left. reflexivity.
Qed.

Lemma zero_in_degree_incl d required : forall queue,
  Challenge1.zero_in_degree d required = Ok queue -> incl queue required.
Proof.
  induction required as [|s rest IH]; intros queue Hz; simpl in Hz.
  - injection Hz as <-. apply incl_refl.
  - apply bind_ok_inv in Hz as (n & _ & Hz).
    apply bind_ok_inv in Hz as (tail & Ht & Hz). injection Hz as <-.
    specialize (IH _ Ht).
    destruct (n =? 0).
    + intros x [<- | Hx]; [left; reflexivity | right; apply IH, Hx].
    + intros x Hx. right. apply IH, Hx.
Qed.

Lemma topological_sort_incl db required topo :
  Challenge1.topological_sort_of db required = Ok topo -> incl topo required.
Proof.
  unfold Challenge1.topological_sort_of. intros Ht.
  apply bind_ok_inv in Ht as (d & _ & Ht).
  apply bind_ok_inv in Ht as (queue & Hq & Ht).
  eapply kahn_loop_incl; [exact Ht | |].
  - eapply zero_in_degree_incl; eauto.
  - intros x [].
Qed.

(** The accumulation of [_calculate_minimum_path]: each distinct skill
    of the order is counted once. *)
Lemma minimum_steps db topo : forall acq tt tc acq' tt' tc',
  foldM (Challenge1.minimum_step db) topo (acq, tt, tc) = Ok (acq', tt', tc') ->
  NoDup acq -> tt = sum_tempo db acq -> tc = sum_complexidade db acq ->
  Forall (present db) acq ->
  NoDup acq' /\ tt' = sum_tempo db acq' /\ tc' = sum_complexidade db acq' /\
  Forall (present db) acq' /\
  (forall x, In x acq' <-> In x acq \/ In x topo).
Proof.
  induction topo as [|s topo IH]; intros acq tt tc acq' tt' tc' Hf Hnd Htt Htc Hp;
    simpl in Hf.
  - injection Hf as <- <- <-. repeat split; auto. intros [H | []]; exact H.
  - apply bind_ok_inv in Hf as ([[acq1 tt1] tc1] & H1 & Hf).
    unfold Challenge1.minimum_step in H1.
    destruct (mem s acq) eqn:Em.
    + injection H1 as <- <- <-.
      destruct (IH _ _ _ _ _ _ Hf Hnd Htt Htc Hp) as (A & B & C & D & E).
      repeat split; auto.
      * intros Hx. apply E in Hx as [Hx | Hx]; [left | right; right]; exact Hx.
      * intros [Hx | [<- | Hx]]; apply E; auto. left. apply mem_In, Em.
    + apply bind_ok_inv in H1 as (skill & Hget & H1). injection H1 as <- <- <-.
      assert (Hnew : ~ In s acq).
      { intros Hin. apply mem_In in Hin. congruence. }
      pose proof (getitem_skill_of _ _ _ Hget) as Hsk.
      destruct (IH _ _ _ _ _ _ Hf) as (A & B & C & D & E).
      * apply NoDup_app; [exact Hnd | repeat constructor; intros [] | ].
        intros x Hx [<- | []]. contradiction.
      * rewrite sum_tempo_app, sum_tempo_single, Hsk. lia.
      * rewrite sum_complexidade_app, sum_complexidade_single, Hsk. lia.
      * apply Forall_app. split; [exact Hp|]. constructor; [|constructor].
        eapply getitem_ok_present; eauto.
      * repeat split; auto.
        -- intros Hx. apply E in Hx as [Hx | Hx]; [|right; right; exact Hx].
           apply in_app_or in Hx as [Hx | [<- | []]]; [left; exact Hx|].
           right. left. reflexivity.
        -- intros [Hx | [<- | Hx]]; apply E.
           ++ left. apply in_or_app. left. exact Hx.
           ++ left. apply in_or_app. right. left. reflexivity.
           ++ right. exact Hx.
Qed.

(** What [__init__] stores. *)
Lemma init_inv set_order db target cap self :
  Challenge1.init set_order db target cap = Ok self ->
  exists R topo acq,
    Challenge1.required_loop (Challenge1.required_fuel db) db [] [target] = Ok R /\
    self = Challenge1.mkSolver db target cap (set_order R)
             (sum_tempo db acq) (sum_complexidade db acq) /\
    Challenge1.topological_sort_of db (set_order R) = Ok topo /\
    incl topo (set_order R) /\
    NoDup acq /\ (forall x, In x acq <-> In x topo) /\
    Forall (present db) topo.
Proof.
  unfold Challenge1.init, Challenge1._get_required_skills. intros Hi.
  apply bind_ok_inv in Hi as (req & Hreq & Hi).
  apply bind_ok_inv in Hreq as (R & HR & Hreq). injection Hreq as <-.
  apply bind_ok_inv in Hi as ([mt mc] & Hmin & Hi). injection Hi as <-.
  unfold Challenge1.minimum_path_of in Hmin.
  apply bind_ok_inv in Hmin as (topo & Htopo & Hmin).
  apply bind_ok_inv in Hmin as ([[acq tt] tc] & Hst & Hmin).
  simpl in Hmin. injection Hmin as <- <-.
  destruct (minimum_steps db topo [] 0 0 acq tt tc Hst) as (A & B & C & D & E);
    try reflexivity; try constructor.
  exists R, topo, acq. simpl. subst tt tc. repeat split; auto.
  - eapply topological_sort_incl; eauto.
  - intros Hx. apply E in Hx as [[] | Hx]. exact Hx.
  - intros Hx. apply E. right. exact Hx.
  - rewrite Forall_forall in *. intros x Hx. apply D, E. right. exact Hx.
Qed.

(** ** Cells account for their states *)

(** The cell [(t, c)] of a state is the time and complexity of its
    path; the path has no repetition, stays within the skills processed
    so far, and, unless it is empty, passed the budget test. *)
Definition state_accounted (db : SkillsDB) (max_time max_complexity : Z)
    (done : list string) (k : Z * Z) (st : Challenge1.state) : Prop :=
  Challenge1.skills st = Challenge1.path st /\
  NoDup (Challenge1.path st) /\
  incl (Challenge1.path st) done /\
  fst k = sum_tempo db (Challenge1.path st) /\
  snd k = sum_complexidade db (Challenge1.path st) /\
  (Challenge1.path st = [] \/ (fst k <= max_time /\ snd k <= max_complexity)).

Lemma tables_accounted self mt mc topo dp :
  foldM (Challenge1.process_skill self mt mc) topo Challenge1.dp_initial = Ok dp ->
  all_states (state_accounted (Challenge1.skills_db self) mt mc topo) dp.
Proof.
  intros Hf.
  apply (process_skills_all (state_accounted (Challenge1.skills_db self) mt mc)
           self mt mc topo [] _ _ Hf).
  - intros skill_id _ d k st (A & B & C & D & E & F).
    repeat split; auto. apply incl_appl, C.
  - intros skill_id _ d skill t c st Hget (A & B & C & D & E & F) _ Hmem Ht Hc.
    simpl in D, E. pose proof (getitem_skill_of _ _ _ Hget) as Hsk.
    repeat split; simpl.
    + congruence.
    + apply NoDup_app; [exact B | repeat constructor; intros [] |].
      intros x Hx [<- | []]. rewrite A in Hmem.
      apply mem_In in Hx. congruence.
    + apply incl_app; [apply incl_appl, C | apply incl_appr, incl_refl].
    + rewrite sum_tempo_app, sum_tempo_single, Hsk. lia.
    + rewrite sum_complexidade_app, sum_complexidade_single, Hsk. lia.
    + right. split; assumption.
  - intros k sts st [Heq | []] Hst. inversion Heq; subst.
    destruct Hst as [<- | []]. repeat split; simpl; auto.
    + constructor.
    + apply incl_refl.
Qed.

Lemma sum_field_present1 db (field : Skill -> Z) l :
  Forall (present db) l ->
  Challenge1.sum_field db field l
    = Ok (sumZ (map (fun s => field (skill_of db s)) l)).
Proof.
  intros Hp. unfold Challenge1.sum_field.
  rewrite (mapM_total _ (fun s => field (skill_of db s))); [reflexivity|].
  intros s Hs. rewrite Forall_forall in Hp.
  rewrite getitem_present by auto. reflexivity.
Qed.

Lemma process_skills_total self mt mc topo : forall dp,
  Forall (present (Challenge1.skills_db self)) topo ->
  exists dp', foldM (Challenge1.process_skill self mt mc) topo dp = Ok dp'.
Proof.
  induction topo as [|x topo IH]; intros dp Hp; simpl; [eauto|].
  inversion Hp as [|? ? Hx Hrest]; subst.
  unfold Challenge1.process_skill at 1.
  rewrite (getitem_present _ _ Hx). simpl. apply IH, Hrest.
Qed.

(** A constructed solver always gets an answer from
    [solve_deterministic]: a path, or the failure message. *)
Lemma solve_deterministic_total set_order db target cap self mt mc :
  Challenge1.init set_order db target cap = Ok self ->
  (exists p tv tt tc,
     Challenge1.solve_deterministic self mt mc = Ok (Challenge1.Found p tv tt tc)) \/
  Challenge1.solve_deterministic self mt mc
    = Ok (Challenge1.NotFound (Challenge1.failure_message target mt mc)).
Proof.
  intros Hi. apply init_inv in Hi as (R & topo & acq & HR & -> & Htopo & Hincl & Hnd & Hset & Hp).
  unfold Challenge1.solve_deterministic, Challenge1._topological_sort. simpl.
  rewrite Htopo. simpl.
  destruct (process_skills_total
              (Challenge1.mkSolver db target cap (set_order R)
                 (sum_tempo db acq) (sum_complexidade db acq)) mt mc topo
              Challenge1.dp_initial Hp) as (dp & Hdp).
  rewrite Hdp. simpl.
  destruct (Challenge1.best_state target dp) as [st|] eqn:Eb; [|right; reflexivity].
  left. apply best_state_from in Eb as (k & sts & Hin & Hst & _).
  destruct (tables_accounted _ _ _ _ _ Hdp k sts st Hin Hst) as (_ & _ & Hsub & _).
  simpl in Hsub.
  assert (Hpp : Forall (present db) (Challenge1.path st)).
  { rewrite Forall_forall in *. intros x Hx. apply Hp, Hsub, Hx. }
  rewrite !(sum_field_present1 db _ _ Hpp). simpl. eauto.
Qed.

(** A successful answer costs exactly the minimum path, and that fits
    the budgets. *)
Lemma found_within_minimums set_order db target cap self mt mc p tv tt tc :
  (forall l, Permutation (set_order l) l) ->
  Challenge1.init set_order db target cap = Ok self ->
  Challenge1.solve_deterministic self mt mc = Ok (Challenge1.Found p tv tt tc) ->
  Challenge1.min_feasible_time self <= mt /\
  Challenge1.min_feasible_complexity self <= mc /\
  tt = Challenge1.min_feasible_time self /\
  tc = Challenge1.min_feasible_complexity self.
Proof.
  intros Hperm Hi Hs.
  apply init_inv in Hi as (R & topo & acq & HR & -> & Htopo & Hincl & Hnd & Hset & Hp).
  apply solve_deterministic_found in Hs
    as (topo' & dp & k & sts & st & Htopo' & Hdp & Hin & Hst & Hm & -> & _ & Htt & Htc).
  unfold Challenge1._topological_sort in Htopo'.
  cbn [Challenge1.skills_db Challenge1.target Challenge1.required_skills
       Challenge1.min_feasible_time Challenge1.min_feasible_complexity] in *.
  rewrite Htopo in Htopo'. injection Htopo' as <-.
  destruct (tables_accounted _ _ _ _ _ Hdp k sts st Hin Hst)
    as (Hsk & Hnd' & Hsub & Hk1 & Hk2 & Hbud).
  destruct (tables_linear _ _ _ _ _ Hdp k sts st Hin Hst) as (_ & Hlin).
  cbn [Challenge1.skills_db] in *. apply linearization_closed in Hlin.
  rewrite Hsk in Hm. apply mem_In in Hm.
  (* the path holds the whole closure, hence the whole order *)
  assert (HR' : incl R (Challenge1.path st)).
  { eapply required_loop_closed; [exact Hlin | exact HR | intros x [] |].
    intros x [<- | []]. exact Hm. }
  assert (Hall : incl topo (Challenge1.path st)).
  { intros x Hx. apply HR'. eapply Permutation_in; [apply Hperm|]. apply Hincl, Hx. }
  assert (HP : Permutation acq (Challenge1.path st)).
  { apply NoDup_Permutation; auto. intros x. rewrite Hset. split; auto. }
  assert (Hpp : Forall (present db) (Challenge1.path st)).
  { rewrite Forall_forall in *. intros x Hx. apply Hp, Hsub, Hx. }
  rewrite (sum_field_present1 db _ _ Hpp) in Htt.
  rewrite (sum_field_present1 db _ _ Hpp) in Htc.
  injection Htt as <-. injection Htc as <-.
  fold (sum_tempo db (Challenge1.path st)).
  fold (sum_complexidade db (Challenge1.path st)).
  rewrite (sum_tempo_perm db _ _ HP), (sum_complexidade_perm db _ _ HP).
  destruct Hbud as [Hnil | [H1 H2]].
  - rewrite Hnil in Hm. destruct Hm.
  - repeat split; lia.
Qed.

(** C1.  When [min_feasible_time > max_time] or
    [min_feasible_complexity > max_complexity], [solve_deterministic]
    does not return a result with [success = True]: it returns, and
    what it returns has [success = False].  The minimums are those
    computed by [_calculate_minimum_path] in [__init__]; [set_order] is
    any enumeration order of the set of required skills. *)
Theorem infeasible_minimums_never_succeed :
  forall (set_order : list string -> list string) (db : SkillsDB)
         (target : string) (cap : Z) (self : Challenge1.solver)
         (max_time max_complexity : Z),
    (forall l, Permutation (set_order l) l) ->
    Challenge1.init set_order db target cap = Ok self ->
    Challenge1._calculate_minimum_path self
      = Ok (Challenge1.min_feasible_time self,
            Challenge1.min_feasible_complexity self) /\
    (Challenge1.min_feasible_time self > max_time \/
     Challenge1.min_feasible_complexity self > max_complexity ->
     exists r,
       Challenge1.solve_deterministic self max_time max_complexity = Ok r /\
       Challenge1.success r = false).
Proof.
  intros set_order db target cap self mt mc Hperm Hi. split.
  - unfold Challenge1.init in Hi.
    apply bind_ok_inv in Hi as (req & _ & Hi).
    apply bind_ok_inv in Hi as (mins & Hmin & Hi). injection Hi as <-.
    unfold Challenge1._calculate_minimum_path. simpl.
    rewrite Hmin. destruct mins; reflexivity.
  - intros Hinf.
    destruct (solve_deterministic_total _ _ _ _ _ mt mc Hi)
      as [(p & tv & tt & tc & Hs) | Hs].
    + pose proof (found_within_minimums _ _ _ _ _ _ _ _ _ _ _ Hperm Hi Hs). lia.
    + eexists. split; [exact Hs | reflexivity].
Qed.

Lemma infeasible_minimums_never_succeed_witness :
  Challenge1.init identity_order SKILLS_DATABASE TARGET_SKILL 50
    = Ok repository_solver /\
  Challenge1.min_feasible_time repository_solver > MAX_TIME /\
  exists r,
    Challenge1.solve_deterministic repository_solver MAX_TIME MAX_COMPLEXITY
      = Ok r /\
    Challenge1.success r = false.
Proof.
  split; [vm_compute; reflexivity|].
  split; [vm_compute; reflexivity|].
  apply (infeasible_minimums_never_succeed identity_order SKILLS_DATABASE
           TARGET_SKILL 50 repository_solver MAX_TIME MAX_COMPLEXITY).
  - intros l. apply Permutation_refl.
  - vm_compute; reflexivity.
  - left. vm_compute; reflexivity.
Defined.

(** ** What the failure result carries *)

(** C8 reads the failure result as a report of the minimum time and
    complexity: some way of reading a failed result yields the minimums
    of the solver that produced it. *)
Definition failure_reports_minimums : Prop :=
  exists read : Challenge1.path_result -> Z * Z,
    forall db target cap self max_time max_complexity r,
      Challenge1.init identity_order db target cap = Ok self ->
      Challenge1.solve_deterministic self max_time max_complexity = Ok r ->
      Challenge1.success r = false ->
      read r = (Challenge1.min_feasible_time self,
                Challenge1.min_feasible_complexity self).

Definition five_hour_db : SkillsDB := [("X", mkSkill 1 5 1 [])].
Definition seven_hour_db : SkillsDB := [("X", mkSkill 1 7 1 [])].

(** C8 as stated fails: a target that needs 5 hours and one that needs 7
    give, under the budgets [T <= 3, C <= 3], the very same failure
    result, so the result cannot be carrying the minimum. *)
Lemma failure_result_omits_minimums : ~ failure_reports_minimums.
Proof.
  intros (read & Hread).
  pose proof (Hread five_hour_db "X" 50
                (Challenge1.mkSolver five_hour_db "X" 50 ["X"] 5 1) 3 3
                (Challenge1.NotFound "Impossível atingir X com T≤3, C≤3")) as H5.
  pose proof (Hread seven_hour_db "X" 50
                (Challenge1.mkSolver seven_hour_db "X" 50 ["X"] 7 1) 3 3
                (Challenge1.NotFound "Impossível atingir X com T≤3, C≤3")) as H7.
  simpl in H5, H7.
  rewrite H5 in H7 by (vm_compute; reflexivity).
  specialize (H7 ltac:(vm_compute; reflexivity) ltac:(vm_compute; reflexivity)
                 eq_refl).
  discriminate.
Qed.

(** [solve_deterministic] always answers a constructed solver.
    Whenever the answer is a failure it is [success = False] with the
    message naming the target and the two budgets, and that is all it
    carries.  In particular this is the answer whenever a minimum
    exceeds its budget, and [check_feasibility] then names the minimum
    time and complexity in its message. *)
Lemma failure_carries_the_message_only :
  forall (set_order : list string -> list string) (db : SkillsDB)
         (target : string) (cap : Z) (self : Challenge1.solver)
         (max_time max_complexity : Z),
    (forall l, Permutation (set_order l) l) ->
    Challenge1.init set_order db target cap = Ok self ->
    exists r,
      Challenge1.solve_deterministic self max_time max_complexity = Ok r /\
      (Challenge1.success r = false ->
       r = Challenge1.NotFound
             (Challenge1.failure_message target max_time max_complexity)) /\
      (Challenge1.min_feasible_time self > max_time \/
       Challenge1.min_feasible_complexity self > max_complexity ->
       Challenge1.success r = false /\
       Challenge1.check_feasibility self max_time max_complexity
         = (false,
            String.concat ""
              ["Restrições muito rígidas! Mínimo necessário: T≥";
               str_of_Z (Challenge1.min_feasible_time self); ", C≥";
               str_of_Z (Challenge1.min_feasible_complexity self)])).
Proof.
  intros set_order db target cap self mt mc Hperm Hi.
  assert (Hcheck :
    Challenge1.min_feasible_time self > mt \/
    Challenge1.min_feasible_complexity self > mc ->
    Challenge1.check_feasibility self mt mc
      = (false,
         String.concat ""
           ["Restrições muito rígidas! Mínimo necessário: T≥";
            str_of_Z (Challenge1.min_feasible_time self); ", C≥";
            str_of_Z (Challenge1.min_feasible_complexity self)])).
  { intros Hinf. unfold Challenge1.check_feasibility.
    destruct (Challenge1.min_feasible_time self <=? mt) eqn:E1;
      destruct (Challenge1.min_feasible_complexity self <=? mc) eqn:E2;
      simpl; try reflexivity.
    apply Z.leb_le in E1, E2. lia. }
  destruct (solve_deterministic_total _ _ _ _ _ mt mc Hi)
    as [(p & tv & tt & tc & Hs) | Hs].
  - eexists. split; [exact Hs|]. split; [discriminate|].
    intros Hinf.
    pose proof (found_within_minimums _ _ _ _ _ _ _ _ _ _ _ Hperm Hi Hs). lia.
  - eexists. split; [exact Hs|]. split; [reflexivity|].
    intros Hinf. split; [reflexivity | auto].
Qed.

(** ** The Monte Carlo run *)

(** C6.  Two invocations of [solve_with_uncertainty] on the same solver,
    budgets and number of trials return the same result, whatever state
    the generator was in before each: the method re-seeds it with
    [GLOBAL_SEED].  In particular a second run started from the state
    the first one leaves returns the same result, and the samples of a
    run are the trials drawn from the freshly seeded generator along the
    returned path, so the sample sequences, and with them the mean,
    deviation, minimum and maximum, coincide. *)
Theorem monte_carlo_is_reproducible :
  forall (rng : Type) (np_random_seed : Z -> rng)
         (np_random_uniform : float -> float -> rng -> float * rng)
         (np_mean np_std : list float -> float)
         (np_min np_max : list float -> result float)
         (self : Challenge1.solver) (max_time max_complexity n_simulations : Z)
         (g1 g2 : rng),
    let run :=
      Challenge1.solve_with_uncertainty rng np_random_seed np_random_uniform
        np_mean np_std np_min np_max self max_time max_complexity n_simulations in
    fst (run g1) = fst (run g2) /\
    fst (run (snd (run g1))) = fst (run g1) /\
    forall u,
      fst (run g1) = Ok (Challenge1.Simulated u) ->
      fst (Challenge1.simulate_trials rng np_random_uniform
             (Challenge1.skills_db self) (Challenge1.mc_path u)
             (Z.to_nat n_simulations) [] (np_random_seed GLOBAL_SEED))
        = Ok (Challenge1.simulations u) /\
      Challenge1.expected_value u = np_mean (Challenge1.simulations u) /\
      Challenge1.std_value u = np_std (Challenge1.simulations u) /\
      np_min (Challenge1.simulations u) = Ok (Challenge1.min_value u) /\
      np_max (Challenge1.simulations u) = Ok (Challenge1.max_value u).
Proof.
  intros rng seed uniform mean std mn mx self mt mc n g1 g2 run.
  assert (Hindep : forall g g', fst (run g) = fst (run g')).
  { intros g g'. unfold run, Challenge1.solve_with_uncertainty.
    destruct (Challenge1.solve_deterministic self mt mc) as [[p tv tt tc | msg] | e];
      try reflexivity. }
  split; [apply Hindep|]. split; [apply Hindep|].
  intros u. unfold run, Challenge1.solve_with_uncertainty.
  destruct (Challenge1.solve_deterministic self mt mc) as [[p tv tt tc | msg] | e];
    try discriminate.
  destruct (Challenge1.simulate_trials rng uniform (Challenge1.skills_db self) p
              (Z.to_nat n) [] (seed GLOBAL_SEED)) as [[samples | e] g'] eqn:Es;
    try discriminate.
  simpl. destruct (mn samples) as [lo | e] eqn:Elo; try discriminate.
  simpl. destruct (mx samples) as [hi | e] eqn:Ehi; try discriminate.
  simpl. intros Hu. injection Hu as <-. simpl. rewrite Es. auto.
Qed.

(** ** The loop bounds of the model are never reached *)

(** A computation is clean when it does not stop on the iteration bound
    of a modelled [while] loop. *)
Definition clean {A} (r : result A) : Prop := r <> Raise FuelExhausted.

Lemma clean_ok {A} (a : A) : clean (Ok a).
Proof. discriminate. Qed.

Lemma clean_getitem {V} (d : dict string V) k : clean (getitem d k).
Proof. unfold clean, getitem. destruct (dict_get d k); discriminate. Qed.

Lemma clean_bind {A B} (m : result A) (k : A -> result B) :
  clean m -> (forall a, m = Ok a -> clean (k a)) -> clean (bind m k).
Proof.
  destruct m as [a | e]; simpl; intros Hm Hk; [apply Hk; reflexivity|].
  intros He. apply Hm. congruence.
Qed.

Lemma clean_foldM {A S} (f : S -> A -> result S) (l : list A) :
  (forall s x, clean (f s x)) -> forall s, clean (foldM f l s).
Proof.
  intros Hf. induction l as [|x l IH]; intros s; simpl; [apply clean_ok|].
  apply clean_bind; [apply Hf | intros s' _; apply IH].
Qed.

(** *** [_get_required_skills] *)

(** Prerequisite entries of the skills not yet expanded. *)
Definition pending (db : SkillsDB) (required : list string) : nat :=
  list_sum
    (map (fun e => if mem (fst e) required then O
                   else List.length (Pre_Reqs (snd e))) db).

Lemma mem_app_true x l l' : mem x l = true -> mem x (l ++ l') = true.
Proof. rewrite !mem_In, in_app_iff. auto. Qed.

Lemma pending_grow db required s :
  (pending db (required ++ [s]) <= pending db required)%nat.
Proof.
  unfold pending. induction db as [|[k e] db IH]; simpl; [lia|].
  destruct (mem k required) eqn:Em.
  - rewrite (mem_app_true _ _ _ Em). lia.
  - destruct (mem k (required ++ [s])); lia.
Qed.

Lemma pending_expand db required skill entry :
  dict_get db skill = Some entry ->
  mem skill required = false ->
  (pending db (required ++ [skill]) + List.length (Pre_Reqs entry)
   <= pending db required)%nat.
Proof.
  intros Hget Hm. unfold pending.
  induction db as [|[k e] db IH]; simpl in *; [discriminate|].
  destruct (String.eqb k skill) eqn:Ek.
  - apply String.eqb_eq in Ek. subst k. injection Hget as ->.
    rewrite Hm.
    assert (Hin : mem skill (required ++ [skill]) = true).
    { apply mem_In, in_or_app. right. left. reflexivity. }
    rewrite Hin. pose proof (pending_grow db required skill) as Hg.
    unfold pending in Hg. lia.
  - specialize (IH Hget).
    destruct (mem k required) eqn:Em.
    + rewrite (mem_app_true _ _ _ Em). lia.
    + destruct (mem k (required ++ [skill])); lia.
Qed.

Lemma required_loop_clean db : forall fuel required to_process,
  (List.length to_process + pending db required < fuel)%nat ->
  clean (Challenge1.required_loop fuel db required to_process).
Proof.
  induction fuel as [|fuel IH]; intros required to_process Hlt; [lia|].
  destruct to_process as [|skill rest]; simpl; [apply clean_ok|].
  simpl in Hlt. destruct (mem skill required) eqn:Em.
  - apply IH. lia.
  - apply clean_bind; [apply clean_getitem|]. intros entry Hget.
    apply IH. rewrite length_app, length_rev.
    unfold getitem in Hget.
    destruct (dict_get db skill) as [e|] eqn:Eg; [|discriminate].
    injection Hget as ->.
    pose proof (pending_expand db required skill entry Eg Em). lia.
Qed.

Lemma get_required_skills_clean set_order db target :
  clean (Challenge1._get_required_skills set_order db target).
Proof.
  unfold Challenge1._get_required_skills.
  apply clean_bind; [|intros; apply clean_ok].
  apply required_loop_clean. unfold Challenge1.required_fuel, pending. simpl.
  apply Nat.lt_succ_r, le_n_S.
  induction db as [|e db IH]; simpl; lia.
Qed.

(** *** [_topological_sort] *)

(** Counters still above zero. *)
Definition positives (d : dict string Z) : nat :=
  List.length (filter (fun e => 0 <? snd e) d).

Lemma positives_le_length d : (positives d <= List.length d)%nat.
Proof. unfold positives. apply filter_length_le. Qed.

Lemma positives_set d k v v' :
  dict_get d k = Some v ->
  (positives (dict_set d k v') + (if (0 <? v)%Z then 1 else 0)
   = positives d + (if (0 <? v')%Z then 1 else 0))%nat.
Proof.
  unfold positives. induction d as [|[k0 v0] d IH]; simpl; [discriminate|].
  destruct (String.eqb k0 k) eqn:Ek; simpl.
  - intros [= ->]. destruct (0 <? v); destruct (0 <? v'); simpl; lia.
  - intros Hget. specialize (IH Hget).
    destruct (0 <? v0); simpl; lia.
Qed.

Lemma release_measure db current d q skill d' q' :
  Challenge1.release db current (d, q) skill = Ok (d', q') ->
  (List.length q' + positives d' <= List.length q + positives d)%nat.
Proof.
  unfold Challenge1.release. simpl. intros Hr.
  apply bind_ok_inv in Hr as (entry & _ & Hr).
  destruct (mem current (Pre_Reqs entry)).
  - apply bind_ok_inv in Hr as (n & Hn & Hr).
    unfold getitem in Hn. destruct (dict_get d skill) as [n0|] eqn:Eg; [|discriminate].
    injection Hn as ->.
    pose proof (positives_set d skill n (n - 1) Eg) as Hp.
    destruct (n - 1 =? 0) eqn:E0; injection Hr as <- <-.
    + apply Z.eqb_eq in E0. rewrite length_app. simpl.
      replace (0 <? n) with true in Hp by (symmetry; apply Z.ltb_lt; lia).
      replace (0 <? n - 1) with false in Hp by (symmetry; apply Z.ltb_ge; lia).
      lia.
    + destruct (0 <? n) eqn:En; destruct (0 <? n - 1) eqn:En'; lia.
  - injection Hr as <- <-. lia.
Qed.

Lemma releases_measure db current l : forall d q st,
  foldM (Challenge1.release db current) l (d, q) = Ok st ->
  (List.length (snd st) + positives (fst st) <= List.length q + positives d)%nat.
Proof.
  induction l as [|skill l IH]; intros d q st Hf; simpl in Hf.
  - injection Hf as <-. simpl. lia.
  - apply bind_ok_inv in Hf as ([d1 q1] & H1 & Hf).
    apply release_measure in H1. apply IH in Hf. lia.
Qed.

Lemma release_clean db current st skill :
  clean (Challenge1.release db current st skill).
Proof.
  unfold Challenge1.release.
  apply clean_bind; [apply clean_getitem|]. intros entry _.
  destruct (mem current (Pre_Reqs entry)); [|apply clean_ok].
  apply clean_bind; [apply clean_getitem|]. intros n _.
  destruct (n - 1 =? 0); apply clean_ok.
Qed.

Lemma kahn_loop_clean db required : forall fuel d queue order,
  (List.length queue + positives d < fuel)%nat ->
  clean (Challenge1.kahn_loop fuel db required d queue order).
Proof.
  induction fuel as [|fuel IH]; intros d queue order Hlt; [lia|].
  destruct queue as [|current rest]; simpl; [apply clean_ok|].
  simpl in Hlt.
  apply clean_bind; [apply clean_foldM; intros; apply release_clean|].
  intros st Hst. apply IH. apply releases_measure in Hst. lia.
Qed.

Lemma zero_in_degree_clean d required :
  clean (Challenge1.zero_in_degree d required).
Proof.
  induction required as [|s rest IH]; simpl; [apply clean_ok|].
  apply clean_bind; [apply clean_getitem|]. intros n _.
  apply clean_bind; [exact IH|]. intros; apply clean_ok.
Qed.

Lemma topological_sort_clean db required :
  clean (Challenge1.topological_sort_of db required).
Proof.
  unfold Challenge1.topological_sort_of.
  apply clean_bind.
  { apply clean_foldM. intros d skill. unfold Challenge1.count_skill.
    apply clean_bind; [apply clean_getitem|]. intros entry _.
    apply clean_foldM. intros d' prereq. unfold Challenge1.count_prereq.
    destruct (dict_mem d' prereq); [|apply clean_ok].
    unfold Challenge1.in_degree_add.
    apply clean_bind; [apply clean_getitem | intros; apply clean_ok]. }
  intros d _. apply clean_bind; [apply zero_in_degree_clean|].
  intros queue _. apply kahn_loop_clean.
  pose proof (positives_le_length d). lia.
Qed.

(** Neither [__init__] nor [solve_deterministic] stops on a loop bound:
    whatever they do, Python's loops do too. *)
Lemma init_clean set_order db target cap :
  clean (Challenge1.init set_order db target cap).
Proof.
  unfold Challenge1.init.
  apply clean_bind; [apply get_required_skills_clean|]. intros required _.
  apply clean_bind; [|intros; apply clean_ok].
  unfold Challenge1.minimum_path_of.
  apply clean_bind; [apply topological_sort_clean|]. intros topo _.
  apply clean_bind; [|intros; apply clean_ok].
  apply clean_foldM. intros [[acq tt] tc] s. unfold Challenge1.minimum_step.
  destruct (mem s acq); [apply clean_ok|].
  apply clean_bind; [apply clean_getitem | intros; apply clean_ok].
Qed.

Lemma sum_field_clean db field l : clean (Challenge1.sum_field db field l).
Proof.
  unfold Challenge1.sum_field.
  apply clean_bind; [|intros; apply clean_ok].
  induction l as [|s l IH]; simpl; [apply clean_ok|].
  apply clean_bind.
  - apply clean_bind; [apply clean_getitem | intros; apply clean_ok].
  - intros y _. apply clean_bind; [exact IH | intros; apply clean_ok].
Qed.

Lemma solve_deterministic_clean self mt mc :
  clean (Challenge1.solve_deterministic self mt mc).
Proof.
  unfold Challenge1.solve_deterministic, Challenge1._topological_sort.
  apply clean_bind; [apply topological_sort_clean|]. intros topo _.
  apply clean_bind.
  { apply clean_foldM. intros dp s. unfold Challenge1.process_skill.
    apply clean_bind; [apply clean_getitem | intros; apply clean_ok]. }
  intros dp _.
  destruct (Challenge1.best_state (Challenge1.target self) dp); [|apply clean_ok].
  apply clean_bind; [apply sum_field_clean|]. intros tt _.
  apply clean_bind; [apply sum_field_clean | intros; apply clean_ok].
Qed.

(* ===================================================================== *)
(** * Facts about gs_graph_validation.py *)
(* ===================================================================== *)

(** The pairs [_check_orphan_prereqs] returns are exactly the dangling
    edges: a skill of the table and a prerequisite of it that is no
    skill identifier. *)
Lemma check_orphan_prereqs_spec (self : GraphValidation.validator) s p :
  In (s, p) (GraphValidation._check_orphan_prereqs self) <->
  exists entry,
    In (s, entry) (GraphValidation.skills_db self) /\
    In p (Pre_Reqs entry) /\
    ~ In p (GraphValidation.all_skill_ids self).
Proof.
  unfold GraphValidation._check_orphan_prereqs. rewrite in_flat_map. split.
  - intros ([s' entry] & Hin & Hp). apply in_flat_map in Hp as (q & Hq & Hp).
    simpl in *. destruct (mem q (GraphValidation.all_skill_ids self)) eqn:Em;
      [destruct Hp|].
    destruct Hp as [Heq | []]. inversion Heq; subst.
    exists entry. repeat split; auto.
    intros Hc. apply mem_In in Hc. congruence.
  - intros (entry & Hin & Hp & Hno). exists (s, entry). split; [exact Hin|].
    apply in_flat_map. exists p. split; [exact Hp|]. simpl.
    destruct (mem p (GraphValidation.all_skill_ids self)) eqn:Em.
    + apply mem_In in Em. contradiction.
    + left. reflexivity.
Qed.

(** With [verbose=True] a dangling prerequisite ends the validation at
    once: the verdict is [False], the report is marked invalid and
    lists the dangling edges, and no cycle or order is computed. *)
Lemma validate_graph_verbose_halts (self : GraphValidation.validator) :
  GraphValidation._check_orphan_prereqs self <> [] ->
  GraphValidation.validate_graph self true
    = Ok (false,
          GraphValidation.mkReport false []
            (GraphValidation._check_orphan_prereqs self) [] []).
Proof.
  intros Hne. unfold GraphValidation.validate_graph.
  destruct (GraphValidation._check_orphan_prereqs self); [congruence|].
  reflexivity.
Qed.

(** With [verbose=False] no path through [validate_graph] returns the
    verdict [False]: both early returns are guarded by [verbose]. *)
Lemma validate_graph_quiet_verdict (self : GraphValidation.validator) r :
  GraphValidation.validate_graph self false = Ok r -> fst r = true.
Proof.
  unfold GraphValidation.validate_graph. rewrite !andb_false_r.
  intros Hv. apply bind_ok_inv in Hv as ([has_cycle cycle_path] & _ & Hv).
  rewrite andb_false_r in Hv.
  apply bind_ok_inv in Hv as (topo & _ & Hv). simpl in Hv.
  injection Hv as <-. reflexivity.
Qed.

Definition dangling_db : SkillsDB := [("A", mkSkill 1 1 1 ["X"])].

(** C7, on the graph [{'A': {'Pre_Reqs': ['X']}}], where X is no skill.
    With [verbose=True] the validation reports the pair (A, X), marks
    the report invalid and returns before the cycle detection.  With
    [verbose=False] it goes on into [_detect_cycles], which looks up
    the colour of X and raises [KeyError]. *)
Theorem dangling_prereq_halts_only_when_verbose :
  let self := GraphValidation.init identity_order dangling_db in
  GraphValidation._check_orphan_prereqs self = [("A", "X")] /\
  GraphValidation.validate_graph self true
    = Ok (false, GraphValidation.mkReport false [] [("A", "X")] [] []) /\
  GraphValidation._detect_cycles self = Raise (KeyError "X") /\
  GraphValidation.validate_graph self false = Raise (KeyError "X").
Proof. repeat split; vm_compute; reflexivity. Qed.

(* ===================================================================== *)
(** * Facts about gs_challenge5.py *)
(* ===================================================================== *)

(** [int(new_t / 2000)]: the whole number of 2000-hour years. *)
Lemma py_int_years (new_t : Z) :
  Challenge5.py_int (new_t # 2000) = Z.quot new_t 2000.
Proof. reflexivity. Qed.

Lemma expected_value_inv db skill_id current_skills years v :
  Challenge5._calculate_expected_value db skill_id current_skills years = Ok v ->
  exists entry,
    getitem db skill_id = Ok entry /\
    v = (Challenge5.scenario_sum skill_id entry current_skills
         * Challenge5.discount_factor ^ years)%Q.
Proof.
  unfold Challenge5._calculate_expected_value. intros Hv.
  apply bind_ok_inv in Hv as (entry & Hget & Hv). injection Hv as <-. eauto.
Qed.

(** The contribution C9 describes, in the spec's words: the undiscounted
    expected value times [discount_factor] raised to the fractional
    number of years [t / hours_per_year], with [hours_per_year = 2000]. *)
Definition spec_contribution (undiscounted : Q) (t : Z) : R :=
  (Q2R undiscounted
   * Rpower (Q2R Challenge5.discount_factor) (IZR t / 2000))%R.

(** C9 as a statement about [expand]: what a skill adds to the value of
    a state is [spec_contribution] at the new cumulative time. *)
Definition discount_is_fractional : Prop :=
  forall db horizon from skill_id next entry,
    Challenge5.expand db horizon from skill_id = Ok (Some next) ->
    getitem db skill_id = Ok entry ->
    Q2R (Challenge5.entry_value next - Challenge5.entry_value from)
    = spec_contribution
        (Challenge5.scenario_sum skill_id entry (Challenge5.entry_skills from))
        (Challenge5.entry_time next).

Definition empty_profile : Challenge5.dp_entry := Challenge5.mkEntry 0 [] 0 [].

Definition after_H1 : Challenge5.dp_entry :=
  Challenge5.mkEntry 40 ["H1"]
    (0 + (0 + (4 # 10) * (inject_Z 10 * 1 * 1)
            + (35 # 100) * (inject_Z 10 * 1 * 1)
            + (25 # 100) * (inject_Z 10 * 1 * 1)) * 1)%Q
    ["H1"].

Lemma expand_H1 :
  Challenge5.expand SKILLS_DATABASE 10000 empty_profile "H1" = Ok (Some after_H1).
Proof. reflexivity. Qed.

(** The documented discount fails on the code: H1 (value 10, 40 hours)
    acquired from the empty profile adds exactly 10, its undiscounted
    expected value, whereas the fractional discount
    [0.95 ^ (40 / 2000)] would make it less than 10. *)
Lemma discount_is_not_fractional : ~ discount_is_fractional.
Proof.
  intros Hclaim.
  specialize (Hclaim SKILLS_DATABASE 10000 empty_profile "H1" after_H1
                (mkSkill 10 40 2 []) expand_H1 eq_refl).
  unfold spec_contribution in Hclaim.
  assert (Hv : Q2R (Challenge5.entry_value after_H1
                    - Challenge5.entry_value empty_profile) = 10%R).
  { rewrite (Qeq_eqR _ 10%Q) by reflexivity. unfold Q2R. simpl. lra. }
  assert (Hs : Q2R (Challenge5.scenario_sum "H1" (mkSkill 10 40 2 [])
                      (Challenge5.entry_skills empty_profile)) = 10%R).
  { rewrite (Qeq_eqR _ 10%Q) by reflexivity. unfold Q2R. simpl. lra. }
  assert (Hd : Q2R Challenge5.discount_factor = (95 / 100)%R).
  { unfold Q2R. simpl. lra. }
  rewrite Hv, Hs, Hd in Hclaim. simpl in Hclaim.
  assert (Hp : Rpower (95 / 100) (40 / 2000) = 1%R) by lra.
  apply (f_equal ln) in Hp. rewrite ln_Rpower, ln_1 in Hp.
  assert (Hln : ln (95 / 100) <> 0%R) by (apply ln_neq_0; lra).
  apply Rmult_integral in Hp as [Hp | Hp]; [lra | contradiction].
Qed.

(** What a skill adds to the value of a state is its undiscounted
    scenario-weighted value times [discount_factor] raised to the whole
    number of years elapsed at the new cumulative time:
    [int(new_t / 2000)], the quotient truncated toward zero. *)
Lemma expand_discounts_whole_years :
  forall (db : SkillsDB) (horizon : Z) (from : Challenge5.dp_entry)
         (skill_id : string) (next : Challenge5.dp_entry),
    Challenge5.expand db horizon from skill_id = Ok (Some next) ->
    exists entry,
      getitem db skill_id = Ok entry /\
      Challenge5.entry_time next
        = (Challenge5.entry_time from + Tempo entry)%Z /\
      (Challenge5.entry_value next - Challenge5.entry_value from
       == Challenge5.scenario_sum skill_id entry (Challenge5.entry_skills from)
          * Challenge5.discount_factor
            ^ (Z.quot (Challenge5.entry_time next) 2000))%Q.
Proof.
  intros db horizon from skill_id next He.
  unfold Challenge5.expand in He.
  apply bind_ok_inv in He as (skill & Hget & He).
  destruct (horizon <? Challenge5.entry_time from + Tempo skill); [discriminate|].
  apply bind_ok_inv in He as (ev & Hev & He). injection He as <-.
  apply expected_value_inv in Hev as (entry & Hget' & ->).
  rewrite Hget in Hget'. injection Hget' as <-.
  exists skill. split; [exact Hget|]. split; [reflexivity|].
  simpl. rewrite py_int_years. ring.
Qed.

(** A course longer than a year, to see the truncation at work. *)
Definition long_course_db : SkillsDB := [("L", mkSkill 10 3000 2 [])].

Definition after_L : Challenge5.dp_entry :=
  Challenge5.mkEntry 3000 ["L"]
    (0 + (0 + (4 # 10) * (inject_Z 10 * 1 * 1)
            + (35 # 100) * (inject_Z 10 * 1 * 1)
            + (25 # 100) * (inject_Z 10 * 1 * 1)) * (95 # 100))%Q
    ["L"].

Lemma ln_discount_negative : (ln (95 / 100) < 0)%R.
Proof. rewrite <- ln_1. apply ln_increasing; lra. Qed.

(** The documented discount is strictly below the one the code
    applies whenever the elapsed time is not a whole number of years. *)
Lemma fractional_discount_is_smaller (years whole : R) :
  (whole < years)%R ->
  (Rpower (95 / 100) years < Rpower (95 / 100) whole)%R.
Proof.
  intros Hlt. unfold Rpower. apply exp_increasing.
  pose proof ln_discount_negative. nra.
Qed.

(** C9.  The class documents the discount of the DP as
    [desconto ^ (t / 2000)], the fractional number of years elapsed;
    the code raises the discount to [int(new_t / 2000)], the years
    truncated to a whole number.  What a skill adds to a state is its
    undiscounted expected value times [discount_factor] to that whole
    number, for every transition.  So H1 (value 10, 40 hours) acquired
    from the empty profile of the repository's table adds exactly 10,
    where the documented discount gives less than 10; and a course of
    3000 hours of value 10 adds 9.5, the discount of one year, where
    the documented discount of a year and a half gives less. *)
Theorem discount_truncates_the_years :
  (forall (db : SkillsDB) (horizon : Z) (from : Challenge5.dp_entry)
          (skill_id : string) (next : Challenge5.dp_entry),
     Challenge5.expand db horizon from skill_id = Ok (Some next) ->
     exists entry,
       getitem db skill_id = Ok entry /\
       Challenge5.entry_time next
         = (Challenge5.entry_time from + Tempo entry)%Z /\
       (Challenge5.entry_value next - Challenge5.entry_value from
        == Challenge5.scenario_sum skill_id entry (Challenge5.entry_skills from)
           * Challenge5.discount_factor
             ^ (Z.quot (Challenge5.entry_time next) 2000))%Q) /\
  (Challenge5.expand SKILLS_DATABASE 10000 empty_profile "H1"
     = Ok (Some after_H1) /\
   Q2R (Challenge5.entry_value after_H1 - Challenge5.entry_value empty_profile)
     = 10%R /\
   (spec_contribution
      (Challenge5.scenario_sum "H1" (mkSkill 10 40 2 []) [])
      (Challenge5.entry_time after_H1) < 10)%R) /\
  (Challenge5.expand long_course_db 10000 empty_profile "L"
     = Ok (Some after_L) /\
   Q2R (Challenge5.entry_value after_L - Challenge5.entry_value empty_profile)
     = (95 / 10)%R /\
   (spec_contribution
      (Challenge5.scenario_sum "L" (mkSkill 10 3000 2 []) [])
      (Challenge5.entry_time after_L) < 95 / 10)%R).
Proof.
  assert (Hd : Q2R Challenge5.discount_factor = (95 / 100)%R).
  { unfold Q2R. simpl. lra. }
  split; [exact expand_discounts_whole_years|]. split.
  - split; [reflexivity|]. split.
    + rewrite (Qeq_eqR _ 10%Q) by reflexivity. unfold Q2R. simpl. lra.
    + unfold spec_contribution. rewrite Hd.
      rewrite (Qeq_eqR _ 10%Q) by reflexivity.
      replace (Q2R 10) with 10%R by (unfold Q2R; simpl; lra).
      pose proof (fractional_discount_is_smaller (IZR 40 / 2000) 0
                    ltac:(simpl; lra)) as Hlt.
      rewrite Rpower_O in Hlt by lra. simpl Challenge5.entry_time. nra.
  - split; [reflexivity|]. split.
    + rewrite (Qeq_eqR _ (95 # 10)%Q) by reflexivity. unfold Q2R. simpl. lra.
    + unfold spec_contribution. rewrite Hd.
      rewrite (Qeq_eqR _ 10%Q) by reflexivity.
      replace (Q2R 10) with 10%R by (unfold Q2R; simpl; lra).
      pose proof (fractional_discount_is_smaller (IZR 3000 / 2000) 1
                    ltac:(simpl; lra)) as Hlt.
      rewrite Rpower_1 in Hlt by lra. simpl Challenge5.entry_time. nra.
Qed.

(* ===================================================================== *)
(** * Further facts about gs_challenge1.py *)
(* ===================================================================== *)

(** ** [_get_required_skills] computes the prerequisite closure *)

Lemma required_loop_inv db : forall fuel required to_process R,
  Challenge1.required_loop fuel db required to_process = Ok R ->
  NoDup required ->
  Forall (present db) required ->
  (forall s entry, In s required -> getitem db s = Ok entry ->
     forall p, In p (Pre_Reqs entry) -> In p required \/ In p to_process) ->
  NoDup R /\ Forall (present db) R /\
  incl required R /\ incl to_process R /\ prereq_closed db R.
Proof.
  induction fuel as [|fuel IH]; intros required to_process R Hr Hnd Hp Hcl.
  - destruct to_process; simpl in Hr; [|discriminate]. injection Hr as <-.
    repeat split; auto using incl_refl.
    + intros x [].
    + intros s entry Hs Hg p Hpin. destruct (Hcl s entry Hs Hg p Hpin) as [H | []].
      exact H.
  - destruct to_process as [|skill rest]; simpl in Hr.
    + injection Hr as <-. repeat split; auto using incl_refl.
      * intros x [].
      * intros s entry Hs Hg p Hpin.
        destruct (Hcl s entry Hs Hg p Hpin) as [H | []]. exact H.
    + destruct (mem skill required) eqn:Em.
      * apply mem_In in Em.
        destruct (IH _ _ _ Hr Hnd Hp) as (A & B & C & D & E).
        { intros s entry Hs Hg p Hpin.
          destruct (Hcl s entry Hs Hg p Hpin) as [H | [<- | H]]; auto. }
        repeat split; auto.
        intros x [<- | Hx]; [apply C, Em | apply D, Hx].
      * apply bind_ok_inv in Hr as (entry & Hget & Hr).
        assert (Hnew : ~ In skill required).
        { intros Hin. apply mem_In in Hin. congruence. }
        destruct (IH _ _ _ Hr) as (A & B & C & D & E).
        { apply NoDup_app; [exact Hnd | repeat constructor; intros [] |].
          intros x Hx [<- | []]. contradiction. }
        { apply Forall_app. split; [exact Hp|]. constructor; [|constructor].
          eapply getitem_ok_present; eauto. }
        { intros s e Hs Hg p Hpin. apply in_app_or in Hs as [Hs | [<- | []]].
          - destruct (Hcl s e Hs Hg p Hpin) as [H | [<- | H]].
            + left. apply in_or_app. left. exact H.
            + left. apply in_or_app. right. left. reflexivity.
            + right. apply in_or_app. right. exact H.
          - rewrite Hget in Hg. injection Hg as <-.
            right. apply in_or_app. left. apply in_rev in Hpin. exact Hpin. }
        repeat split; auto.
        -- intros x Hx. apply C, in_or_app. left. exact Hx.
        -- intros x [<- | Hx].
           ++ apply C, in_or_app. right. left. reflexivity.
           ++ apply D, in_or_app. right. exact Hx.
Qed.

Lemma init_required_closure :
  forall (set_order : list string -> list string) (db : SkillsDB)
         (target : string) (cap : Z) (self : Challenge1.solver),
    (forall l, Permutation (set_order l) l) ->
    Challenge1.init set_order db target cap = Ok self ->
    NoDup (Challenge1.required_skills self) /\
    In target (Challenge1.required_skills self) /\
    Forall (present db) (Challenge1.required_skills self) /\
    prereq_closed db (Challenge1.required_skills self) /\
    forall C, prereq_closed db C -> In target C ->
              incl (Challenge1.required_skills self) C.
Proof.
  intros set_order db target cap self Hperm Hi.
  apply init_inv in Hi as (R & topo & acq & HR & -> & _). simpl.
  destruct (required_loop_inv db _ _ _ _ HR) as (A & B & C & D & E);
    [constructor | constructor | intros s entry [] |].
  pose proof (Hperm R) as HP.
  repeat split.
  - eapply Permutation_NoDup; [apply Permutation_sym, HP | exact A].
  - eapply Permutation_in; [apply Permutation_sym, HP|]. apply D. left. reflexivity.
  - eapply Permutation_Forall; [apply Permutation_sym, HP | exact B].
  - intros s entry Hs Hg p Hpin.
    eapply Permutation_in; [apply Permutation_sym, HP|].
    eapply E; eauto. eapply Permutation_in; eauto.
  - intros Cl Hcl Ht x Hx.
    eapply (required_loop_closed db Cl Hcl _ _ _ _ HR);
      [intros y [] | intros y [<- | []]; exact Ht |].
    eapply Permutation_in; eauto.
Qed.

(** X1.  The list [__init__] stores in [required_skills] is the
    prerequisite closure of the target: it has no repetition, holds the
    target, every skill in it is in the table and brings all its
    prerequisites with it, and it is contained in every
    prerequisite-closed set that holds the target. *)
Theorem required_skills_is_closure :
  forall (set_order : list string -> list string) (db : SkillsDB)
         (target : string) (cap : Z) (self : Challenge1.solver),
    (forall l, Permutation (set_order l) l) ->
    Challenge1.init set_order db target cap = Ok self ->
    NoDup (Challenge1.required_skills self) /\
    In target (Challenge1.required_skills self) /\
    Forall (present db) (Challenge1.required_skills self) /\
    prereq_closed db (Challenge1.required_skills self) /\
    forall C, prereq_closed db C -> In target C ->
              incl (Challenge1.required_skills self) C.
Proof.
  intros set_order db target cap self Hperm Hi.
  apply (init_required_closure set_order db target cap self Hperm Hi).
Qed.

Lemma required_skills_is_closure_witness :
  NoDup (Challenge1.required_skills repository_solver) /\
  In TARGET_SKILL (Challenge1.required_skills repository_solver) /\
  Forall (present SKILLS_DATABASE) (Challenge1.required_skills repository_solver) /\
  prereq_closed SKILLS_DATABASE (Challenge1.required_skills repository_solver) /\
  forall C, prereq_closed SKILLS_DATABASE C -> In TARGET_SKILL C ->
            incl (Challenge1.required_skills repository_solver) C.
Proof.
  apply (required_skills_is_closure identity_order SKILLS_DATABASE TARGET_SKILL 50
           repository_solver).
  - intros l. apply Permutation_refl.
  - vm_compute; reflexivity.
Defined.

(** ** [_topological_sort] lists every skill after its prerequisites *)

Lemma getitem_ok_get {V} (d : dict string V) k v :
  getitem d k = Ok v -> dict_get d k = Some v.
Proof. unfold getitem. destruct (dict_get d k); congruence. Qed.

Lemma dict_get_set_string {V} (d : dict string V) k v s :
  dict_get (dict_set d k v) s = if String.eqb k s then Some v else dict_get d s.
Proof.
  destruct (String.eqb k s) eqn:E.
  - apply String.eqb_eq in E. subst. apply dict_get_set_same.
  - apply String.eqb_neq in E. apply dict_get_set_other. congruence.
Qed.

Lemma mem_cons x y l : mem x (y :: l) = String.eqb x y || mem x l.
Proof. reflexivity. Qed.

Lemma mem_false_In x l : mem x l = false <-> ~ In x l.
Proof.
  split.
  - intros Hm Hin. apply mem_In in Hin. congruence.
  - intros Hn. destruct (mem x l) eqn:E; [|reflexivity].
    apply mem_In in E. contradiction.
Qed.

Section KahnOrder.
Variable db : SkillsDB.
Variable req : list string.
Hypothesis req_nodup : NoDup req.

(** The prerequisites of a skill, its number of prerequisite entries
    among the required skills, and the number of skills of [order]
    that are prerequisites of it. *)
Definition prereqs_of (s : string) : list string := Pre_Reqs (skill_of db s).

Definition indeg (s : string) : Z :=
  Z.of_nat (List.length (filter (fun p => mem p req) (prereqs_of s))).

Definition hits (order : list string) (s : string) : Z :=
  Z.of_nat (List.length (filter (fun c => mem c (prereqs_of s)) order)).

Lemma hits_snoc order c s :
  hits (order ++ [c]) s
  = hits order s + (if mem c (prereqs_of s) then 1 else 0).
Proof.
  unfold hits. rewrite filter_app, length_app. simpl.
  destruct (mem c (prereqs_of s)); simpl; lia.
Qed.

(** When as many distinct required skills of [order] are prerequisites
    of [s] as [s] has prerequisite entries among the required skills,
    all those prerequisites are in [order]. *)
Lemma hits_all order s :
  NoDup order -> incl order req -> hits order s = indeg s ->
  forall p, In p (prereqs_of s) -> In p req -> In p order.
Proof.
  intros Hnd Hincl Heq p Hp Hr. unfold hits, indeg in Heq.
  apply Nat2Z.inj in Heq.
  assert (Hsub : incl (filter (fun p => mem p req) (prereqs_of s))
                      (filter (fun c => mem c (prereqs_of s)) order)).
  { apply NoDup_length_incl.
    - apply NoDup_filter, Hnd.
    - lia.
    - intros c Hc. apply filter_In in Hc as [Hc Hm]. apply filter_In.
      split; [apply mem_In, Hm | apply mem_In, Hincl, Hc]. }
  assert (Hin : In p (filter (fun c => mem c (prereqs_of s)) order)).
  { apply Hsub, filter_In. split; [exact Hp | apply mem_In, Hr]. }
  apply filter_In in Hin as [Hin _]. exact Hin.
Qed.

(** *** The counters after the first loop *)

Lemma in_degree_zero_get l : forall (d0 : dict string Z) s,
  dict_get (fold_left (fun d skill => dict_set d skill 0) l d0) s
  = if mem s l then Some 0 else dict_get d0 s.
Proof.
  induction l as [|x l IH]; intros d0 s; [reflexivity|].
  cbn [fold_left]. rewrite IH, dict_get_set_string, mem_cons, String.eqb_sym.
  destruct (mem s l); [rewrite orb_true_r; reflexivity|].
  rewrite orb_false_r. reflexivity.
Qed.

(** The counters while the first loop has handled [done]. *)
Definition counted (done : list string) (d : dict string Z) : Prop :=
  forall s, dict_get d s
            = if mem s req
              then Some (if mem s done then indeg s else 0)
              else None.

Lemma count_prereqs_get skill ps : forall d d' n,
  foldM (Challenge1.count_prereq skill) ps d = Ok d' ->
  (forall p, dict_mem d p = mem p req) ->
  dict_get d skill = Some n ->
  dict_get d' skill
    = Some (n + Z.of_nat (List.length (filter (fun p => mem p req) ps))) /\
  (forall s, s <> skill -> dict_get d' s = dict_get d s).
Proof.
  induction ps as [|p ps IH]; intros d d' n Hf Hk Hn; simpl in Hf.
  - injection Hf as <-. simpl. rewrite Z.add_0_r. auto.
  - apply bind_ok_inv in Hf as (d1 & H1 & Hf).
    unfold Challenge1.count_prereq in H1. rewrite Hk in H1. simpl.
    destruct (mem p req) eqn:Ep.
    + unfold Challenge1.in_degree_add in H1.
      apply bind_ok_inv in H1 as (n0 & Hn0 & H1). injection H1 as <-.
      apply getitem_ok_get in Hn0. rewrite Hn in Hn0. injection Hn0 as <-.
      destruct (IH _ _ (n + 1) Hf) as (A & B).
      * intros q. unfold dict_mem. rewrite dict_get_set_string.
        destruct (String.eqb skill q) eqn:E.
        -- apply String.eqb_eq in E. subst q. rewrite <- Hk. unfold dict_mem.
           rewrite Hn. reflexivity.
        -- apply Hk.
      * rewrite dict_get_set_string, String.eqb_refl. reflexivity.
      * split.
        -- rewrite A. f_equal. simpl. lia.
        -- intros s Hs. rewrite B by exact Hs.
           rewrite dict_get_set_string.
           destruct (String.eqb skill s) eqn:E; [|reflexivity].
           apply String.eqb_eq in E. congruence.
    + injection H1 as <-. eapply IH; eauto.
Qed.

Lemma count_skills_counted l : forall done d d',
  foldM (Challenge1.count_skill db) l d = Ok d' ->
  counted done d -> NoDup l -> incl l req ->
  (forall s, In s l -> ~ In s done) ->
  counted (done ++ l) d'.
Proof.
  induction l as [|x l IH]; intros done d d' Hf Hc Hnd Hincl Hdis; simpl in Hf.
  - injection Hf as <-. rewrite app_nil_r. exact Hc.
  - apply bind_ok_inv in Hf as (d1 & H1 & Hf).
    unfold Challenge1.count_skill in H1.
    apply bind_ok_inv in H1 as (entry & Hget & H1).
    inversion Hnd as [|? ? Hx Hnd']; subst.
    assert (Hxr : mem x req = true) by (apply mem_In, Hincl; left; reflexivity).
    assert (Hxd : mem x done = false) by (apply mem_false_In, Hdis; left; reflexivity).
    destruct (count_prereqs_get x (Pre_Reqs entry) d d1 0 H1) as (A & B).
    { intros p. unfold dict_mem. rewrite Hc. destruct (mem p req); reflexivity. }
    { rewrite Hc, Hxr, Hxd. reflexivity. }
    replace (done ++ x :: l) with ((done ++ [x]) ++ l)
      by (rewrite <- app_assoc; reflexivity).
    apply (IH (done ++ [x]) d1 d' Hf); auto.
    + intros s. destruct (String.eqb s x) eqn:E.
      * apply String.eqb_eq in E. subst s. rewrite A, Hxr.
        assert (Hm : mem x (done ++ [x]) = true).
        { apply mem_In, in_or_app. right. left. reflexivity. }
        rewrite Hm. unfold indeg, prereqs_of.
        rewrite (getitem_skill_of _ _ _ Hget). reflexivity.
      * apply String.eqb_neq in E. rewrite B by exact E. rewrite Hc.
        destruct (mem s req); [|reflexivity].
        assert (Hm : mem s (done ++ [x]) = mem s done).
        { destruct (mem s done) eqn:Ed.
          - apply mem_In, in_or_app. left. apply mem_In, Ed.
          - apply mem_false_In. intros Hin.
            apply in_app_or in Hin as [Hin | [-> | []]]; [|congruence].
            apply mem_In in Hin. congruence. }
        rewrite Hm. reflexivity.
    + intros s Hs. apply Hincl. right. exact Hs.
    + intros s Hs Hin. apply in_app_or in Hin as [Hin | [<- | []]].
      * apply (Hdis s); [right; exact Hs | exact Hin].
      * contradiction.
Qed.

Lemma zero_in_degree_get d l : forall queue,
  Challenge1.zero_in_degree d l = Ok queue ->
  forall s, In s queue <-> In s l /\ dict_get d s = Some 0.
Proof.
  induction l as [|x l IH]; intros queue Hz s; simpl in Hz.
  - injection Hz as <-. simpl. tauto.
  - apply bind_ok_inv in Hz as (n & Hn & Hz).
    apply bind_ok_inv in Hz as (tail & Ht & Hz). injection Hz as <-.
    apply getitem_ok_get in Hn. specialize (IH _ Ht s).
    destruct (n =? 0) eqn:E.
    + apply Z.eqb_eq in E. subst n. simpl. rewrite IH. split.
      * intros [<- | [H1 H2]]; auto.
      * intros [[<- | H1] H2]; auto.
    + apply Z.eqb_neq in E. rewrite IH. simpl. split.
      * intros [H1 H2]; auto.
      * intros [[<- | H1] H2]; auto. congruence.
Qed.

Lemma zero_in_degree_nodup d l : forall queue,
  Challenge1.zero_in_degree d l = Ok queue -> NoDup l -> NoDup queue.
Proof.
  induction l as [|x l IH]; intros queue Hz Hnd; simpl in Hz.
  - injection Hz as <-. constructor.
  - apply bind_ok_inv in Hz as (n & Hn & Hz).
    apply bind_ok_inv in Hz as (tail & Ht & Hz). injection Hz as <-.
    inversion Hnd as [|? ? Hx Hnd']; subst. specialize (IH _ Ht Hnd').
    destruct (n =? 0); [|exact IH]. constructor; [|exact IH].
    intros Hin. apply Hx. eapply zero_in_degree_incl; eauto.
Qed.

End KahnOrder.

Section KahnLoop.
Variable db : SkillsDB.
Variable req : list string.
Hypothesis req_nodup : NoDup req.
Hypothesis req_present : Forall (present db) req.

(** Every prerequisite among the required skills occurs earlier. *)
Definition req_linear (order : list string) : Prop :=
  forall pre s suf, order = pre ++ s :: suf ->
    forall p, In p (prereqs_of db s) -> In p req -> In p pre.

(** The state of the inner loop for the skill [current] just popped,
    when it has handled [done] and still has [todo] to handle; [seen]
    is the order including [current]. *)
Definition release_inv (order : list string) (current : string)
    (done todo : list string) (st : Challenge1.in_degree_table * list string)
  : Prop :=
  let seen := order ++ [current] in
  (forall s, In s done -> exists n,
     dict_get (fst st) s = Some n /\ n + hits db seen s = indeg db req s) /\
  (forall s, In s todo -> exists n,
     dict_get (fst st) s = Some n /\ n + hits db order s = indeg db req s) /\
  NoDup (seen ++ snd st) /\
  incl (seen ++ snd st) req /\
  (forall s, In s (seen ++ snd st) -> exists n,
     dict_get (fst st) s = Some n /\ n <= 0) /\
  (forall s, In s (snd st) ->
     forall p, In p (prereqs_of db s) -> In p req -> In p seen) /\
  (forall s n, In s req -> dict_get (fst st) s = Some n -> n <= 0 ->
     In s (seen ++ snd st)).

Lemma release_step order current done x todo st st' :
  done ++ x :: todo = req ->
  Challenge1.release db current st x = Ok st' ->
  release_inv order current done (x :: todo) st ->
  release_inv order current (done ++ [x]) todo st'.
Proof.
  intros Hreq Hr (J1 & J2 & J3 & J4 & J5 & J6 & J7).
  assert (Hxreq : In x req).
  { rewrite <- Hreq. apply in_or_app. right. left. reflexivity. }
  assert (Hxdone : ~ In x done /\ ~ In x todo).
  { rewrite <- Hreq in req_nodup. apply NoDup_remove_2 in req_nodup.
    split; intros Hin; apply req_nodup, in_or_app; auto. }
  destruct Hxdone as [Hxd Hxt].
  destruct (J2 x (or_introl eq_refl)) as (n & Hn & Hcount).
  unfold Challenge1.release in Hr.
  rewrite Forall_forall in req_present.
  rewrite (getitem_present db x (req_present x Hxreq)) in Hr. simpl in Hr.
  fold (prereqs_of db x) in Hr.
  pose proof (hits_snoc db order current x) as Hsn.
  destruct (mem current (prereqs_of db x)) eqn:Em.
  - unfold getitem in Hr. rewrite Hn in Hr. simpl in Hr.
    assert (Hget : forall s, s <> x ->
              dict_get (dict_set (fst st) x (n - 1)) s = dict_get (fst st) s).
    { intros s Hs. rewrite dict_get_set_string.
      destruct (String.eqb x s) eqn:E; [|reflexivity].
      apply String.eqb_eq in E. congruence. }
    assert (Hgx : dict_get (dict_set (fst st) x (n - 1)) x = Some (n - 1)).
    { rewrite dict_get_set_string, String.eqb_refl. reflexivity. }
    assert (Hdone' : forall s, In s (done ++ [x]) -> exists m,
              dict_get (dict_set (fst st) x (n - 1)) s = Some m /\
              m + hits db (order ++ [current]) s = indeg db req s).
    { intros s Hs. apply in_app_or in Hs as [Hs | [<- | []]].
      - destruct (J1 s Hs) as (m & Hm & Hc). exists m.
        rewrite Hget by congruence. auto.
      - exists (n - 1). split; [exact Hgx | lia]. }
    assert (Htodo' : forall s, In s todo -> exists m,
              dict_get (dict_set (fst st) x (n - 1)) s = Some m /\
              m + hits db order s = indeg db req s).
    { intros s Hs. destruct (J2 s (or_intror Hs)) as (m & Hm & Hc).
      exists m. rewrite Hget by congruence. auto. }
    destruct (n - 1 =? 0) eqn:E0; injection Hr as <-.
    + apply Z.eqb_eq in E0.
      assert (Hfresh : ~ In x ((order ++ [current]) ++ snd st)).
      { intros Hin. destruct (J5 x Hin) as (m & Hm & Hle).
        rewrite Hn in Hm. injection Hm as <-. lia. }
      repeat split; simpl; auto.
      * rewrite app_assoc. apply NoDup_app; [exact J3 | repeat constructor; intros [] |].
        intros y Hy [<- | []]. contradiction.
      * rewrite app_assoc. apply incl_app; [exact J4|].
        intros y [<- | []]. exact Hxreq.
      * intros s Hs. rewrite app_assoc in Hs.
        apply in_app_or in Hs as [Hs | [<- | []]].
        -- destruct (J5 s Hs) as (m & Hm & Hle). exists m.
           rewrite Hget by congruence. auto.
        -- exists (n - 1). split; [exact Hgx | lia].
      * intros s Hs p Hp Hpr. apply in_app_or in Hs as [Hs | [<- | []]];
          [eapply J6; eauto|].
        apply (hits_all db req (order ++ [current]) x); auto.
        -- apply NoDup_app_remove_r in J3. exact J3.
        -- intros y Hy. apply J4, in_or_app. left. exact Hy.
        -- lia.
      * intros s m Hs Hm Hle. rewrite app_assoc.
        destruct (String.eqb x s) eqn:E.
        -- apply String.eqb_eq in E. subst s.
           apply in_or_app. right. left. reflexivity.
        -- apply String.eqb_neq in E. rewrite Hget in Hm by congruence.
           apply in_or_app. left. eapply J7; eauto.
    + apply Z.eqb_neq in E0. repeat split; simpl; auto.
      * intros s Hs. destruct (J5 s Hs) as (m & Hm & Hle).
        destruct (String.eqb x s) eqn:E.
        -- apply String.eqb_eq in E. subst s. rewrite Hn in Hm. injection Hm as <-.
           exists (n - 1). split; [exact Hgx | lia].
        -- apply String.eqb_neq in E. exists m. rewrite Hget by congruence. auto.
      * intros s m Hs Hm Hle.
        destruct (String.eqb x s) eqn:E.
        -- apply String.eqb_eq in E. subst s. rewrite Hgx in Hm. injection Hm as <-.
           apply (J7 x n); auto. lia.
        -- apply String.eqb_neq in E. rewrite Hget in Hm by congruence.
           eapply J7; eauto.
  - injection Hr as <-. repeat split; auto.
    + intros s Hs. apply in_app_or in Hs as [Hs | [<- | []]]; [auto|].
      exists n. split; [exact Hn | lia].
    + intros s Hs. apply J2. right. exact Hs.
Qed.

Lemma release_all order current todo : forall done st st',
  done ++ todo = req ->
  foldM (Challenge1.release db current) todo st = Ok st' ->
  release_inv order current done todo st ->
  release_inv order current req [] st'.
Proof.
  induction todo as [|x todo IH]; intros done st st' Hreq Hf Hinv; simpl in Hf.
  - injection Hf as <-. rewrite app_nil_r in Hreq. subst done. exact Hinv.
  - apply bind_ok_inv in Hf as (st1 & H1 & Hf).
    apply (IH (done ++ [x]) st1 st'); auto.
    + rewrite <- app_assoc. exact Hreq.
    + eapply release_step; eauto.
Qed.

(** The state at the head of the [while queue] loop. *)
Definition kahn_inv (d : Challenge1.in_degree_table) (queue order : list string)
  : Prop :=
  (forall s, In s req -> exists n,
     dict_get d s = Some n /\ n + hits db order s = indeg db req s) /\
  NoDup (order ++ queue) /\
  incl (order ++ queue) req /\
  (forall s, In s (order ++ queue) -> exists n, dict_get d s = Some n /\ n <= 0) /\
  (forall s, In s queue ->
     forall p, In p (prereqs_of db s) -> In p req -> In p order) /\
  req_linear order /\
  (forall s n, In s req -> dict_get d s = Some n -> n <= 0 ->
     In s (order ++ queue)).

(** A required skill the order leaves out still waits for one of its
    prerequisites. *)
Lemma kahn_inv_end d order :
  kahn_inv d [] order ->
  NoDup order /\ incl order req /\ req_linear order /\
  (forall s, In s req -> ~ In s order -> hits db order s < indeg db req s).
Proof.
  intros (K1 & K2 & K3 & _ & _ & K6 & K7). rewrite app_nil_r in K2, K3.
  repeat split; auto.
  intros s Hs Hno. destruct (K1 s Hs) as (n & Hn & Hc).
  destruct (Z_le_gt_dec n 0) as [Hle | Hgt]; [|lia].
  specialize (K7 s n Hs Hn Hle). rewrite app_nil_r in K7. contradiction.
Qed.

Lemma kahn_inv_step d current rest order st :
  kahn_inv d (current :: rest) order ->
  foldM (Challenge1.release db current) req (d, rest) = Ok st ->
  kahn_inv (fst st) (snd st) (order ++ [current]).
Proof.
  intros (K1 & K2 & K3 & K4 & K5 & K6 & K7) Hst.
  assert (Hstart : release_inv order current [] req (d, rest)).
  { repeat split; simpl.
    - intros s [].
    - exact K1.
    - rewrite <- app_assoc. exact K2.
    - rewrite <- app_assoc. exact K3.
    - intros s Hs. rewrite <- app_assoc in Hs. auto.
    - intros s Hs p Hp Hpr. apply in_or_app. left.
      apply (K5 s); [right; exact Hs | exact Hp | exact Hpr].
    - intros s n Hs Hn Hle. rewrite <- app_assoc. eapply K7; eauto. }
  destruct (release_all order current req [] (d, rest) st eq_refl Hst Hstart)
    as (J1 & _ & J3 & J4 & J5 & J6 & J7).
  repeat split; auto.
  intros pre s suf Heq p Hp Hpr. symmetry in Heq.
  apply snoc_split in Heq as [(-> & -> & ->) | (suf' & -> & ->)].
  - apply (K5 current); [left; reflexivity | exact Hp | exact Hpr].
  - eapply K6; eauto.
Qed.

Lemma kahn_loop_linear : forall fuel d queue order topo,
  Challenge1.kahn_loop fuel db req d queue order = Ok topo ->
  kahn_inv d queue order ->
  NoDup topo /\ incl topo req /\ req_linear topo /\
  (forall s, In s req -> ~ In s topo -> hits db topo s < indeg db req s).
Proof.
  induction fuel as [|fuel IH]; intros d queue order topo Hk Hinv.
  - destruct queue; simpl in Hk; [|discriminate]. injection Hk as <-.
    apply kahn_inv_end in Hinv. exact Hinv.
  - destruct queue as [|current rest]; simpl in Hk.
    + injection Hk as <-. apply kahn_inv_end in Hinv. exact Hinv.
    + apply bind_ok_inv in Hk as (st & Hst & Hk).
      apply (IH _ _ _ _ Hk). eapply kahn_inv_step; eauto.
Qed.

(** The state in which the [while queue] loop starts. *)
Lemma kahn_inv_initial d queue :
  foldM (Challenge1.count_skill db) req (Challenge1.in_degree_zero req) = Ok d ->
  Challenge1.zero_in_degree d req = Ok queue ->
  kahn_inv d queue [].
Proof.
  intros Hd Hq.
  assert (Hc : counted db req req d).
  { apply (count_skills_counted db req req [] _ _ Hd); auto.
    - intros s. unfold Challenge1.in_degree_zero.
      rewrite in_degree_zero_get. simpl. destruct (mem s req); reflexivity.
    - apply incl_refl. }
  pose proof (zero_in_degree_get d req queue Hq) as Hqs.
  repeat split; simpl.
  - intros s Hs. exists (indeg db req s). rewrite Hc.
    apply mem_In in Hs. rewrite Hs. unfold hits. simpl. split; [reflexivity | lia].
  - eapply zero_in_degree_nodup; eauto.
  - intros s Hs. apply Hqs in Hs as [Hs _]. exact Hs.
  - intros s Hs. apply Hqs in Hs as [_ Hs]. exists 0. split; [exact Hs | lia].
  - intros s Hs p Hp Hpr. apply Hqs in Hs as [Hs H0].
    rewrite Hc in H0. apply mem_In in Hs. rewrite Hs in H0.
    injection H0 as H0. unfold indeg in H0.
    assert (Hin : In p (filter (fun p => mem p req) (prereqs_of db s))).
    { apply filter_In. split; [exact Hp | apply mem_In, Hpr]. }
    destruct (filter (fun p => mem p req) (prereqs_of db s)); [destruct Hin|].
    simpl in H0. lia.
  - intros pre s suf Heq. destruct pre; discriminate.
  - intros s n Hs Hn Hle. rewrite Hc in Hn. pose proof Hs as Hs'.
    apply mem_In in Hs'. rewrite Hs' in Hn. injection Hn as <-.
    apply Hqs. split; [exact Hs|]. rewrite Hc, Hs'. f_equal.
    unfold indeg in *. lia.
Qed.

Lemma topological_sort_linear topo :
  Challenge1.topological_sort_of db req = Ok topo ->
  NoDup topo /\ incl topo req /\ req_linear topo /\
  (forall s, In s req -> ~ In s topo -> hits db topo s < indeg db req s).
Proof.
  unfold Challenge1.topological_sort_of. intros Ht.
  apply bind_ok_inv in Ht as (d & Hd & Ht).
  apply bind_ok_inv in Ht as (queue & Hq & Ht).
  apply (kahn_loop_linear _ _ _ _ _ Ht). apply kahn_inv_initial; assumption.
Qed.

(** *** The sort raises nothing on required skills of the table *)

Lemma count_prereqs_total skill ps : forall d : Challenge1.in_degree_table,
  dict_get d skill <> None ->
  exists d', foldM (Challenge1.count_prereq skill) ps d = Ok d'.
Proof.
  induction ps as [|p ps IH]; intros d Hk; simpl; [eauto|].
  unfold Challenge1.count_prereq at 1.
  destruct (dict_mem d p); simpl; [|apply IH, Hk].
  unfold Challenge1.in_degree_add, getitem.
  destruct (dict_get d skill) as [n|]; [|congruence]. simpl.
  apply IH. rewrite dict_get_set_string, String.eqb_refl. discriminate.
Qed.

Lemma count_skills_total l : forall done (d : Challenge1.in_degree_table),
  counted db req done d -> NoDup l -> incl l req ->
  (forall s, In s l -> ~ In s done) ->
  exists d', foldM (Challenge1.count_skill db) l d = Ok d'.
Proof.
  induction l as [|x l IH]; intros done d Hc Hnd Hincl Hdis; simpl; [eauto|].
  assert (Hx : In x req) by (apply Hincl; left; reflexivity).
  rewrite Forall_forall in req_present.
  destruct (count_prereqs_total x (Pre_Reqs (skill_of db x)) d) as (d1 & H1).
  { rewrite Hc. apply mem_In in Hx. rewrite Hx. discriminate. }
  assert (Hstep : Challenge1.count_skill db d x = Ok d1).
  { unfold Challenge1.count_skill.
    rewrite (getitem_present db x (req_present x Hx)). exact H1. }
  rewrite Hstep. simpl.
  inversion Hnd as [|? ? Hxl Hnd']; subst.
  apply (IH (done ++ [x])); auto.
  - apply (count_skills_counted db req [x] done d d1); auto.
    + simpl. rewrite Hstep. reflexivity.
    + repeat constructor. intros [].
    + intros s [<- | []]. exact Hx.
    + intros s [<- | []]. apply Hdis. left. reflexivity.
  - intros s Hs. apply Hincl. right. exact Hs.
  - intros s Hs Hin. apply in_app_or in Hin as [Hin | [<- | []]].
    + apply (Hdis s); [right; exact Hs | exact Hin].
    + contradiction.
Qed.

Lemma zero_in_degree_total (d : Challenge1.in_degree_table) l :
  (forall s, In s l -> dict_get d s <> None) ->
  exists queue, Challenge1.zero_in_degree d l = Ok queue.
Proof.
  induction l as [|x l IH]; intros Hk; simpl; [eauto|].
  unfold getitem. destruct (dict_get d x) as [n|] eqn:E.
  - simpl. destruct IH as (tail & ->); [intros; apply Hk; right; assumption|].
    simpl. eauto.
  - exfalso. apply (Hk x); [left; reflexivity | exact E].
Qed.

Lemma release_total order current done x todo st :
  done ++ x :: todo = req ->
  release_inv order current done (x :: todo) st ->
  exists st', Challenge1.release db current st x = Ok st'.
Proof.
  intros Hreq (_ & J2 & _).
  assert (Hx : In x req).
  { rewrite <- Hreq. apply in_or_app. right. left. reflexivity. }
  destruct (J2 x (or_introl eq_refl)) as (n & Hn & _).
  unfold Challenge1.release. rewrite Forall_forall in req_present.
  rewrite (getitem_present db x (req_present x Hx)). simpl.
  destruct (mem current (Pre_Reqs (skill_of db x))); [|eauto].
  unfold getitem. rewrite Hn. simpl. destruct (n - 1 =? 0); eauto.
Qed.

Lemma releases_total order current todo : forall done st,
  done ++ todo = req ->
  release_inv order current done todo st ->
  exists st', foldM (Challenge1.release db current) todo st = Ok st'.
Proof.
  induction todo as [|x todo IH]; intros done st Hreq Hinv; simpl; [eauto|].
  destruct (release_total order current done x todo st Hreq Hinv) as (st1 & H1).
  rewrite H1. simpl. apply (IH (done ++ [x])).
  - rewrite <- app_assoc. exact Hreq.
  - eapply release_step; eauto.
Qed.

Lemma kahn_inv_releases d current rest order :
  kahn_inv d (current :: rest) order ->
  exists st, foldM (Challenge1.release db current) req (d, rest) = Ok st.
Proof.
  intros (K1 & K2 & K3 & K4 & K5 & K6 & K7).
  apply (releases_total order current req []); [reflexivity|].
  repeat split; simpl.
  - intros s [].
  - exact K1.
  - rewrite <- app_assoc. exact K2.
  - rewrite <- app_assoc. exact K3.
  - intros s Hs. rewrite <- app_assoc in Hs. auto.
  - intros s Hs p Hp Hpr. apply in_or_app. left.
    apply (K5 s); [right; exact Hs | exact Hp | exact Hpr].
  - intros s n Hs Hn Hle. rewrite <- app_assoc. eapply K7; eauto.
Qed.

Lemma kahn_loop_total : forall fuel d queue order,
  kahn_inv d queue order ->
  (List.length queue + positives d < fuel)%nat ->
  exists topo, Challenge1.kahn_loop fuel db req d queue order = Ok topo.
Proof.
  induction fuel as [|fuel IH]; intros d queue order Hinv Hlt; [lia|].
  destruct queue as [|current rest]; simpl; [eauto|].
  destruct (kahn_inv_releases d current rest order Hinv) as (st & Hst).
  rewrite Hst. simpl. apply IH.
  - eapply kahn_inv_step; eauto.
  - simpl in Hlt. apply releases_measure in Hst. lia.
Qed.

Lemma topological_sort_total :
  exists topo, Challenge1.topological_sort_of db req = Ok topo.
Proof.
  unfold Challenge1.topological_sort_of.
  destruct (count_skills_total req [] (Challenge1.in_degree_zero req)) as (d & Hd);
    auto using incl_refl.
  { intros s. unfold Challenge1.in_degree_zero.
    rewrite in_degree_zero_get. simpl. destruct (mem s req); reflexivity. }
  rewrite Hd. cbn [bind].
  assert (Hc : counted db req req d).
  { apply (count_skills_counted db req req [] _ _ Hd); auto using incl_refl.
    intros s. unfold Challenge1.in_degree_zero.
    rewrite in_degree_zero_get. simpl. destruct (mem s req); reflexivity. }
  destruct (zero_in_degree_total d req) as (queue & Hq).
  { intros s Hs. rewrite Hc. apply mem_In in Hs. rewrite Hs. discriminate. }
  rewrite Hq. cbn [bind]. apply kahn_loop_total.
  - apply kahn_inv_initial; assumption.
  - pose proof (positives_le_length d). lia.
Qed.

End KahnLoop.

(** What [_topological_sort] returns for a constructed solver. *)
Lemma init_topological_order :
  forall (set_order : list string -> list string) (db : SkillsDB)
         (target : string) (cap : Z) (self : Challenge1.solver),
    (forall l, Permutation (set_order l) l) ->
    Challenge1.init set_order db target cap = Ok self ->
    exists topo,
      Challenge1._topological_sort self = Ok topo /\
      NoDup topo /\
      incl topo (Challenge1.required_skills self) /\
      Forall (present db) topo /\
      topological_linearization db topo /\
      (forall s, In s (Challenge1.required_skills self) -> ~ In s topo ->
         hits db topo s < indeg db (Challenge1.required_skills self) s) /\
      (In target topo -> Permutation topo (Challenge1.required_skills self)).
Proof.
  intros set_order db target cap self Hperm Hi.
  destruct (init_required_closure _ _ _ _ _ Hperm Hi) as (Hnd & Ht & Hp & Hcl & Hleast).
  apply init_inv in Hi as (R & topo & acq & HR & -> & Htopo & Hincl & _ & _ & Hpt).
  cbn [Challenge1.required_skills] in *.
  destruct (topological_sort_linear db (set_order R) Hnd Hp topo Htopo)
    as (A & B & C & D).
  assert (Hlin : topological_linearization db topo).
  { intros pre s suf entry Heq Hget p Hpin.
    assert (Hs : In s (set_order R)).
    { apply B. rewrite Heq. apply in_or_app. right. left. reflexivity. }
    apply (C pre s suf Heq).
    - unfold prereqs_of. rewrite (getitem_skill_of _ _ _ Hget). exact Hpin.
    - eapply Hcl; eauto. }
  exists topo. unfold Challenge1._topological_sort. simpl.
  repeat split; auto.
  intros Htt. apply NoDup_Permutation; auto.
  intros x. split; [apply B|].
  apply (Hleast topo (linearization_closed db topo Hlin) Htt).
Qed.

(** X2.  For a constructed solver [_topological_sort] returns a list
    without repetition of required skills in which every prerequisite
    of each skill occurs earlier; if the list reaches the target, it
    lists exactly the required skills. *)
Theorem topological_sort_is_linearization :
  forall (set_order : list string -> list string) (db : SkillsDB)
         (target : string) (cap : Z) (self : Challenge1.solver),
    (forall l, Permutation (set_order l) l) ->
    Challenge1.init set_order db target cap = Ok self ->
    exists topo,
      Challenge1._topological_sort self = Ok topo /\
      NoDup topo /\
      incl topo (Challenge1.required_skills self) /\
      topological_linearization db topo /\
      (In target topo -> Permutation topo (Challenge1.required_skills self)).
Proof.
  intros set_order db target cap self Hperm Hi.
  destruct (init_topological_order _ _ _ _ _ Hperm Hi)
    as (topo & A & B & C & _ & D & _ & E).
  exists topo. auto.
Qed.

Lemma topological_sort_is_linearization_witness :
  exists topo,
    Challenge1._topological_sort repository_solver = Ok topo /\
    NoDup topo /\
    incl topo (Challenge1.required_skills repository_solver) /\
    topological_linearization SKILLS_DATABASE topo /\
    (In TARGET_SKILL topo ->
     Permutation topo (Challenge1.required_skills repository_solver)).
Proof.
  apply (topological_sort_is_linearization identity_order SKILLS_DATABASE
           TARGET_SKILL 50 repository_solver).
  - intros l. apply Permutation_refl.
  - vm_compute; reflexivity.
Defined.

(** The required skills form no cycle when some rank strictly
    decreases from every required skill to each of its prerequisites. *)
Definition acyclic_by (db : SkillsDB) (req : list string) (rank : string -> nat)
  : Prop :=
  forall s entry, In s req -> getitem db s = Ok entry ->
    forall p, In p (Pre_Reqs entry) -> (rank p < rank s)%nat.

(** No required skill lists a prerequisite twice. *)
Definition prereqs_listed_once (db : SkillsDB) (req : list string) : Prop :=
  forall s entry, In s req -> getitem db s = Ok entry -> NoDup (Pre_Reqs entry).

Lemma init_topological_complete :
  forall (set_order : list string -> list string) (db : SkillsDB)
         (target : string) (cap : Z) (self : Challenge1.solver)
         (rank : string -> nat),
    (forall l, Permutation (set_order l) l) ->
    Challenge1.init set_order db target cap = Ok self ->
    acyclic_by db (Challenge1.required_skills self) rank ->
    prereqs_listed_once db (Challenge1.required_skills self) ->
    exists topo,
      Challenge1._topological_sort self = Ok topo /\
      In target topo /\
      Permutation topo (Challenge1.required_skills self).
Proof.
  intros set_order db target cap self rank Hperm Hi Hacyc Honce.
  destruct (init_required_closure _ _ _ _ _ Hperm Hi) as (Hnd & Ht & Hp & Hcl & _).
  destruct (init_topological_order _ _ _ _ _ Hperm Hi)
    as (topo & A & B & C & _ & D & E & F).
  exists topo. split; [exact A|].
  assert (Hall : forall n s, (rank s < n)%nat ->
            In s (Challenge1.required_skills self) -> In s topo).
  { induction n as [|n IH]; intros s Hr Hs; [lia|].
    destruct (in_dec string_dec s topo) as [Hin | Hno]; [exact Hin|].
    exfalso. specialize (E s Hs Hno).
    rewrite Forall_forall in Hp.
    pose proof (getitem_present db s (Hp s Hs)) as Hget.
    assert (Hpre : forall p, In p (prereqs_of db s) ->
              In p (Challenge1.required_skills self) /\ In p topo).
    { intros p Hpin.
      assert (Hpr : In p (Challenge1.required_skills self))
        by (eapply Hcl; eauto).
      split; [exact Hpr|]. apply IH; [|exact Hpr].
      specialize (Hacyc s _ Hs Hget p Hpin). lia. }
    unfold hits, indeg in E.
    assert (Hlen : (List.length (filter (fun p => mem p (Challenge1.required_skills self))
                                    (prereqs_of db s))
                    <= List.length (filter (fun c => mem c (prereqs_of db s)) topo))%nat).
    { apply NoDup_incl_length.
      - apply NoDup_filter. apply (Honce s _ Hs Hget).
      - intros p Hpin. apply filter_In in Hpin as [Hpin _].
        apply filter_In. split; [apply Hpre, Hpin | apply mem_In, Hpin]. }
    lia. }
  assert (Htt : In target topo) by (apply (Hall (S (rank target))); auto).
  auto.
Qed.

(** X3.  When the required skills form no cycle and no prerequisite
    list repeats an entry, the topological order of a constructed
    solver lists every required skill, the target included. *)
Theorem topological_sort_is_complete :
  forall (set_order : list string -> list string) (db : SkillsDB)
         (target : string) (cap : Z) (self : Challenge1.solver)
         (rank : string -> nat),
    (forall l, Permutation (set_order l) l) ->
    Challenge1.init set_order db target cap = Ok self ->
    acyclic_by db (Challenge1.required_skills self) rank ->
    prereqs_listed_once db (Challenge1.required_skills self) ->
    exists topo,
      Challenge1._topological_sort self = Ok topo /\
      In target topo /\
      Permutation topo (Challenge1.required_skills self).
Proof.
  intros set_order db target cap self rank Hperm Hi Hacyc Honce.
  apply (init_topological_complete set_order db target cap self rank); assumption.
Qed.

Definition repository_rank (s : string) : nat :=
  if String.eqb s "S6" then 3
  else if String.eqb s "S4" then 2
  else if String.eqb s "S1" then 1
  else 0.

Lemma topological_sort_is_complete_witness :
  exists topo,
    Challenge1._topological_sort repository_solver = Ok topo /\
    In TARGET_SKILL topo /\
    Permutation topo (Challenge1.required_skills repository_solver).
Proof.
  apply (topological_sort_is_complete identity_order SKILLS_DATABASE
           TARGET_SKILL 50 repository_solver repository_rank).
  - intros l. apply Permutation_refl.
  - vm_compute; reflexivity.
  - intros s entry Hs Hget p Hp. simpl in Hs.
    repeat (destruct Hs as [<- | Hs];
            [vm_compute in Hget; injection Hget as <-; simpl in Hp;
             repeat (destruct Hp as [<- | Hp]; [vm_compute; lia|]);
             destruct Hp|]).
    destruct Hs.
  - intros s entry Hs Hget. simpl in Hs.
    repeat (destruct Hs as [<- | Hs];
            [vm_compute in Hget; injection Hget as <-; simpl;
             repeat constructor; simpl; intuition discriminate|]).
    destruct Hs.
Defined.

(** ** When the minimums fit the budgets, the solver succeeds *)

(** A selection that weighs as much as the whole list, all weights
    being positive, is the whole list. *)
Lemma Subseq_sum_eq (w : string -> Z) s l :
  Subseq s l -> Forall (fun x => 0 < w x) l ->
  sumZ (map w s) = sumZ (map w l) -> s = l.
Proof.
  induction 1 as [|x s l Hs IH|x s l Hs IH]; intros Hw Heq.
  - reflexivity.
  - exfalso. inversion Hw as [|? ? Hx Hl]; subst.
    assert (Hle : sumZ (map w s) <= sumZ (map w l)).
    { apply Subseq_sum_le; [exact Hs|].
      eapply Forall_impl; [|exact Hl]. simpl. intros; lia. }
    simpl in Heq. rewrite sumZ_cons in Heq. lia.
  - inversion Hw as [|? ? Hx Hl]; subst.
    simpl in Heq. rewrite !sumZ_cons in Heq.
    f_equal. apply IH; [exact Hl | lia].
Qed.

Section CellTracking.
Import Challenge1.

(** The state [st] sits in the cell [key] of the table. *)
Definition in_cell (dp : dp_table) (key : Z * Z) (st : state) : Prop :=
  exists sts, dict_get dp key = Some sts /\ In st sts.

Lemma key_eq_dec (a b : Z * Z) : {a = b} + {a <> b}.
Proof. decide equality; apply Z.eq_dec. Qed.

Lemma dd_extend_in_cell_new d k sts st :
  In st sts -> in_cell (dd_extend d k sts) k st.
Proof.
  intros Hin. unfold dd_extend, in_cell.
  destruct (dict_get d k) as [old|]; rewrite dict_get_set_same; eexists;
    (split; [reflexivity|]); auto using in_or_app.
Qed.

Lemma dd_extend_in_cell_mono d k sts k0 st :
  in_cell d k0 st -> in_cell (dd_extend d k sts) k0 st.
Proof.
  intros (old & Hget & Hin). unfold dd_extend, in_cell.
  destruct (key_eq_dec k0 k) as [-> | Hne].
  - rewrite Hget, dict_get_set_same. eexists. split; [reflexivity|].
    apply in_or_app. left. exact Hin.
  - destruct (dict_get d k); rewrite dict_get_set_other by exact Hne; eauto.
Qed.

Lemma copy_in_cell k st (l : dp_table) : forall acc,
  in_cell acc k st \/ (exists sts, In (k, sts) l /\ In st sts) ->
  in_cell (fold_left (fun nd e => dd_extend nd (fst e) (snd e)) l acc) k st.
Proof.
  induction l as [|[k0 sts0] l IH]; intros acc Hc; simpl.
  - destruct Hc as [Hc | (sts & [] & _)]. exact Hc.
  - apply IH. destruct Hc as [Hc | (sts & [Heq | Hin] & Hst)].
    + left. apply dd_extend_in_cell_mono, Hc.
    + inversion Heq; subst. left. apply dd_extend_in_cell_new, Hst.
    + right. eauto.
Qed.

Section Transitions.
Variables (skill_id : string) (skill : Skill) (max_time max_complexity : Z).

(** The successor of [st] under the skill. *)
Definition successor (st : state) : state :=
  mkState (valor st + Valor skill) (skills st ++ [skill_id])
          (path st ++ [skill_id]).

(** The test a state passes to be extended from the cell [(t, c)]. *)
Definition admitted (t c : Z) (st : state) : Prop :=
  forallb (fun p => mem p (skills st)) (Pre_Reqs skill) = true /\
  mem skill_id (skills st) = false /\
  t + Tempo skill <= max_time /\
  c + Complexidade skill <= max_complexity.

Lemma transition_mono t c nd st k s :
  in_cell nd k s ->
  in_cell (transition skill_id skill max_time max_complexity t c nd st) k s.
Proof.
  intros Hc. unfold transition.
  destruct (negb _ || _); [exact Hc|].
  destruct (_ && _); [|exact Hc].
  apply dd_extend_in_cell_mono, Hc.
Qed.

Lemma transition_new t c nd st :
  admitted t c st ->
  in_cell (transition skill_id skill max_time max_complexity t c nd st)
          (t + Tempo skill, c + Complexidade skill) (successor st).
Proof.
  intros (H1 & H2 & H3 & H4). unfold transition.
  rewrite H1, H2. simpl.
  apply Z.leb_le in H3, H4. rewrite H3, H4. simpl.
  apply dd_extend_in_cell_new. left. reflexivity.
Qed.

Lemma transitions_mono t c sts : forall nd k s,
  in_cell nd k s ->
  in_cell (fold_left (transition skill_id skill max_time max_complexity t c) sts nd)
          k s.
Proof.
  induction sts as [|st sts IH]; intros nd k s Hc; simpl; [exact Hc|].
  apply IH, transition_mono, Hc.
Qed.

Lemma transitions_new t c sts st : forall nd,
  In st sts -> admitted t c st ->
  in_cell (fold_left (transition skill_id skill max_time max_complexity t c) sts nd)
          (t + Tempo skill, c + Complexidade skill) (successor st).
Proof.
  induction sts as [|st0 sts IH]; intros nd Hin Ha; [destruct Hin|].
  simpl. destruct Hin as [-> | Hin].
  - apply transitions_mono, transition_new, Ha.
  - apply IH; assumption.
Qed.

Lemma extend_mono (l : dp_table) : forall nd k s,
  in_cell nd k s ->
  in_cell
    (fold_left
       (fun nd e =>
          fold_left
            (transition skill_id skill max_time max_complexity
               (fst (fst e)) (snd (fst e)))
            (snd e) nd)
       l nd) k s.
Proof.
  induction l as [|e l IH]; intros nd k s Hc; simpl; [exact Hc|].
  apply IH, transitions_mono, Hc.
Qed.

Lemma extend_new (l : dp_table) t c sts st : forall nd,
  In ((t, c), sts) l -> In st sts -> admitted t c st ->
  in_cell
    (fold_left
       (fun nd e =>
          fold_left
            (transition skill_id skill max_time max_complexity
               (fst (fst e)) (snd (fst e)))
            (snd e) nd)
       l nd)
    (t + Tempo skill, c + Complexidade skill) (successor st).
Proof.
  induction l as [|e l IH]; intros nd Hin Hst Ha; [destruct Hin|].
  simpl. destruct Hin as [-> | Hin].
  - apply extend_mono. simpl. apply transitions_new; assumption.
  - apply IH; assumption.
Qed.
End Transitions.

Lemma prune_nonempty self sts :
  1 <= max_states_per_cell self -> sts <> [] ->
  _prune_dominated_states self sts <> [].
Proof.
  intros Hcap Hne. unfold _prune_dominated_states.
  destruct (Z.of_nat (List.length sts) <=? max_states_per_cell self); [exact Hne|].
  unfold slice_to.
  replace (0 <=? max_states_per_cell self) with true
    by (symmetry; apply Z.leb_le; lia).
  destruct (map fst (sort_desc Z.ltb (map (fun st => (st, valor st)) sts)))
    as [|x l] eqn:E.
  - exfalso. apply Hne.
    assert (Hp : Permutation
              (map fst (sort_desc Z.ltb (map (fun st => (st, valor st)) sts))) sts).
    { eapply Permutation_trans; [apply Permutation_map, sort_desc_perm|].
      rewrite map_map. simpl. rewrite map_id. reflexivity. }
    rewrite E in Hp. apply Permutation_nil in Hp. exact Hp.
  - destruct (Z.to_nat (max_states_per_cell self)) eqn:En; [lia|].
    simpl. discriminate.
Qed.

(** One pass of the outer loop keeps, in the cell of the successor of
    an admitted state, some state of that cell. *)
Lemma process_skill_keeps self mt mc dp skill_id dp' skill t c sts st :
  process_skill self mt mc dp skill_id = Ok dp' ->
  getitem (skills_db self) skill_id = Ok skill ->
  1 <= max_states_per_cell self ->
  In ((t, c), sts) dp -> In st sts ->
  admitted skill_id skill mt mc t c st ->
  exists sts' st',
    In ((t + Tempo skill, c + Complexidade skill), sts') dp' /\ In st' sts'.
Proof.
  unfold process_skill. intros Hp Hget Hcap Hin Hst Ha.
  rewrite Hget in Hp. simpl in Hp. injection Hp as <-.
  destruct (extend_new skill_id skill mt mc dp t c sts st
              (fold_left (fun nd e => dd_extend nd (fst e) (snd e)) dp [])
              Hin Hst Ha) as (cell & Hcell & Hnew).
  apply dict_get_In in Hcell.
  assert (Hne : _prune_dominated_states self cell <> []).
  { apply prune_nonempty; [exact Hcap|]. intros ->. destruct Hnew. }
  destruct (_prune_dominated_states self cell) as [|st' pruned] eqn:E;
    [congruence|].
  exists (st' :: pruned), st'. split; [|left; reflexivity].
  apply in_map_iff. eexists. split; [|exact Hcell]. simpl. rewrite E. reflexivity.
Qed.

(** The final scan finds something as soon as a state holds the target
    with a value above [-1]. *)
Lemma pick_best_some target sts : forall best,
  (snd best <> None \/ fst best = -1) ->
  let best' := fold_left (pick_best target) sts best in
  (snd best' <> None \/ fst best' = -1) /\
  (snd best <> None -> snd best' <> None) /\
  ((exists st, In st sts /\ mem target (skills st) = true /\ -1 < valor st) ->
   snd best' <> None).
Proof.
  induction sts as [|s sts IH]; intros best Hb; simpl.
  - repeat split; auto. intros (st & [] & _).
  - assert (Hstep : (snd (pick_best target best s) <> None
                     \/ fst (pick_best target best s) = -1) /\
                    (snd best <> None -> snd (pick_best target best s) <> None) /\
                    (mem target (skills s) = true -> -1 < valor s ->
                     snd (pick_best target best s) <> None)).
    { unfold pick_best.
      destruct (mem target (skills s)) eqn:Em; simpl.
      - destruct (fst best <? valor s) eqn:El; simpl.
        + repeat split; try discriminate. left. discriminate.
        + apply Z.ltb_ge in El. repeat split; auto.
          intros _ Hv. destruct Hb as [Hb | Hb]; [exact Hb | lia].
      - repeat split; auto. discriminate. }
    destruct Hstep as (S1 & S2 & S3).
    destruct (IH _ S1) as (I1 & I2 & I3).
    repeat split; auto.
    intros (st & [<- | Hin] & Hm & Hv); [auto|].
    apply I3. eauto.
Qed.

Lemma best_state_some target (dp : dp_table) k sts st :
  In (k, sts) dp -> In st sts ->
  mem target (skills st) = true -> -1 < valor st ->
  best_state target dp <> None.
Proof.
  intros Hin Hst Hm Hv. unfold best_state.
  assert (G : forall best,
    (snd best <> None \/ fst best = -1) ->
    let best' :=
      fold_left (fun best e => fold_left (pick_best target) (snd e) best) dp best in
    (snd best' <> None \/ fst best' = -1) /\
    (snd best <> None -> snd best' <> None) /\
    snd best' <> None).
  { revert Hin. induction dp as [|[k0 sts0] dp IH]; intros Hin best Hb; [destruct Hin|].
    simpl. destruct (pick_best_some target sts0 best Hb) as (P1 & P2 & P3).
    destruct Hin as [Heq | Hin].
    - inversion Heq; subst.
      assert (Hs : snd (fold_left (pick_best target) sts best) <> None)
        by (apply P3; eauto).
      clear IH. revert Hs P1.
      generalize (fold_left (pick_best target) sts best) as b.
      induction dp as [|[k1 sts1] dp IH']; intros b Hs P1; simpl; [auto|].
      destruct (pick_best_some target sts1 b P1) as (Q1 & Q2 & _).
      apply IH'; auto.
    - destruct (IH Hin _ P1) as (R1 & R2 & R3). auto. }
  apply (G (-1, None)). right. reflexivity.
Qed.

End CellTracking.

(** Beyond the accounting of its cell, a state's path follows the order
    of the skills processed and its value is the sum over its path. *)
Definition state_ordered (db : SkillsDB) (max_time max_complexity : Z)
    (done : list string) (k : Z * Z) (st : Challenge1.state) : Prop :=
  state_accounted db max_time max_complexity done k st /\
  Subseq (Challenge1.path st) done /\
  Challenge1.valor st = sum_valor db (Challenge1.path st).

Lemma state_ordered_weaken db mt mc done x k st :
  state_ordered db mt mc done k st -> state_ordered db mt mc (done ++ [x]) k st.
Proof.
  intros ((A & B & C & D & E & F) & G & H).
  repeat split; auto.
  - apply incl_appl, C.
  - apply Subseq_app_r, G.
Qed.

Lemma state_ordered_step db mt mc done skill_id skill t c st :
  getitem db skill_id = Ok skill ->
  state_ordered db mt mc done (t, c) st ->
  mem skill_id (Challenge1.skills st) = false ->
  t + Tempo skill <= mt -> c + Complexidade skill <= mc ->
  state_ordered db mt mc (done ++ [skill_id])
    (t + Tempo skill, c + Complexidade skill)
    (successor skill_id skill st).
Proof.
  intros Hget ((A & B & C & D & E & F) & G & H) Hmem Ht Hc.
  simpl in D, E. pose proof (getitem_skill_of _ _ _ Hget) as Hsk.
  unfold successor. repeat split; simpl.
  - congruence.
  - apply NoDup_app; [exact B | repeat constructor; intros [] |].
    intros x Hx [<- | []]. rewrite A in Hmem. apply mem_In in Hx. congruence.
  - apply incl_app; [apply incl_appl, C | apply incl_appr, incl_refl].
  - rewrite sum_tempo_app, sum_tempo_single, Hsk. lia.
  - rewrite sum_complexidade_app, sum_complexidade_single, Hsk. lia.
  - right. split; assumption.
  - apply Subseq_snoc, G.
  - rewrite sum_valor_app, sum_valor_single, Hsk. lia.
Qed.

Lemma tables_ordered self mt mc todo done dp dp' :
  foldM (Challenge1.process_skill self mt mc) todo dp = Ok dp' ->
  all_states (state_ordered (Challenge1.skills_db self) mt mc done) dp ->
  all_states (state_ordered (Challenge1.skills_db self) mt mc (done ++ todo)) dp'.
Proof.
  intros Hf.
  apply (process_skills_all (state_ordered (Challenge1.skills_db self) mt mc)
           self mt mc todo done _ _ Hf).
  - intros skill_id _ d k st. apply state_ordered_weaken.
  - intros skill_id _ d skill t c st Hget Hst _ Hmem Ht Hc.
    apply state_ordered_step; assumption.
Qed.

Lemma initial_ordered db mt mc :
  all_states (state_ordered db mt mc []) Challenge1.dp_initial.
Proof.
  intros k sts st [Heq | []] Hst. inversion Heq; subst.
  destruct Hst as [<- | []].
  repeat split; simpl; auto using incl_refl; constructor.
Qed.

(** The skills of the order cost a positive time and have non-negative
    complexity and value. *)
Definition positive_costs (db : SkillsDB) (l : list string) : Prop :=
  Forall (fun s => 0 < Tempo (skill_of db s) /\
                   0 <= Complexidade (skill_of db s) /\
                   0 <= Valor (skill_of db s)) l.

Lemma sum_nonneg (w : string -> Z) l :
  Forall (fun s => 0 <= w s) l -> 0 <= sumZ (map w l).
Proof.
  induction 1; simpl; [unfold sumZ; simpl; lia|]. rewrite sumZ_cons. lia.
Qed.

(** The state that takes every skill of the order survives every pass. *)
Lemma full_state_survives self mt mc topo :
  let db := Challenge1.skills_db self in
  NoDup topo -> Forall (present db) topo ->
  topological_linearization db topo ->
  positive_costs db topo ->
  1 <= Challenge1.max_states_per_cell self ->
  sum_tempo db topo <= mt -> sum_complexidade db topo <= mc ->
  forall todo done dp dp',
    topo = done ++ todo ->
    foldM (Challenge1.process_skill self mt mc) todo dp = Ok dp' ->
    all_states (state_ordered db mt mc done) dp ->
    (exists sts st, In ((sum_tempo db done, sum_complexidade db done), sts) dp /\
                    In st sts) ->
    exists sts st,
      In ((sum_tempo db topo, sum_complexidade db topo), sts) dp' /\ In st sts.
Proof.
  intros db Hnd Hp Hlin Hpos Hcap Hmt Hmc.
  induction todo as [|x todo IH]; intros done dp dp' Htopo Hf Hall Hfull.
  - simpl in Hf. injection Hf as <-. rewrite app_nil_r in Htopo. subst done.
    exact Hfull.
  - simpl in Hf. apply bind_ok_inv in Hf as (dp1 & H1 & Hf).
    destruct Hfull as (sts & st & Hin & Hst).
    destruct (Hall _ _ _ Hin Hst) as ((A & B & C & D & E & F) & G & H).
    simpl in D, E.
    (* the state in the cell of the whole prefix is the prefix *)
    assert (Hpath : Challenge1.path st = done).
    { apply (Subseq_sum_eq (fun s => Tempo (skill_of db s))); [exact G | | ].
      - unfold positive_costs in Hpos. rewrite Htopo in Hpos.
        apply Forall_app in Hpos as [Hd _].
        eapply Forall_impl; [|exact Hd]. simpl. intros s Hs. apply Hs.
      - symmetry. exact D. }
    assert (Hx : In x topo).
    { rewrite Htopo. apply in_or_app. right. left. reflexivity. }
    rewrite Forall_forall in Hp.
    pose proof (getitem_present db x (Hp x Hx)) as Hget.
    assert (Hadm : admitted x (skill_of db x) mt mc
                     (sum_tempo db done) (sum_complexidade db done) st).
    { assert (Hsplit : topo = (done ++ [x]) ++ todo)
        by (rewrite <- app_assoc; exact Htopo).
      unfold positive_costs in Hpos. rewrite Hsplit in Hpos.
      apply Forall_app in Hpos as [_ Hrest].
      assert (Ht : 0 <= sum_tempo db todo).
      { apply sum_nonneg. eapply Forall_impl; [|exact Hrest]. simpl. intros; lia. }
      assert (Hc : 0 <= sum_complexidade db todo).
      { apply sum_nonneg. eapply Forall_impl; [|exact Hrest]. simpl. intros; lia. }
      rewrite Hsplit in Hmt, Hmc.
      rewrite sum_tempo_app, sum_tempo_app, sum_tempo_single in Hmt.
      rewrite sum_complexidade_app, sum_complexidade_app,
        sum_complexidade_single in Hmc.
      repeat split; try lia.
      - apply forallb_forall. intros p Hpin. rewrite A, Hpath.
        apply mem_In. apply (Hlin done x todo _ Htopo Hget p Hpin).
      - rewrite A, Hpath. apply mem_false_In. intros Hin'.
        rewrite Htopo in Hnd. apply NoDup_remove_2 in Hnd.
        apply Hnd, in_or_app. left. exact Hin'. }
    destruct (process_skill_keeps self mt mc dp x dp1 _ _ _ sts st
                H1 Hget Hcap Hin Hst Hadm) as (sts' & st' & Hin' & Hst').
    apply (IH (done ++ [x]) dp1 dp').
    + rewrite <- app_assoc. exact Htopo.
    + exact Hf.
    + apply (tables_ordered self mt mc [x] done dp dp1); [|exact Hall].
      simpl. rewrite H1. reflexivity.
    + exists sts', st'.
      rewrite sum_tempo_app, sum_tempo_single,
        sum_complexidade_app, sum_complexidade_single.
      split; assumption.
Qed.

(** The shape of a failed run. *)
Lemma solve_deterministic_notfound self mt mc message :
  Challenge1.solve_deterministic self mt mc = Ok (Challenge1.NotFound message) ->
  exists topo dp,
    Challenge1._topological_sort self = Ok topo /\
    foldM (Challenge1.process_skill self mt mc) topo Challenge1.dp_initial = Ok dp /\
    Challenge1.best_state (Challenge1.target self) dp = None.
Proof.
  unfold Challenge1.solve_deterministic. intros Hs.
  apply bind_ok_inv in Hs as (topo & Htopo & Hs).
  apply bind_ok_inv in Hs as (dp & Hdp & Hs).
  destruct (Challenge1.best_state (Challenge1.target self) dp) as [st|] eqn:Eb.
  - apply bind_ok_inv in Hs as (tt' & _ & Hs).
    apply bind_ok_inv in Hs as (tc' & _ & Hs). discriminate.
  - exists topo, dp. auto.
Qed.

Lemma feasible_solve :
  forall (set_order : list string -> list string) (db : SkillsDB)
         (target : string) (cap : Z) (self : Challenge1.solver)
         (max_time max_complexity : Z) (topo : list string),
    (forall l, Permutation (set_order l) l) ->
    Challenge1.init set_order db target cap = Ok self ->
    Challenge1._topological_sort self = Ok topo ->
    In target topo ->
    positive_costs db topo ->
    1 <= cap ->
    Challenge1.min_feasible_time self <= max_time ->
    Challenge1.min_feasible_complexity self <= max_complexity ->
    Challenge1.solve_deterministic self max_time max_complexity
      = Ok (Challenge1.Found topo (sum_valor db topo)
              (Challenge1.min_feasible_time self)
              (Challenge1.min_feasible_complexity self)).
Proof.
  intros set_order db target cap self mt mc topo Hperm Hi Htopo Htt Hpos Hcap Hmt Hmc.
  destruct (init_topological_order _ _ _ _ _ Hperm Hi)
    as (topo' & Htopo' & Hnd & Hincl & Hp & Hlin & _ & _).
  rewrite Htopo in Htopo'. injection Htopo' as <-.
  pose proof Hi as Hi'.
  apply init_inv in Hi' as (R & topo' & acq & HR & Hself & Htopo2 & _ & Hnda & Hset & _).
  assert (Hdb : Challenge1.skills_db self = db) by (subst self; reflexivity).
  assert (Htg : Challenge1.target self = target) by (subst self; reflexivity).
  assert (Hcp : Challenge1.max_states_per_cell self = cap) by (subst self; reflexivity).
  assert (Heq : topo' = topo).
  { unfold Challenge1._topological_sort in Htopo. subst self. simpl in Htopo.
    congruence. }
  subst topo'.
  assert (HP : Permutation acq topo).
  { apply NoDup_Permutation; auto. }
  assert (Hmin_t : Challenge1.min_feasible_time self = sum_tempo db topo).
  { subst self. simpl. apply sum_tempo_perm, HP. }
  assert (Hmin_c : Challenge1.min_feasible_complexity self = sum_complexidade db topo).
  { subst self. simpl. apply sum_complexidade_perm, HP. }
  (* the run does not fail *)
  destruct (solve_deterministic_total _ _ _ _ _ mt mc Hi)
    as [(p & tv & tt & tc & Hs) | Hs].
  - destruct (found_within_minimums _ _ _ _ _ _ _ _ _ _ _ Hperm Hi Hs)
      as (_ & _ & -> & ->).
    pose proof Hs as Hs'.
    apply solve_deterministic_found in Hs'
      as (topo' & dp & k & sts & st & Ht' & Hdp & Hin & Hst & Hm & -> & -> & Htt' & _).
    rewrite Htopo in Ht'. injection Ht' as <-.
    pose proof (tables_ordered self mt mc topo [] _ _ Hdp
                  (initial_ordered _ mt mc) k sts st Hin Hst)
      as ((A & B & C & D & E & F) & G & H).
    simpl in G. rewrite Hdb in *.
    assert (Hpp : Forall (present db) (Challenge1.path st)).
    { rewrite Forall_forall in *. intros x Hx. apply Hp, C, Hx. }
    rewrite (sum_field_present1 db _ _ Hpp) in Htt'. injection Htt' as Htt'.
    fold (sum_tempo db (Challenge1.path st)) in Htt'.
    assert (Hpath : Challenge1.path st = topo).
    { apply (Subseq_sum_eq (fun s => Tempo (skill_of db s))); [exact G | |].
      - eapply Forall_impl; [|exact Hpos]. simpl. intros s Hs0. apply Hs0.
      - fold (sum_tempo db (Challenge1.path st)). fold (sum_tempo db topo). lia. }
    rewrite Hs, Hpath, H, Hpath. reflexivity.
  - exfalso. apply solve_deterministic_notfound in Hs as (topo' & dp & Ht' & Hdp & Hb).
    rewrite Htopo in Ht'. injection Ht' as <-.
    destruct (full_state_survives self mt mc topo) with
      (todo := topo) (done := @nil string) (dp := Challenge1.dp_initial) (dp' := dp)
      as (sts & st & Hin & Hst); rewrite ?Hdb, ?Hcp; auto; try lia.
    + apply initial_ordered.
    + exists [Challenge1.mkState 0 [] []], (Challenge1.mkState 0 [] []).
      split; left; reflexivity.
    + pose proof (tables_ordered self mt mc topo [] _ _ Hdp
                    (initial_ordered _ mt mc) _ sts st Hin Hst)
        as ((A & B & C & D & E & F) & G & H).
      simpl in D, G. rewrite Hdb in *.
      assert (Hpath : Challenge1.path st = topo).
      { apply (Subseq_sum_eq (fun s => Tempo (skill_of db s))); [exact G | |].
        - eapply Forall_impl; [|exact Hpos]. simpl. intros s Hs0. apply Hs0.
        - symmetry. exact D. }
      apply (best_state_some (Challenge1.target self) dp _ sts st Hin Hst).
      * rewrite Htg, A, Hpath. apply mem_In, Htt.
      * rewrite H, Hpath.
        assert (0 <= sum_valor db topo); [|lia].
        apply sum_nonneg. eapply Forall_impl; [|exact Hpos]. simpl. intros; lia.
      * exact Hb.
Qed.

(** X4.  The converse of the feasibility pre-check.  When the
    topological order reaches the target, the skills cost a positive
    time and have non-negative complexity and value, at least one state
    is kept per cell, and both minimums fit their budgets, then
    [solve_deterministic] succeeds: its path is the topological order
    itself, its value the sum of the values along it, and its time and
    complexity are the two minimums. *)
Theorem feasible_minimums_succeed :
  forall (set_order : list string -> list string) (db : SkillsDB)
         (target : string) (cap : Z) (self : Challenge1.solver)
         (max_time max_complexity : Z) (topo : list string),
    (forall l, Permutation (set_order l) l) ->
    Challenge1.init set_order db target cap = Ok self ->
    Challenge1._topological_sort self = Ok topo ->
    In target topo ->
    positive_costs db topo ->
    1 <= cap ->
    Challenge1.min_feasible_time self <= max_time ->
    Challenge1.min_feasible_complexity self <= max_complexity ->
    Challenge1.solve_deterministic self max_time max_complexity
      = Ok (Challenge1.Found topo (sum_valor db topo)
              (Challenge1.min_feasible_time self)
              (Challenge1.min_feasible_complexity self)).
Proof.
  intros set_order db target cap self mt mc topo Hperm Hi Htopo Htt Hpos Hcap Hmt Hmc.
  apply (feasible_solve set_order db target cap self mt mc topo); assumption.
Qed.

Lemma feasible_minimums_succeed_witness :
  Challenge1.solve_deterministic repository_solver 440 31
    = Ok (Challenge1.Found ["H2"; "H1"; "H3"; "S1"; "S4"; "S6"]
            (sum_valor SKILLS_DATABASE ["H2"; "H1"; "H3"; "S1"; "S4"; "S6"])
            (Challenge1.min_feasible_time repository_solver)
            (Challenge1.min_feasible_complexity repository_solver)).
Proof.
  apply (feasible_minimums_succeed identity_order SKILLS_DATABASE TARGET_SKILL 50
           repository_solver 440 31).
  - intros l. apply Permutation_refl.
  - vm_compute; reflexivity.
  - vm_compute; reflexivity.
  - vm_compute. tauto.
  - repeat constructor; vm_compute; try reflexivity; intros H; discriminate H.
  - lia.
  - vm_compute. intros H; discriminate H.
  - vm_compute. intros H; discriminate H.
Defined.

(** ** When [__init__] succeeds and how it fails *)

(** Every prerequisite entry of the table names a skill of the table. *)
Definition no_dangling (db : SkillsDB) : Prop :=
  forall s entry p,
    In (s, entry) db -> In p (Pre_Reqs entry) -> dict_get db p <> None.

Lemma required_loop_raise db : forall fuel required to_process e,
  Challenge1.required_loop fuel db required to_process = Raise e ->
  e = FuelExhausted \/ exists k, e = KeyError k /\ dict_get db k = None.
Proof.
  induction fuel as [|fuel IH]; intros required to_process e Hr.
  - destruct to_process; simpl in Hr; [discriminate|]. left. congruence.
  - destruct to_process as [|skill rest]; simpl in Hr; [discriminate|].
    destruct (mem skill required); [eapply IH; eauto|].
    unfold getitem in Hr. destruct (dict_get db skill) as [entry|] eqn:Eg; simpl in Hr.
    + eapply IH; eauto.
    + right. exists skill. split; [congruence | exact Eg].
Qed.

Lemma required_loop_present db : no_dangling db ->
  forall fuel required to_process e,
    Forall (present db) to_process ->
    Challenge1.required_loop fuel db required to_process = Raise e ->
    e = FuelExhausted.
Proof.
  intros Hnd. induction fuel as [|fuel IH]; intros required to_process e Hp Hr.
  - destruct to_process; simpl in Hr; [discriminate | congruence].
  - destruct to_process as [|skill rest]; simpl in Hr; [discriminate|].
    inversion Hp as [|? ? Hs Hrest]; subst.
    destruct (mem skill required); [eapply IH; eauto|].
    rewrite (getitem_present db skill Hs) in Hr. simpl in Hr.
    eapply IH; [|exact Hr]. apply Forall_app. split; [|exact Hrest].
    apply Forall_forall. intros p Hpin. apply in_rev in Hpin.
    unfold present, skill_of in *.
    destruct (dict_get db skill) as [entry|] eqn:Eg; [|congruence].
    apply (Hnd skill entry p); [apply dict_get_In, Eg | exact Hpin].
Qed.

Lemma minimum_steps_total db topo : forall st,
  Forall (present db) topo ->
  exists st', foldM (Challenge1.minimum_step db) topo st = Ok st'.
Proof.
  induction topo as [|s topo IH]; intros st Hp; simpl; [eauto|].
  inversion Hp as [|? ? Hs Hrest]; subst.
  unfold Challenge1.minimum_step at 1. destruct st as [[acq tt] tc].
  destruct (mem s acq); simpl; [apply IH, Hrest|].
  rewrite (getitem_present db s Hs). simpl. apply IH, Hrest.
Qed.

(** Once the closure is collected, nothing else in [__init__] raises. *)
Lemma init_total set_order db target cap R :
  (forall l, Permutation (set_order l) l) ->
  Challenge1.required_loop (Challenge1.required_fuel db) db [] [target] = Ok R ->
  exists self, Challenge1.init set_order db target cap = Ok self.
Proof.
  intros Hperm HR.
  destruct (required_loop_inv db _ _ _ _ HR) as (A & B & _);
    [constructor | constructor | intros s entry [] |].
  assert (Hnd : NoDup (set_order R)).
  { eapply Permutation_NoDup; [apply Permutation_sym, Hperm | exact A]. }
  assert (Hp : Forall (present db) (set_order R)).
  { eapply Permutation_Forall; [apply Permutation_sym, Hperm | exact B]. }
  destruct (topological_sort_total db (set_order R) Hnd Hp) as (topo & Htopo).
  destruct (topological_sort_linear db (set_order R) Hnd Hp topo Htopo)
    as (_ & Hincl & _).
  destruct (minimum_steps_total db topo ([], 0, 0)) as (st & Hst).
  { rewrite Forall_forall in *. intros x Hx. apply Hp, Hincl, Hx. }
  unfold Challenge1.init, Challenge1._get_required_skills,
    Challenge1.minimum_path_of.
  rewrite HR. cbn [bind]. rewrite Htopo. cbn [bind]. rewrite Hst. cbn [bind].
  eauto.
Qed.

Lemma init_ok_without_dangling :
  forall (set_order : list string -> list string) (db : SkillsDB)
         (target : string) (cap : Z),
    (forall l, Permutation (set_order l) l) ->
    no_dangling db ->
    dict_get db target <> None ->
    exists self, Challenge1.init set_order db target cap = Ok self.
Proof.
  intros set_order db target cap Hperm Hnd Ht.
  destruct (Challenge1.required_loop (Challenge1.required_fuel db) db [] [target])
    as [R | e] eqn:HR.
  - eapply init_total; eauto.
  - exfalso.
    assert (He : e = FuelExhausted).
    { eapply required_loop_present; [exact Hnd | | exact HR].
      constructor; [exact Ht | constructor]. }
    subst e.
    pose proof (get_required_skills_clean (fun l => l) db target) as Hc.
    unfold clean, Challenge1._get_required_skills in Hc. rewrite HR in Hc.
    apply Hc. reflexivity.
Qed.

(** X5.  [__init__] succeeds on every table without dangling
    prerequisite whose target is in the table. *)
Theorem init_succeeds_without_dangling :
  forall (set_order : list string -> list string) (db : SkillsDB)
         (target : string) (cap : Z),
    (forall l, Permutation (set_order l) l) ->
    no_dangling db ->
    dict_get db target <> None ->
    exists self, Challenge1.init set_order db target cap = Ok self.
Proof.
  intros set_order db target cap Hperm Hnd Ht.
  apply (init_ok_without_dangling set_order db target cap); assumption.
Qed.

Lemma repository_no_dangling : no_dangling SKILLS_DATABASE.
Proof.
  intros s entry p Hin Hp. simpl in Hin.
  repeat (destruct Hin as [Heq | Hin];
          [injection Heq as <- <-; simpl in Hp;
           repeat (destruct Hp as [<- | Hp]; [vm_compute; discriminate|]);
           destruct Hp|]).
  destruct Hin.
Qed.

Lemma init_succeeds_without_dangling_witness :
  exists self,
    Challenge1.init identity_order SKILLS_DATABASE TARGET_SKILL 50 = Ok self.
Proof.
  apply (init_succeeds_without_dangling identity_order SKILLS_DATABASE
           TARGET_SKILL 50).
  - intros l. apply Permutation_refl.
  - exact repository_no_dangling.
  - vm_compute. discriminate.
Defined.

(** X6.  The only way [__init__] fails is a [KeyError] naming an
    identifier that is not in the table: the target itself or a
    prerequisite reached from it. *)
Theorem init_failure_names_missing_skill :
  forall (set_order : list string -> list string) (db : SkillsDB)
         (target : string) (cap : Z) (e : exn),
    (forall l, Permutation (set_order l) l) ->
    Challenge1.init set_order db target cap = Raise e ->
    exists k, e = KeyError k /\ dict_get db k = None.
Proof.
  intros set_order db target cap e Hperm Hi.
  destruct (Challenge1.required_loop (Challenge1.required_fuel db) db [] [target])
    as [R | e'] eqn:HR.
  - destruct (init_total set_order db target cap R Hperm HR) as (self & Hs).
    congruence.
  - assert (He : e = e').
    { unfold Challenge1.init, Challenge1._get_required_skills in Hi.
      rewrite HR in Hi. simpl in Hi. congruence. }
    subst e'.
    destruct (required_loop_raise db _ _ _ _ HR) as [-> | Hk]; [|exact Hk].
    exfalso. apply (init_clean set_order db target cap). exact Hi.
Qed.

Lemma init_failure_names_missing_skill_witness :
  exists k, KeyError "X" = KeyError k /\ dict_get SKILLS_DATABASE k = None.
Proof.
  apply (init_failure_names_missing_skill identity_order SKILLS_DATABASE "X" 50).
  - intros l. apply Permutation_refl.
  - vm_compute; reflexivity.
Defined.

(** ** [run_challenge1] *)

(** X7.  The limits [run_challenge1] solves under always pass
    [check_feasibility], for every solver: either the configured
    budgets do, or the limits are the minimums plus 50 hours and 6
    points. *)
Theorem challenge_limits_are_feasible :
  forall self : Challenge1.solver,
    fst (Challenge1.check_feasibility self
           (fst (Challenge1.challenge_limits self))
           (snd (Challenge1.challenge_limits self))) = true /\
    (fst (Challenge1.check_feasibility self MAX_TIME MAX_COMPLEXITY) = false ->
     Challenge1.challenge_limits self
       = (Challenge1.min_feasible_time self + 50,
          Challenge1.min_feasible_complexity self + 6)).
Proof.
  intros self. unfold Challenge1.challenge_limits.
  destruct (fst (Challenge1.check_feasibility self MAX_TIME MAX_COMPLEXITY)) eqn:E;
    simpl.
  - split; [exact E | discriminate].
  - split; [|reflexivity]. unfold Challenge1.check_feasibility.
    replace (Challenge1.min_feasible_time self
             <=? Challenge1.min_feasible_time self + 50) with true
      by (symmetry; apply Z.leb_le; lia).
    replace (Challenge1.min_feasible_complexity self
             <=? Challenge1.min_feasible_complexity self + 6) with true
      by (symmetry; apply Z.leb_le; lia).
    reflexivity.
Qed.

Definition repository_closure : list string :=
  ["S6"; "S4"; "S1"; "H2"; "H1"; "H3"].

Lemma repository_closure_facts (P : string -> Skill -> Prop) :
  P "S6" (mkSkill 40 120 9 ["S4"]) ->
  P "S4" (mkSkill 30 100 8 ["H2"; "H3"; "S1"]) ->
  P "S1" (mkSkill 18 70 5 ["H1"; "H2"]) ->
  P "H2" (mkSkill 12 50 3 []) ->
  P "H1" (mkSkill 10 40 2 []) ->
  P "H3" (mkSkill 15 60 4 []) ->
  forall s, In s repository_closure -> P s (skill_of SKILLS_DATABASE s).
Proof.
  intros H1 H2 H3 H4 H5 H6 s Hs. simpl in Hs.
  repeat (destruct Hs as [<- | Hs]; [assumption|]). destruct Hs.
Qed.

(** X8.  Whatever order Python enumerates the set of required skills
    in, the deterministic part of [run_challenge1] succeeds on the
    repository's table: the configured budgets 350 and 30 are not
    feasible, the solver runs under 490 and 37, and it returns a
    topological linearization of the six skills S6 requires, of value
    125, time 440 and complexity 31. *)
Theorem run_challenge1_finds_the_closure :
  forall set_order : list string -> list string,
    (forall l, Permutation (set_order l) l) ->
    exists path,
      Challenge1.run_challenge1_deterministic set_order
        = Ok (Challenge1.Found path 125 440 31) /\
      Permutation path repository_closure /\
      topological_linearization SKILLS_DATABASE path.
Proof.
  intros set_order Hperm.
  destruct (init_ok_without_dangling set_order SKILLS_DATABASE TARGET_SKILL 50
              Hperm repository_no_dangling) as (self & Hi);
    [vm_compute; discriminate|].
  pose proof Hi as Hi'.
  apply init_inv in Hi' as (R & topo0 & acq & HR & Hself & _).
  assert (HRv : R = repository_closure).
  { vm_compute in HR. injection HR as <-. reflexivity. }
  subst R.
  assert (Hreq : Challenge1.required_skills self = set_order repository_closure)
    by (subst self; reflexivity).
  assert (Hin : forall s, In s (Challenge1.required_skills self) ->
                          In s repository_closure).
  { intros s Hs. rewrite Hreq in Hs. eapply Permutation_in; [apply Hperm | exact Hs]. }
  destruct (init_topological_complete set_order SKILLS_DATABASE TARGET_SKILL 50
              self repository_rank Hperm Hi) as (topo & Htopo & Htt & HP).
  { intros s entry Hs Hget p Hp.
    rewrite <- (getitem_skill_of _ _ _ Hget) in Hp. revert p Hp.
    apply (repository_closure_facts
             (fun s e => forall p, In p (Pre_Reqs e) ->
                                   (repository_rank p < repository_rank s)%nat));
      [| | | | | | apply Hin, Hs]; simpl; intros p Hp;
      repeat (destruct Hp as [<- | Hp]; [vm_compute; lia|]); destruct Hp. }
  { intros s entry Hs Hget. rewrite <- (getitem_skill_of _ _ _ Hget).
    apply (repository_closure_facts (fun s e => NoDup (Pre_Reqs e)));
      [| | | | | | apply Hin, Hs]; simpl; repeat constructor; simpl;
      intuition discriminate. }
  assert (HPc : Permutation topo repository_closure).
  { rewrite Hreq in HP. eapply Permutation_trans; [exact HP | apply Hperm]. }
  assert (Hpos : positive_costs SKILLS_DATABASE topo).
  { apply Forall_forall. intros s Hs.
    apply (repository_closure_facts
             (fun s e => 0 < Tempo e /\ 0 <= Complexidade e /\ 0 <= Valor e));
      [| | | | | | eapply Permutation_in; [exact HPc | exact Hs]]; simpl; lia. }
  destruct (init_topological_order _ _ _ _ _ Hperm Hi)
    as (topo' & Htopo' & Hnd & _ & _ & Hlin & _).
  rewrite Htopo in Htopo'. injection Htopo' as <-.
  (* the minimums are those of the closure *)
  pose proof Hi as Hi2.
  apply init_inv in Hi2 as (R2 & topo2 & acq2 & _ & Hself2 & Htopo2 & _ & Hnda & Hset & _).
  assert (Heq2 : topo2 = topo).
  { unfold Challenge1._topological_sort in Htopo. rewrite Hself2 in Htopo.
    simpl in Htopo. congruence. }
  subst topo2.
  assert (HPa : Permutation acq2 repository_closure).
  { eapply Permutation_trans; [|exact HPc]. apply NoDup_Permutation; auto. }
  assert (Hmt : Challenge1.min_feasible_time self = 440).
  { rewrite Hself2. simpl. rewrite (sum_tempo_perm _ _ _ HPa). reflexivity. }
  assert (Hmc : Challenge1.min_feasible_complexity self = 31).
  { rewrite Hself2. simpl. rewrite (sum_complexidade_perm _ _ _ HPa). reflexivity. }
  assert (Hlim : Challenge1.challenge_limits self = (490, 37)).
  { unfold Challenge1.challenge_limits, Challenge1.check_feasibility.
    rewrite Hmt, Hmc. reflexivity. }
  exists topo. split; [|split; assumption].
  unfold Challenge1.run_challenge1_deterministic. rewrite Hi. cbn [bind].
  rewrite Hlim. cbn [fst snd].
  rewrite (feasible_solve set_order SKILLS_DATABASE TARGET_SKILL 50 self 490 37 topo
             Hperm Hi Htopo Htt Hpos); try lia.
  rewrite Hmt, Hmc, (sum_valor_perm _ _ _ HPc). reflexivity.
Qed.

Lemma run_challenge1_finds_the_closure_witness :
  exists path,
    Challenge1.run_challenge1_deterministic identity_order
      = Ok (Challenge1.Found path 125 440 31) /\
    Permutation path repository_closure /\
    topological_linearization SKILLS_DATABASE path.
Proof.
  apply (run_challenge1_finds_the_closure identity_order).
  intros l. apply Permutation_refl.
Defined.

(** ** What a successful result guarantees *)

Lemma sum_field_ok1 db (field : Skill -> Z) l v :
  Challenge1.sum_field db field l = Ok v ->
  v = sumZ (map (fun s => field (skill_of db s)) l).
Proof.
  unfold Challenge1.sum_field. intros Hs.
  apply bind_ok_inv in Hs as (vs & Hm & Hs). injection Hs as <-.
  f_equal. revert vs Hm. induction l as [|s l IH]; intros vs Hm; simpl in Hm.
  - injection Hm as <-. reflexivity.
  - apply bind_ok_inv in Hm as (y & Hy & Hm).
    apply bind_ok_inv in Hm as (ys & Hys & Hm). injection Hm as <-.
    apply bind_ok_inv in Hy as (skill & Hget & Hy). injection Hy as <-.
    simpl. rewrite (getitem_skill_of _ _ _ Hget), (IH _ Hys). reflexivity.
Qed.

(** X9.  A successful result of [solve_deterministic], for any solver
    object, respects both budgets; its path has no repetition and holds
    the target; and its three totals are the sums of value, time and
    complexity along the path. *)
Theorem successful_result_respects_budgets :
  forall (self : Challenge1.solver) (max_time max_complexity : Z)
         (path : list string) (total_value total_time total_complexity : Z),
    Challenge1.solve_deterministic self max_time max_complexity
      = Ok (Challenge1.Found path total_value total_time total_complexity) ->
    total_time <= max_time /\
    total_complexity <= max_complexity /\
    NoDup path /\
    In (Challenge1.target self) path /\
    total_value = sum_valor (Challenge1.skills_db self) path /\
    total_time = sum_tempo (Challenge1.skills_db self) path /\
    total_complexity = sum_complexidade (Challenge1.skills_db self) path.
Proof.
  intros self mt mc p tv tt tc Hs.
  apply solve_deterministic_found in Hs
    as (topo & dp & k & sts & st & _ & Hdp & Hin & Hst & Hm & -> & -> & Htt & Htc).
  pose proof (tables_ordered self mt mc topo [] _ _ Hdp
                (initial_ordered _ mt mc) k sts st Hin Hst)
    as ((A & B & C & D & E & F) & G & H).
  apply sum_field_ok1 in Htt, Htc.
  fold (sum_tempo (Challenge1.skills_db self) (Challenge1.path st)) in Htt.
  fold (sum_complexidade (Challenge1.skills_db self) (Challenge1.path st)) in Htc.
  rewrite A in Hm. apply mem_In in Hm.
  destruct F as [Hnil | [F1 F2]]; [rewrite Hnil in Hm; destruct Hm|].
  repeat split; auto; lia.
Qed.

Lemma successful_result_respects_budgets_witness :
  440 <= 490 /\ 31 <= 37 /\
  NoDup ["H2"; "H1"; "H3"; "S1"; "S4"; "S6"] /\
  In (Challenge1.target repository_solver) ["H2"; "H1"; "H3"; "S1"; "S4"; "S6"] /\
  125 = sum_valor (Challenge1.skills_db repository_solver)
          ["H2"; "H1"; "H3"; "S1"; "S4"; "S6"] /\
  440 = sum_tempo (Challenge1.skills_db repository_solver)
          ["H2"; "H1"; "H3"; "S1"; "S4"; "S6"] /\
  31 = sum_complexidade (Challenge1.skills_db repository_solver)
         ["H2"; "H1"; "H3"; "S1"; "S4"; "S6"].
Proof.
  apply (successful_result_respects_budgets repository_solver 490 37
           ["H2"; "H1"; "H3"; "S1"; "S4"; "S6"] 125 440 31).
  vm_compute; reflexivity.
Defined.

(** ** [_prune_dominated_states] *)

(** Descending order of the keys. *)
Definition descending {A} (l : list (A * Z)) : Prop :=
  StronglySorted (fun a b => snd b <= snd a) l.

Lemma insert_desc_descending {A} (x : A * Z) l :
  descending l -> descending (insert_desc Z.ltb x l).
Proof.
  unfold descending. induction l as [|y ys IH]; intros Hs; simpl.
  - constructor; constructor.
  - apply StronglySorted_inv in Hs as [Hys Hy].
    destruct (snd y <? snd x) eqn:E.
    + apply Z.ltb_lt in E. constructor; [constructor; assumption|].
      constructor; [lia|]. eapply Forall_impl; [|exact Hy]. simpl. intros; lia.
    + apply Z.ltb_ge in E. constructor; [apply IH, Hys|].
      eapply Permutation_Forall; [apply Permutation_sym, insert_desc_perm|].
      constructor; assumption.
Qed.

Lemma sort_desc_descending {A} (l : list (A * Z)) : descending (sort_desc Z.ltb l).
Proof.
  unfold sort_desc.
  assert (G : forall acc, descending acc ->
            descending (fold_left (fun acc x => insert_desc Z.ltb x acc) l acc)).
  { induction l as [|x l IH]; intros acc Ha; simpl; [exact Ha|].
    apply IH, insert_desc_descending, Ha. }
  apply G. constructor.
Qed.

Lemma descending_split {A} (l1 l2 : list (A * Z)) a b :
  descending (l1 ++ l2) -> In a l1 -> In b l2 -> snd b <= snd a.
Proof.
  unfold descending. induction l1 as [|x l1 IH]; intros Hs Ha Hb; [destruct Ha|].
  simpl in Hs. apply StronglySorted_inv in Hs as [Hrest Hx].
  destruct Ha as [-> | Ha]; [|eauto].
  rewrite Forall_forall in Hx. apply Hx, in_or_app. right. exact Hb.
Qed.

(** What [slice_to] keeps is a prefix. *)
Lemma slice_to_prefix {A} (l : list A) k :
  exists rest, l = slice_to l k ++ rest.
Proof.
  unfold slice_to. destruct (0 <=? k); eexists; symmetry; apply firstn_skipn.
Qed.

Lemma app_split_at {A} (l a rest : list A) :
  l = a ++ rest ->
  a = firstn (List.length a) l /\ rest = skipn (List.length a) l.
Proof.
  intros ->. split.
  - rewrite firstn_app, Nat.sub_diag, firstn_all. simpl.
    rewrite app_nil_r. reflexivity.
  - rewrite skipn_app, Nat.sub_diag, skipn_all. reflexivity.
Qed.

(** X10.  [_prune_dominated_states] returns the list unchanged when it
    has at most [max_states_per_cell] states.  Otherwise it keeps,
    for a non-negative cap, exactly that many states, all taken from
    the list, and every state it keeps has a value at least that of
    every state of the list that it drops. *)
Theorem prune_keeps_the_most_valuable :
  forall (self : Challenge1.solver) (states : list Challenge1.state),
    let kept := Challenge1._prune_dominated_states self states in
    (Z.of_nat (List.length states) <= Challenge1.max_states_per_cell self ->
     kept = states) /\
    (0 <= Challenge1.max_states_per_cell self
       < Z.of_nat (List.length states) ->
     Z.of_nat (List.length kept) = Challenge1.max_states_per_cell self) /\
    (forall st, In st kept -> In st states) /\
    (forall st st', In st kept -> In st' states -> ~ In st' kept ->
                    Challenge1.valor st' <= Challenge1.valor st).
Proof.
  intros self states kept. subst kept.
  unfold Challenge1._prune_dominated_states.
  set (sorted := sort_desc Z.ltb (map (fun st => (st, Challenge1.valor st)) states)).
  assert (Hperm : Permutation (map fst sorted) states).
  { eapply Permutation_trans; [apply Permutation_map, sort_desc_perm|].
    rewrite map_map. simpl. rewrite map_id. reflexivity. }
  assert (Hkey : forall e, In e sorted -> snd e = Challenge1.valor (fst e)).
  { intros e He. eapply Permutation_in in He; [|apply sort_desc_perm].
    apply in_map_iff in He as (st & <- & _). reflexivity. }
  destruct (Z.of_nat (List.length states)
            <=? Challenge1.max_states_per_cell self) eqn:E.
  - apply Z.leb_le in E. repeat split; auto.
    + intros; lia.
    + intros st st' _ Hs Hno. contradiction.
  - apply Z.leb_gt in E. repeat split.
    + intros; lia.
    + intros [H0 _]. unfold slice_to.
      replace (0 <=? Challenge1.max_states_per_cell self) with true
        by (symmetry; apply Z.leb_le; lia).
      rewrite length_firstn, (Permutation_length Hperm). lia.
    + intros st Hin. apply slice_to_In in Hin.
      eapply Permutation_in; eauto.
    + intros st st' Hk Hs Hno.
      destruct (slice_to_prefix (map fst sorted)
                  (Challenge1.max_states_per_cell self)) as (rest & Hsplit).
      assert (Hin' : In st' rest).
      { eapply Permutation_in in Hs; [|apply Permutation_sym, Hperm].
        rewrite Hsplit in Hs. apply in_app_or in Hs as [Hs | Hs];
          [contradiction | exact Hs]. }
      (* lift the split of the states to a split of the keyed list *)
      set (n := List.length (slice_to (map fst sorted)
                               (Challenge1.max_states_per_cell self))).
      assert (H1 : slice_to (map fst sorted) (Challenge1.max_states_per_cell self)
                   = map fst (firstn n sorted)).
      { rewrite <- firstn_map. unfold n.
        apply (proj1 (app_split_at _ _ _ Hsplit)). }
      assert (H2 : rest = map fst (skipn n sorted)).
      { rewrite <- skipn_map. unfold n.
        apply (proj2 (app_split_at _ _ _ Hsplit)). }
      rewrite H1 in Hk. rewrite H2 in Hin'.
      apply in_map_iff in Hk as (e & <- & He).
      apply in_map_iff in Hin' as (e' & <- & He').
      rewrite <- (Hkey e), <- (Hkey e').
      * apply (descending_split (firstn n sorted) (skipn n sorted)); auto.
        rewrite firstn_skipn. apply sort_desc_descending.
      * rewrite <- (firstn_skipn n sorted). apply in_or_app. right. exact He'.
      * rewrite <- (firstn_skipn n sorted). apply in_or_app. left. exact He.
Qed.

(** With a cap of zero every cell is emptied by the pruning. *)
Lemma prune_zero self sts :
  Challenge1.max_states_per_cell self = 0 ->
  Challenge1._prune_dominated_states self sts = [].
Proof.
  intros Hcap. unfold Challenge1._prune_dominated_states. rewrite Hcap.
  destruct (Z.of_nat (List.length sts) <=? 0) eqn:E.
  - apply Z.leb_le in E. destruct sts; [reflexivity | simpl in E; lia].
  - reflexivity.
Qed.

Lemma process_skill_zero self mt mc dp skill_id dp' :
  Challenge1.max_states_per_cell self = 0 ->
  Challenge1.process_skill self mt mc dp skill_id = Ok dp' ->
  all_states (fun _ _ => False) dp'.
Proof.
  unfold Challenge1.process_skill. intros Hcap Hp.
  apply bind_ok_inv in Hp as (skill & _ & Hp). injection Hp as <-.
  intros k sts st Hin Hst.
  apply in_map_iff in Hin as (e & Heq & _). inversion Heq; subst.
  rewrite (prune_zero self _ Hcap) in Hst. destruct Hst.
Qed.

Lemma process_skills_zero self mt mc topo : forall dp dp',
  Challenge1.max_states_per_cell self = 0 ->
  topo <> [] ->
  foldM (Challenge1.process_skill self mt mc) topo dp = Ok dp' ->
  all_states (fun _ _ => False) dp'.
Proof.
  induction topo as [|x topo IH]; intros dp dp' Hcap Hne Hf; [congruence|].
  simpl in Hf. apply bind_ok_inv in Hf as (dp1 & H1 & Hf).
  destruct topo as [|y topo].
  - simpl in Hf. injection Hf as <-. eapply process_skill_zero; eauto.
  - apply (IH dp1 dp' Hcap); [discriminate | exact Hf].
Qed.

(** X11.  A solver built with [max_states_per_cell = 0] never finds a
    path, whatever the budgets: the pruning empties every cell. *)
Theorem zero_states_per_cell_never_succeeds :
  forall (self : Challenge1.solver) (max_time max_complexity : Z)
         (path : list string) (total_value total_time total_complexity : Z),
    Challenge1.max_states_per_cell self = 0 ->
    Challenge1.solve_deterministic self max_time max_complexity
      <> Ok (Challenge1.Found path total_value total_time total_complexity).
Proof.
  intros self mt mc p tv tt tc Hcap Hs.
  apply solve_deterministic_found in Hs
    as (topo & dp & k & sts & st & _ & Hdp & Hin & Hst & Hm & _).
  destruct topo as [|x topo].
  - simpl in Hdp. injection Hdp as <-.
    destruct Hin as [Heq | []]. inversion Heq; subst.
    destruct Hst as [<- | []]. simpl in Hm. discriminate.
  - apply (process_skills_zero self mt mc (x :: topo) _ _ Hcap) in Hdp;
      [|discriminate].
    exact (Hdp k sts st Hin Hst).
Qed.

Lemma zero_states_per_cell_never_succeeds_witness :
  Challenge1.solve_deterministic
    (Challenge1.mkSolver SKILLS_DATABASE TARGET_SKILL 0
       (Challenge1.required_skills repository_solver)
       (Challenge1.min_feasible_time repository_solver)
       (Challenge1.min_feasible_complexity repository_solver))
    490 37
  <> Ok (Challenge1.Found ["H2"; "H1"; "H3"; "S1"; "S4"; "S6"] 125 440 31).
Proof.
  apply (zero_states_per_cell_never_succeeds
           (Challenge1.mkSolver SKILLS_DATABASE TARGET_SKILL 0
              (Challenge1.required_skills repository_solver)
              (Challenge1.min_feasible_time repository_solver)
              (Challenge1.min_feasible_complexity repository_solver))
           490 37 ["H2"; "H1"; "H3"; "S1"; "S4"; "S6"] 125 440 31).
  reflexivity.
Defined.

(** ** [solve_with_uncertainty] *)

Section MonteCarloFacts.
Variable rng : Type.
Variable np_random_seed : Z -> rng.
Variable np_random_uniform : float -> float -> rng -> float * rng.
Variables np_mean np_std : list float -> float.
Variables np_min np_max : list float -> result float.

(** Every completed trial adds one sample. *)
Lemma simulate_trials_length db path n : forall acc g samples g',
  Challenge1.simulate_trials rng np_random_uniform db path n acc g
    = (Ok samples, g') ->
  List.length samples = (List.length acc + n)%nat.
Proof.
  induction n as [|n IH]; intros acc g samples g' Hs; simpl in Hs.
  - injection Hs as <- _. lia.
  - destruct (Challenge1.simulate_trial rng np_random_uniform db path g)
      as [[v | e] g1]; [|discriminate].
    apply IH in Hs. rewrite Hs, length_app. simpl. lia.
Qed.

Lemma solve_with_uncertainty_shape self mt mc n g r g' :
  Challenge1.solve_with_uncertainty rng np_random_seed np_random_uniform
    np_mean np_std np_min np_max self mt mc n g = (Ok r, g') ->
  (exists message,
     Challenge1.solve_deterministic self mt mc
       = Ok (Challenge1.NotFound message) /\
     r = Challenge1.Unsolved (Challenge1.NotFound message) /\ g' = g)
  \/
  (exists u,
     r = Challenge1.Simulated u /\
     Challenge1.solve_deterministic self mt mc
       = Ok (Challenge1.Found (Challenge1.mc_path u)
               (Challenge1.deterministic_value u)
               (Challenge1.mc_total_time u)
               (Challenge1.mc_total_complexity u)) /\
     List.length (Challenge1.simulations u) = Z.to_nat n).
Proof.
  unfold Challenge1.solve_with_uncertainty. intros Hs.
  destruct (Challenge1.solve_deterministic self mt mc)
    as [[p tv tt tc | msg] | e]; [| |discriminate].
  - right.
    destruct (Challenge1.simulate_trials rng np_random_uniform
                (Challenge1.skills_db self) p (Z.to_nat n) []
                (np_random_seed GLOBAL_SEED)) as [[samples | e] g1] eqn:Et;
      [|discriminate].
    apply simulate_trials_length in Et. simpl in Et.
    destruct (np_min samples) as [lo | e]; [|discriminate].
    destruct (np_max samples) as [hi | e]; [|discriminate].
    simpl in Hs. injection Hs as <- _.
    eexists. split; [reflexivity|]. simpl. auto.
  - left. injection Hs as <- <-. exists msg. auto.
Qed.

End MonteCarloFacts.

(** X12.  A run of [solve_with_uncertainty] that returns a result either
    passes a failed deterministic solve through unchanged, leaving the
    random generator as it found it, or reports the path, value, time
    and complexity of the successful deterministic solve together with
    exactly [n_simulations] samples (none when [n_simulations] is not
    positive). *)
Theorem monte_carlo_reports_the_deterministic_solution :
  forall (rng : Type) (np_random_seed : Z -> rng)
         (np_random_uniform : float -> float -> rng -> float * rng)
         (np_mean np_std : list float -> float)
         (np_min np_max : list float -> result float)
         (self : Challenge1.solver) (max_time max_complexity n_simulations : Z)
         (g g' : rng) (r : Challenge1.uncertainty_result),
    Challenge1.solve_with_uncertainty rng np_random_seed np_random_uniform
      np_mean np_std np_min np_max self max_time max_complexity n_simulations g
      = (Ok r, g') ->
    (exists message,
       Challenge1.solve_deterministic self max_time max_complexity
         = Ok (Challenge1.NotFound message) /\
       r = Challenge1.Unsolved (Challenge1.NotFound message) /\ g' = g)
    \/
    (exists u,
       r = Challenge1.Simulated u /\
       Challenge1.solve_deterministic self max_time max_complexity
         = Ok (Challenge1.Found (Challenge1.mc_path u)
                 (Challenge1.deterministic_value u)
                 (Challenge1.mc_total_time u)
                 (Challenge1.mc_total_complexity u)) /\
       List.length (Challenge1.simulations u) = Z.to_nat n_simulations).
Proof.
  intros rng seed uniform mean std mn mx self mt mc n g g' r Hs.
  apply (solve_with_uncertainty_shape rng seed uniform mean std mn mx
           self mt mc n g r g' Hs).
Qed.

(** A run with a generator that counts its draws and always returns 1. *)
Definition counting_run : Py.result Challenge1.uncertainty_result * nat :=
  Challenge1.solve_with_uncertainty nat (fun _ => 0%nat)
    (fun _ _ g => (1%float, S g)) (fun _ => 0%float) (fun _ => 0%float)
    (fun _ => Ok 0%float) (fun _ => Ok 0%float)
    repository_solver 490 37 3 7%nat.

Definition counting_result : Challenge1.uncertainty_result :=
  match fst counting_run with
  | Ok r => r
  | Raise _ => Challenge1.Unsolved (Challenge1.NotFound "")
  end.

Lemma monte_carlo_reports_the_deterministic_solution_witness :
  (exists message,
     Challenge1.solve_deterministic repository_solver 490 37
       = Ok (Challenge1.NotFound message) /\
     counting_result = Challenge1.Unsolved (Challenge1.NotFound message) /\
     snd counting_run = 7%nat)
  \/
  (exists u,
     counting_result = Challenge1.Simulated u /\
     Challenge1.solve_deterministic repository_solver 490 37
       = Ok (Challenge1.Found (Challenge1.mc_path u)
               (Challenge1.deterministic_value u)
               (Challenge1.mc_total_time u)
               (Challenge1.mc_total_complexity u)) /\
     List.length (Challenge1.simulations u) = Z.to_nat 3).
Proof.
  apply (monte_carlo_reports_the_deterministic_solution nat (fun _ => 0%nat)
           (fun _ _ g => (1%float, S g)) (fun _ => 0%float) (fun _ => 0%float)
           (fun _ => Ok 0%float) (fun _ => Ok 0%float)
           repository_solver 490 37 3 7%nat).
  vm_compute; reflexivity.
Defined.

(* ===================================================================== *)
(** * Further facts about gs_challenge3.py *)
(* ===================================================================== *)

(** ** [__init__] *)

(** A candidate the constructor accepts: in the table, with no
    prerequisite. *)
Definition is_basic (db : SkillsDB) (s : string) : Prop :=
  exists skill, dict_get db s = Some skill /\ Pre_Reqs skill = [].

Lemma check_basic_ok db s :
  Challenge3.check_basic db s = Ok tt <-> is_basic db s.
Proof.
  unfold Challenge3.check_basic, is_basic, getitem.
  destruct (dict_get db s) as [skill|]; simpl.
  - destruct (Pre_Reqs skill) eqn:E; split.
    + intros _. exists skill. auto.
    + reflexivity.
    + discriminate.
    + intros (sk & Heq & Hnil). injection Heq as <-. congruence.
  - split; [discriminate | intros (sk & Heq & _); discriminate].
Qed.

Lemma mapM_raise_inv {A B} (f : A -> result B) (l : list A) e :
  mapM f l = Raise e -> exists x, In x l /\ f x = Raise e.
Proof.
  induction l as [|x xs IH]; simpl; [discriminate|].
  destruct (f x) as [y|e'] eqn:Ex; simpl.
  - destruct (mapM f xs) as [ys|e''] eqn:Em; simpl; [discriminate|].
    intros Heq. injection Heq as ->.
    destruct (IH eq_refl) as (z & Hz & Hfz). exists z. auto.
  - intros Heq. injection Heq as ->. exists x. auto.
Qed.

(** X13.  The constructor of the optimizer accepts a candidate list
    exactly when every candidate is in the table with an empty
    prerequisite list; otherwise it raises [KeyError] for a candidate
    that is missing or [ValueError], with the message naming it, for a
    candidate that has prerequisites. *)
Theorem optimizer_accepts_exactly_basic_candidates :
  forall (db : SkillsDB) (basic : list string) (thr : Z),
    (Challenge3.init db basic thr = Ok (Challenge3.mkOptimizer db basic thr)
     <-> forall s, In s basic -> is_basic db s) /\
    (forall self, Challenge3.init db basic thr = Ok self ->
                  self = Challenge3.mkOptimizer db basic thr) /\
    (forall e, Challenge3.init db basic thr = Raise e ->
       exists s, In s basic /\
         ((e = KeyError s /\ dict_get db s = None) \/
          (e = ValueError (String.append s " não é básica!") /\
           exists skill, dict_get db s = Some skill /\ Pre_Reqs skill <> []))).
Proof.
  intros db basic thr. split; [split|split].
  - intros Hi s Hs. unfold Challenge3.init in Hi.
    apply bind_ok_inv in Hi as (u & Hm & _).
    destruct (mapM_ok_each _ _ _ Hm s Hs) as ([] & Hy).
    apply check_basic_ok. exact Hy.
  - intros Hb. unfold Challenge3.init.
    rewrite (mapM_total _ (fun _ => tt)); [reflexivity|].
    intros s Hs. apply check_basic_ok. auto.
  - intros self Hi. unfold Challenge3.init in Hi.
    apply bind_ok_inv in Hi as (u & _ & Hr). congruence.
  - intros e Hi. unfold Challenge3.init in Hi.
    destruct (mapM (Challenge3.check_basic db) basic) as [u|e'] eqn:Em;
      simpl in Hi; [discriminate|]. injection Hi as ->.
    apply mapM_raise_inv in Em as (s & Hs & Hc). exists s. split; [exact Hs|].
    unfold Challenge3.check_basic, getitem in Hc.
    destruct (dict_get db s) as [skill|]; simpl in Hc.
    + right. destruct (Pre_Reqs skill) eqn:E; [discriminate|].
      injection Hc as <-. split; [reflexivity|].
      exists skill. split; [reflexivity | congruence].
    + left. injection Hc as <-. auto.
Qed.

(** ** [optimal_solution_bruteforce] *)

(** X14.  For every threshold, [optimal_solution_bruteforce] returns
    [None] exactly when no non-empty selection of the candidates
    reaches the threshold; otherwise it returns a non-empty selection
    that reaches it, with its value, time and size, whose time is the
    least among the non-empty selections that reach the threshold.  It
    never returns the empty selection. *)
Theorem bruteforce_returns_a_least_time_selection :
  forall (db : SkillsDB) (basic : list string) (thr : Z)
         (self : Challenge3.optimizer),
    Challenge3.init db basic thr = Ok self ->
    (Challenge3.optimal_solution_bruteforce self = Ok None /\
     forall S, Subseq S basic -> S <> [] -> sum_valor db S < thr)
    \/
    (exists sol,
       Challenge3.optimal_solution_bruteforce self = Ok (Some sol) /\
       Subseq (Challenge3.selected sol) basic /\
       Challenge3.selected sol <> [] /\
       thr <= sum_valor db (Challenge3.selected sol) /\
       Challenge3.total_value sol = sum_valor db (Challenge3.selected sol) /\
       Challenge3.total_time sol = sum_tempo db (Challenge3.selected sol) /\
       forall S, Subseq S basic -> S <> [] -> thr <= sum_valor db S ->
                 Challenge3.total_time sol <= sum_tempo db S).
Proof.
  intros db basic thr self Hinit.
  apply init_present in Hinit as [-> Hp].
  exact (optimal_solution_bruteforce_spec db basic thr Hp).
Qed.

Lemma bruteforce_returns_a_least_time_selection_witness :
  (Challenge3.optimal_solution_bruteforce literal_optimizer = Ok None /\
   forall S, Subseq S ["A"; "B"; "C"] -> S <> [] ->
             sum_valor Challenge3.counterexample_db S < 16)
  \/
  (exists sol,
     Challenge3.optimal_solution_bruteforce literal_optimizer = Ok (Some sol) /\
     Subseq (Challenge3.selected sol) ["A"; "B"; "C"] /\
     Challenge3.selected sol <> [] /\
     16 <= sum_valor Challenge3.counterexample_db (Challenge3.selected sol) /\
     Challenge3.total_value sol
       = sum_valor Challenge3.counterexample_db (Challenge3.selected sol) /\
     Challenge3.total_time sol
       = sum_tempo Challenge3.counterexample_db (Challenge3.selected sol) /\
     forall S, Subseq S ["A"; "B"; "C"] -> S <> [] ->
               16 <= sum_valor Challenge3.counterexample_db S ->
               Challenge3.total_time sol
                 <= sum_tempo Challenge3.counterexample_db S).
Proof.
  apply (bruteforce_returns_a_least_time_selection Challenge3.counterexample_db
           ["A"; "B"; "C"] 16 literal_optimizer).
  vm_compute; reflexivity.
Defined.

(** ** [greedy_solution] *)

Section GreedyFacts.
Variable db : SkillsDB.

(** The loop stops with the first skill that brings the running value
    to the threshold: what it had selected before was below it. *)
Lemma greedy_loop_stops_first thr skills_sorted : forall sel tv tt sel' v t,
  skills_sorted <> [] ->
  Challenge3.greedy_loop db thr skills_sorted sel tv tt = Ok (sel', v, t) ->
  exists front last,
    sel' = sel ++ front ++ [last] /\
    (front <> [] -> tv + sum_valor db front < thr).
Proof.
  induction skills_sorted as [|x rest IH]; intros sel tv tt sel' v t Hne Hg;
    [congruence|].
  simpl in Hg. apply bind_ok_inv in Hg as (skill & Hget & Hg).
  pose proof (getitem_skill_of _ _ _ Hget) as Hsk.
  destruct (thr <=? tv + Valor skill) eqn:E.
  - injection Hg as <- _ _. exists [], x. split; [reflexivity | congruence].
  - apply Z.leb_gt in E. destruct rest as [|y rest].
    + simpl in Hg. injection Hg as <- _ _. exists [], x.
      split; [reflexivity | congruence].
    + apply IH in Hg as (front & last & -> & Hlt); [|discriminate].
      exists (x :: front), last. split.
      * rewrite <- app_assoc. reflexivity.
      * intros _. change (x :: front) with ([x] ++ front).
        rewrite sum_valor_app, sum_valor_single, Hsk.
        destruct front as [|f front].
        -- unfold sum_valor, sumZ. simpl. lia.
        -- assert (Hf : f :: front <> []) by discriminate.
           specialize (Hlt Hf). lia.
Qed.

End GreedyFacts.

(** X15.  With non-negative values and non-zero times, both integers
    that binary64 holds exactly, [greedy_solution] reaches the
    threshold exactly when the candidates together do.  On a non-empty
    candidate list it selects at least one skill, and what it selected
    before the last one was below the threshold. *)
Theorem greedy_reaches_threshold_when_possible :
  forall (db : SkillsDB) (basic : list string) (thr : Z)
         (self : Challenge3.optimizer),
    Challenge3.init db basic thr = Ok self ->
    (forall s skill, In s basic -> getitem db s = Ok skill ->
                     0 <= Valor skill /\ Tempo skill <> 0 /\
                     float_exact (Valor skill) /\ float_exact (Tempo skill)) ->
    exists g,
      Challenge3.greedy_solution self = Ok g /\
      (thr <= Challenge3.total_value g <-> thr <= sum_valor db basic) /\
      (basic <> [] ->
       exists front last,
         Challenge3.selected g = front ++ [last] /\
         (front <> [] -> sum_valor db front < thr)).
Proof.
  intros db basic thr self Hinit Hwf.
  apply init_present in Hinit as [-> Hp].
  assert (Hv : Forall (fun s => 0 <= Valor (skill_of db s)) basic).
  { rewrite Forall_forall in *. intros s Hs.
    apply (Hwf s); auto. apply getitem_present; auto. }
  assert (Ht : Forall (fun s => Tempo (skill_of db s) <> 0) basic).
  { rewrite Forall_forall in *. intros s Hs.
    apply (Hwf s); auto. apply getitem_present; auto. }
  destruct (greedy_solution_spec db basic thr Hp Ht)
    as (g & rest & Hg & Hperm & Hval & Htm & Hstop).
  exists g. split; [exact Hg|]. split.
  - destruct (Subseq_perm _ _ _ (Subseq_app_l (Challenge3.selected g) rest) Hperm)
      as (S & HS & HPS).
    pose proof (Subseq_sum_le (fun s => Valor (skill_of db s)) S basic HS Hv) as Hle.
    fold (sum_valor db S) in Hle. fold (sum_valor db basic) in Hle.
    rewrite (sum_valor_perm db _ _ HPS) in Hle.
    destruct Hstop as [Hreach | ->]; [split; intros; lia|].
    rewrite app_nil_r in Hperm.
    rewrite Hval, (sum_valor_perm db _ _ Hperm). reflexivity.
  - intros Hne. unfold Challenge3.greedy_solution in Hg. simpl in Hg.
    apply bind_ok_inv in Hg as (sorted & Hs & Hg).
    apply bind_ok_inv in Hg as ([[sel v] t] & Hl & Hg). injection Hg as <-.
    simpl.
    assert (Hsne : sorted <> []).
    { destruct (sorted_by_ratio_perm db basic Hp Ht) as (sorted' & Hs' & Hperm').
      assert (sorted' = sorted) by congruence. subst sorted'.
      intros ->. apply Permutation_nil in Hperm'. contradiction. }
    destruct (greedy_loop_stops_first db thr sorted [] 0 0 sel v t Hsne Hl)
      as (front & last & -> & Hlt).
    exists front, last. split; [reflexivity|].
    intros Hf. specialize (Hlt Hf). lia.
Qed.

Lemma greedy_reaches_threshold_when_possible_witness :
  exists g,
    Challenge3.greedy_solution literal_optimizer = Ok g /\
    (16 <= Challenge3.total_value g
     <-> 16 <= sum_valor Challenge3.counterexample_db ["A"; "B"; "C"]) /\
    (["A"; "B"; "C"] <> [] ->
     exists front last,
       Challenge3.selected g = front ++ [last] /\
       (front <> [] -> sum_valor Challenge3.counterexample_db front < 16)).
Proof.
  apply (greedy_reaches_threshold_when_possible Challenge3.counterexample_db
           ["A"; "B"; "C"] 16 literal_optimizer).
  - vm_compute; reflexivity.
  - intros s skill [<- | [<- | [<- | []]]] Hget;
      vm_compute in Hget; inversion Hget; subst; unfold float_exact; simpl; lia.
Defined.

Lemma mapM_raise_same {A B} (f : A -> result B) (l : list A) e :
  (forall x, In x l -> (exists y, f x = Ok y) \/ f x = Raise e) ->
  (exists x, In x l /\ f x = Raise e) ->
  mapM f l = Raise e.
Proof.
  induction l as [|x xs IH]; intros Hall (z & Hz & Hfz); [destruct Hz|].
  simpl. destruct (Hall x (or_introl eq_refl)) as [(y & Hy) | Hr].
  - rewrite Hy. simpl. rewrite IH; [reflexivity| |].
    + intros w Hw. apply Hall. right. exact Hw.
    + destruct Hz as [<- | Hz]; [congruence|]. exists z. auto.
  - rewrite Hr. reflexivity.
Qed.

(** X16.  When the values and times of the candidates are integers
    that binary64 holds exactly and some candidate has a time of zero,
    [greedy_solution] raises [ZeroDivisionError], for it sorts by value
    over time, while [optimal_solution_dp] and
    [optimal_solution_bruteforce], which only add times, still return. *)
Theorem greedy_divides_by_candidate_time :
  forall (db : SkillsDB) (basic : list string) (thr : Z)
         (self : Challenge3.optimizer) (s : string) (skill : Skill),
    Challenge3.init db basic thr = Ok self ->
    (forall c entry, In c basic -> getitem db c = Ok entry ->
                     float_exact (Valor entry) /\ float_exact (Tempo entry)) ->
    In s basic -> getitem db s = Ok skill -> Tempo skill = 0 ->
    Challenge3.greedy_solution self = Raise ZeroDivisionError /\
    (exists r, Challenge3.optimal_solution_dp self = Ok r) /\
    (exists r, Challenge3.optimal_solution_bruteforce self = Ok r).
Proof.
  intros db basic thr self s skill Hinit Hexact Hs Hget Hzero.
  apply init_present in Hinit as [-> Hp]. split; [|split].
  - unfold Challenge3.greedy_solution, sorted_by_key_reverse. simpl.
    rewrite (mapM_raise_same _ _ ZeroDivisionError); [reflexivity| |].
    + intros x Hx. rewrite Forall_forall in Hp.
      unfold Challenge3.value_time_ratio.
      rewrite (getitem_present db x) by auto. simpl. unfold truediv.
      destruct (Tempo (skill_of db x) =? 0); eauto.
    + exists s. split; [exact Hs|].
      unfold Challenge3.value_time_ratio. rewrite Hget. simpl.
      unfold truediv. rewrite Hzero. reflexivity.
  - destruct (optimal_solution_dp_spec db basic thr Hp)
      as [[Hdp _] | (sol & Hdp & _)]; eauto.
  - destruct (optimal_solution_bruteforce_spec db basic thr Hp)
      as [[Hbf _] | (sol & Hbf & _)]; eauto.
Qed.

Definition free_skill_db : SkillsDB :=
  [("H1", mkSkill 10 40 2 []); ("H2", mkSkill 5 0 1 [])].

Lemma greedy_divides_by_candidate_time_witness :
  Challenge3.greedy_solution
    (Challenge3.mkOptimizer free_skill_db ["H1"; "H2"] 12)
    = Raise ZeroDivisionError /\
  (exists r, Challenge3.optimal_solution_dp
               (Challenge3.mkOptimizer free_skill_db ["H1"; "H2"] 12) = Ok r) /\
  (exists r, Challenge3.optimal_solution_bruteforce
               (Challenge3.mkOptimizer free_skill_db ["H1"; "H2"] 12) = Ok r).
Proof.
  apply (greedy_divides_by_candidate_time free_skill_db ["H1"; "H2"] 12
           (Challenge3.mkOptimizer free_skill_db ["H1"; "H2"] 12)
           "H2" (mkSkill 5 0 1 [])).
  - vm_compute; reflexivity.
  - intros c entry [<- | [<- | []]] Hget;
      vm_compute in Hget; inversion Hget; subst; unfold float_exact; simpl; lia.
  - simpl; auto.
  - vm_compute; reflexivity.
  - reflexivity.
Defined.

(* ===================================================================== *)
(** * Further facts about gs_graph_validation.py *)
(* ===================================================================== *)

(** ** [_check_orphan_prereqs] *)

Lemma dict_get_in_keys {V} (d : dict string V) (k : string) :
  dict_get d k <> None <-> In k (map fst d).
Proof.
  induction d as [|[k' v] rest IH]; simpl.
  - split; [congruence | intros []].
  - destruct (String.eqb k' k) eqn:E.
    + apply String.eqb_eq in E. subst. split; [auto | discriminate].
    + apply String.eqb_neq in E. rewrite IH. split; [auto|].
      intros [Heq | Hin]; [contradiction | exact Hin].
Qed.

Lemma orphan_pairs (set_order : list string -> list string) (db : SkillsDB) s p :
  (forall l, Permutation (set_order l) l) ->
  In (s, p) (GraphValidation._check_orphan_prereqs
               (GraphValidation.init set_order db)) <->
  exists entry, In (s, entry) db /\ In p (Pre_Reqs entry) /\ dict_get db p = None.
Proof.
  intros Hperm. rewrite check_orphan_prereqs_spec. simpl.
  assert (Hk : ~ In p (set_order (map fst db)) <-> dict_get db p = None).
  { split.
    - intros Hno. destruct (dict_get db p) eqn:E; [|reflexivity].
      exfalso. apply Hno. eapply Permutation_in;
        [apply Permutation_sym, Hperm|].
      apply dict_get_in_keys. congruence.
    - intros Hnone Hin. eapply Permutation_in in Hin; [|apply Hperm].
      apply dict_get_in_keys in Hin. contradiction. }
  split; intros (entry & H1 & H2 & H3); exists entry; repeat split; auto;
    apply Hk; exact H3.
Qed.

Lemma no_orphans_no_dangling (set_order : list string -> list string)
    (db : SkillsDB) :
  (forall l, Permutation (set_order l) l) ->
  GraphValidation._check_orphan_prereqs (GraphValidation.init set_order db) = []
  <-> no_dangling db.
Proof.
  intros Hperm. split.
  - intros Hnil s entry p Hin Hp Hnone.
    assert (Hpair : In (s, p) (GraphValidation._check_orphan_prereqs
                                 (GraphValidation.init set_order db))).
    { apply orphan_pairs; eauto. }
    rewrite Hnil in Hpair. destruct Hpair.
  - intros Hnd.
    destruct (GraphValidation._check_orphan_prereqs
                (GraphValidation.init set_order db)) as [|[s p] rest] eqn:E;
      [reflexivity|].
    assert (Hpair : In (s, p) (GraphValidation._check_orphan_prereqs
                                 (GraphValidation.init set_order db))).
    { rewrite E. left. reflexivity. }
    apply orphan_pairs in Hpair as (entry & Hin & Hp & Hnone); [|exact Hperm].
    exfalso. exact (Hnd s entry p Hin Hp Hnone).
Qed.

(** X17.  On a validator built from a table, [_check_orphan_prereqs]
    returns exactly the pairs of a skill of the table and a
    prerequisite of it that is no key of the table; it returns the
    empty list exactly when the table has no such prerequisite. *)
Theorem orphan_check_finds_the_dangling_edges :
  forall (set_order : list string -> list string) (db : SkillsDB),
    (forall l, Permutation (set_order l) l) ->
    (forall s p,
       In (s, p) (GraphValidation._check_orphan_prereqs
                    (GraphValidation.init set_order db)) <->
       exists entry,
         In (s, entry) db /\ In p (Pre_Reqs entry) /\ dict_get db p = None) /\
    (GraphValidation._check_orphan_prereqs (GraphValidation.init set_order db) = []
     <-> no_dangling db).
Proof.
  intros set_order db Hperm. split.
  - intros s p. apply orphan_pairs. exact Hperm.
  - apply no_orphans_no_dangling. exact Hperm.
Qed.

Lemma orphan_check_finds_the_dangling_edges_witness :
  (forall s p,
     In (s, p) (GraphValidation._check_orphan_prereqs
                  (GraphValidation.init identity_order dangling_db)) <->
     exists entry,
       In (s, entry) dangling_db /\ In p (Pre_Reqs entry) /\
       dict_get dangling_db p = None) /\
  (GraphValidation._check_orphan_prereqs
     (GraphValidation.init identity_order dangling_db) = []
   <-> no_dangling dangling_db).
Proof.
  apply (orphan_check_finds_the_dangling_edges identity_order dangling_db).
  intros l. apply Permutation_refl.
Defined.

(** ** [_print_graph_statistics] *)

Lemma statistics_need_two_skills (self : GraphValidation.validator) :
  (List.length (GraphValidation.all_skill_ids self) <= 1)%nat ->
  forall u, GraphValidation._print_graph_statistics self <> Ok u.
Proof.
  intros Hlen u. unfold GraphValidation._print_graph_statistics.
  destruct (foldM _ (GraphValidation.all_skill_ids self) _) as [d|e];
    simpl; [|discriminate].
  unfold truediv.
  destruct (GraphValidation.all_skill_ids self) as [|x [|y l]];
    simpl in *; try lia.
  - discriminate.
  - discriminate.
Qed.

(** X18.  On a validator with fewer than two skill identifiers the
    statistics of the verbose mode never complete, for the density
    divides by [n_nodes * (n_nodes - 1)]; so [validate_graph] with
    [verbose=True] never returns the verdict [True] there: it returns
    [False] or raises. *)
Theorem verbose_validation_needs_two_skills :
  forall (self : GraphValidation.validator),
    (List.length (GraphValidation.all_skill_ids self) <= 1)%nat ->
    (forall u, GraphValidation._print_graph_statistics self <> Ok u) /\
    (forall r, GraphValidation.validate_graph self true = Ok r -> fst r = false).
Proof.
  intros self Hlen. split; [apply statistics_need_two_skills, Hlen|].
  intros r. unfold GraphValidation.validate_graph.
  destruct (GraphValidation._check_orphan_prereqs self); simpl.
  - intros Hv. apply bind_ok_inv in Hv as ([has_cycle cycle_path] & _ & Hv).
    destruct has_cycle; simpl in Hv; [injection Hv as <-; reflexivity|].
    apply bind_ok_inv in Hv as (topo & _ & Hv).
    apply bind_ok_inv in Hv as (u & Hu & _).
    exfalso. exact (statistics_need_two_skills self Hlen u Hu).
  - intros Hv. injection Hv as <-. reflexivity.
Qed.

Lemma verbose_validation_needs_two_skills_witness :
  (forall u, GraphValidation._print_graph_statistics
               (GraphValidation.init identity_order dangling_db) <> Ok u) /\
  (forall r, GraphValidation.validate_graph
               (GraphValidation.init identity_order dangling_db) true = Ok r ->
             fst r = false).
Proof.
  apply (verbose_validation_needs_two_skills
           (GraphValidation.init identity_order dangling_db)).
  simpl. lia.
Defined.

(** X19.  A table of at most one skill, without prerequisites, is a
    valid graph, yet [validate_graph] with [verbose=True] raises
    [ZeroDivisionError] on it; with [verbose=False] it returns [True]
    and a valid report whose order lists the table. *)
Theorem verbose_validation_of_a_single_skill_raises :
  forall (set_order : list string -> list string) (db : SkillsDB),
    (forall l, Permutation (set_order l) l) ->
    (List.length db <= 1)%nat ->
    (forall s entry, In (s, entry) db -> Pre_Reqs entry = []) ->
    GraphValidation.validate_graph (GraphValidation.init set_order db) true
      = Raise ZeroDivisionError /\
    GraphValidation.validate_graph (GraphValidation.init set_order db) false
      = Ok (true, GraphValidation.mkReport true [] [] [] (map fst db)).
Proof.
  intros set_order db Hperm Hlen Hbasic.
  destruct db as [|[s [v t c pre]] [|e rest]]; simpl in Hlen; try lia.
  - unfold GraphValidation.init. simpl.
    rewrite (Permutation_nil (Permutation_sym (Hperm []))).
    split; reflexivity.
  - assert (Hpre : pre = []).
    { apply (Hbasic s (mkSkill v t c pre)). left. reflexivity. }
    subst pre. unfold GraphValidation.init. simpl.
    rewrite (Permutation_length_1_inv (Permutation_sym (Hperm [s]))).
    unfold GraphValidation.validate_graph, GraphValidation._check_orphan_prereqs,
      GraphValidation._detect_cycles, GraphValidation._topological_sort,
      GraphValidation._print_graph_statistics, getitem.
    repeat (progress (simpl; unfold getitem; simpl; rewrite ?String.eqb_refl)).
    split; reflexivity.
Qed.

Lemma verbose_validation_of_a_single_skill_raises_witness :
  GraphValidation.validate_graph
    (GraphValidation.init identity_order one_skill_db) true
    = Raise ZeroDivisionError /\
  GraphValidation.validate_graph
    (GraphValidation.init identity_order one_skill_db) false
    = Ok (true, GraphValidation.mkReport true [] [] [] (map fst one_skill_db)).
Proof.
  apply (verbose_validation_of_a_single_skill_raises identity_order one_skill_db).
  - intros l. apply Permutation_refl.
  - simpl. lia.
  - intros s entry [Heq | []]. injection Heq as <- <-. reflexivity.
Defined.

(** ** [_detect_cycles] *)

(** [a] lists [b] among its prerequisites. *)
Definition requires (db : SkillsDB) (a b : string) : Prop :=
  exists entry, dict_get db a = Some entry /\ In b (Pre_Reqs entry).

(** A chain of prerequisite edges from [a] to [b], possibly empty. *)
Inductive chain (db : SkillsDB) : string -> string -> Prop :=
| chain_refl a : chain db a a
| chain_step a b c : requires db a b -> chain db b c -> chain db a c.

(** [s] lies on a cycle of prerequisite edges. *)
Definition on_cycle (db : SkillsDB) (s : string) : Prop :=
  exists b, requires db s b /\ chain db b s.

(** The shape of a reported cycle path: it starts and ends with the
    same skill, which lies on a cycle, with something in between. *)
Definition closed_cycle (db : SkillsDB) (path : list string) : Prop :=
  exists s mid, path = s :: mid ++ [s] /\ mid <> [] /\ on_cycle db s.

Lemma chain_snoc db a b c : chain db a b -> requires db b c -> chain db a c.
Proof.
  induction 1 as [a | a b' c' Hab Hbc IH]; intros Hc.
  - eapply chain_step; [exact Hc | apply chain_refl].
  - eapply chain_step; [exact Hab | apply IH, Hc].
Qed.

Lemma chain_closes db s n : chain db s n -> requires db n s -> on_cycle db s.
Proof.
  intros Hc Hr. destruct Hc as [a | a b c Hab Hbc].
  - exists a. split; [exact Hr | apply chain_refl].
  - exists b. split; [exact Hab | eapply chain_snoc; eauto].
Qed.

Definition gray (st : GraphValidation.dfs_state) (g : string) : Prop :=
  dict_get (GraphValidation.colors st) g = Some GraphValidation.GRAY.

(** The inner loop of [dfs_visit], with the recursive call as a
    parameter. *)
Definition visit_prereqs_of
    (rec : string -> GraphValidation.dfs_state ->
           result (GraphValidation.dfs_state * (bool * list string)))
    (node : string) :=
  fix visit_prereqs (prereqs : list string) (st : GraphValidation.dfs_state)
    : result (GraphValidation.dfs_state * (bool * list string)) :=
    match prereqs with
    | [] =>
        Ok (GraphValidation.mkDfs
              (dict_set (GraphValidation.colors st) node GraphValidation.BLACK)
              (GraphValidation.parent st), (false, []))
    | prereq :: rest =>
        c <- getitem (GraphValidation.colors st) prereq ;;
        if GraphValidation.is_gray c then
          cycle <- GraphValidation.climb
                     (S (List.length (GraphValidation.parent st)))
                     (GraphValidation.parent st) prereq node [prereq; node] ;;
          Ok (st, (true, cycle ++ [prereq]))
        else if GraphValidation.is_white c then
          let st := GraphValidation.mkDfs (GraphValidation.colors st)
                      (dict_set (GraphValidation.parent st) prereq (Some node)) in
          r <- rec prereq st ;;
          if fst (snd r) then Ok r else visit_prereqs rest (fst r)
        else visit_prereqs rest st
    end.

Lemma dfs_visit_unfold fuel db node st :
  GraphValidation.dfs_visit (S fuel) db node st
  = (entry <- getitem db node ;;
     visit_prereqs_of (GraphValidation.dfs_visit fuel db) node (Pre_Reqs entry)
       (GraphValidation.mkDfs
          (dict_set (GraphValidation.colors st) node GraphValidation.GRAY)
          (GraphValidation.parent st))).
Proof. reflexivity. Qed.

(** The rebuilt path keeps its first entry and stays longer than one. *)
Lemma climb_shape parents prereq fuel : forall current h t cycle,
  t <> [] ->
  GraphValidation.climb fuel parents prereq current (h :: t) = Ok cycle ->
  exists t', cycle = h :: t' /\ t' <> [].
Proof.
  induction fuel as [|fuel IH]; intros current h t cycle Ht Hc; simpl in Hc;
    [discriminate|].
  apply bind_ok_inv in Hc as (p & _ & Hc).
  destruct (GraphValidation.truthy p); [|injection Hc as <-; eauto].
  destruct p as [next|]; [|injection Hc as <-; eauto].
  destruct (String.eqb next prereq); [injection Hc as <-; eauto|].
  simpl in Hc. apply IH in Hc; [exact Hc | discriminate].
Qed.

(** What a visit returns. *)
Definition visit_sound (db : SkillsDB) (st : GraphValidation.dfs_state)
    (r : GraphValidation.dfs_state * (bool * list string)) : Prop :=
  (fst (snd r) = true -> closed_cycle db (snd (snd r))) /\
  (fst (snd r) = false ->
   snd (snd r) = [] /\ forall g, gray (fst r) g -> gray st g).

Opaque GraphValidation.climb.

Lemma visit_prereqs_sound db rec node entry st :
  dict_get db node = Some entry ->
  (forall g, gray st g -> chain db g node) ->
  (forall prereq st1 r,
     (forall g, gray st1 g -> chain db g prereq) ->
     rec prereq st1 = Ok r -> visit_sound db st1 r) ->
  forall prereqs st0 r,
    (forall p, In p prereqs -> In p (Pre_Reqs entry)) ->
    (forall g, gray st0 g -> g = node \/ gray st g) ->
    visit_prereqs_of rec node prereqs st0 = Ok r ->
    visit_sound db st r.
Proof.
  intros Hentry Hpre Hrec.
  assert (Hreach : forall st0, (forall g, gray st0 g -> g = node \/ gray st g) ->
                   forall g, gray st0 g -> chain db g node).
  { intros st0 H0 g Hg. destruct (H0 g Hg) as [-> | Hg'];
      [apply chain_refl | auto]. }
  induction prereqs as [|prereq rest IH]; intros st0 r Hsuf H0 Hv; simpl in Hv.
  - injection Hv as <-. split; simpl; [discriminate|]. intros _.
    split; [reflexivity|]. intros g Hg. unfold gray in Hg. simpl in Hg.
    rewrite dict_get_set_string in Hg.
    destruct (String.eqb node g) eqn:E; [discriminate|].
    apply String.eqb_neq in E.
    destruct (H0 g Hg) as [-> | Hg']; [congruence | exact Hg'].
  - assert (Hedge : requires db node prereq).
    { exists entry. split; [exact Hentry|]. apply Hsuf. left. reflexivity. }
    assert (Hrest : forall p, In p rest -> In p (Pre_Reqs entry)).
    { intros p Hp. apply Hsuf. right. exact Hp. }
    apply bind_ok_inv in Hv as (c & Hc & Hv).
    destruct c; simpl in Hv.
    + (* white: descend *)
      apply bind_ok_inv in Hv as (r1 & Hr1 & Hv).
      apply Hrec in Hr1 as [Htrue Hfalse].
      2:{ intros g Hg. eapply chain_snoc; [|exact Hedge].
          apply (Hreach st0 H0). exact Hg. }
      destruct (fst (snd r1)) eqn:E.
      * injection Hv as <-. split; [intros _; apply Htrue; reflexivity|].
        rewrite E. discriminate.
      * apply (IH (fst r1) r Hrest); [|exact Hv].
        intros g Hg. apply H0. apply (proj2 (Hfalse eq_refl)). exact Hg.
    + (* gray: a cycle through [prereq] *)
      apply bind_ok_inv in Hv as (cycle & Hcl & Hv). injection Hv as <-.
      split; simpl; [|discriminate]. intros _.
      apply climb_shape in Hcl as (t' & -> & Ht'); [|discriminate].
      exists prereq, t'. split; [reflexivity|]. split; [exact Ht'|].
      apply (chain_closes db prereq node); [|exact Hedge].
      apply (Hreach st0 H0). apply getitem_ok_get in Hc. exact Hc.
    + (* black: skip *)
      apply (IH st0 r Hrest H0 Hv).
Qed.

Transparent GraphValidation.climb.

Lemma dfs_visit_sound db fuel : forall node st r,
  (forall g, gray st g -> chain db g node) ->
  GraphValidation.dfs_visit fuel db node st = Ok r ->
  visit_sound db st r.
Proof.
  induction fuel as [|fuel IH]; intros node st r Hpre Hv; [discriminate|].
  rewrite dfs_visit_unfold in Hv.
  apply bind_ok_inv in Hv as (entry & Hget & Hv).
  apply getitem_ok_get in Hget.
  eapply (visit_prereqs_sound db (GraphValidation.dfs_visit fuel db) node entry st
            Hget Hpre IH (Pre_Reqs entry)); [auto| |exact Hv].
  intros g Hg. unfold gray in *. simpl in Hg.
  rewrite dict_get_set_string in Hg.
  destruct (String.eqb node g) eqn:E; [|right; exact Hg].
  apply String.eqb_eq in E. left. congruence.
Qed.

Lemma detect_from_sound db depth ids : forall st r,
  (forall g, ~ gray st g) ->
  GraphValidation.detect_from db depth ids st = Ok r ->
  (fst r = true -> closed_cycle db (snd r)) /\
  (fst r = false -> snd r = []).
Proof.
  induction ids as [|skill rest IH]; intros st r Hno Hd; simpl in Hd.
  - injection Hd as <-. split; [discriminate | reflexivity].
  - apply bind_ok_inv in Hd as (c & _ & Hd).
    destruct (GraphValidation.is_white c); [|eauto].
    apply bind_ok_inv in Hd as (r1 & Hr1 & Hd).
    apply dfs_visit_sound in Hr1 as [Htrue Hfalse];
      [|intros g Hg; destruct (Hno g Hg)].
    destruct (fst (snd r1)) eqn:E.
    + injection Hd as <-. split; [intros _; apply Htrue; reflexivity|].
      rewrite E. discriminate.
    + apply (IH (fst r1) r); [|exact Hd].
      intros g Hg. apply (Hno g). apply (proj2 (Hfalse eq_refl)). exact Hg.
Qed.

Lemma all_white_no_gray (ids : list string) :
  forall (d : dict string GraphValidation.color) (g : string),
  dict_get d g <> Some GraphValidation.GRAY ->
  dict_get (fold_left (fun d skill => dict_set d skill GraphValidation.WHITE) ids d) g
    <> Some GraphValidation.GRAY.
Proof.
  induction ids as [|x ids IH]; intros d g Hd; cbn [fold_left]; [exact Hd|].
  apply IH. rewrite dict_get_set_string.
  destruct (String.eqb x g); [discriminate | exact Hd].
Qed.

Lemma detect_cycles_sound (self : GraphValidation.validator) r :
  GraphValidation._detect_cycles self = Ok r ->
  (fst r = true -> closed_cycle (GraphValidation.skills_db self) (snd r)) /\
  (fst r = false -> snd r = []).
Proof.
  unfold GraphValidation._detect_cycles. intros Hd.
  eapply detect_from_sound; [|exact Hd].
  intros g Hg. unfold gray in Hg. simpl in Hg.
  revert Hg. apply all_white_no_gray. simpl. discriminate.
Qed.

(** X20.  [_detect_cycles] reports a cycle only when the graph has one:
    when it answers [True], the path it returns starts and ends with
    the same skill, with at least one entry in between, and that skill
    lies on a cycle of prerequisite edges of the table.  When it
    answers [False] the path is empty. *)
Theorem detected_cycle_is_a_cycle :
  forall (self : GraphValidation.validator) (has_cycle : bool)
         (cycle_path : list string),
    GraphValidation._detect_cycles self = Ok (has_cycle, cycle_path) ->
    (has_cycle = true ->
     exists s mid,
       cycle_path = s :: mid ++ [s] /\ mid <> [] /\
       exists b, requires (GraphValidation.skills_db self) s b /\
                 chain (GraphValidation.skills_db self) b s) /\
    (has_cycle = false -> cycle_path = []).
Proof.
  intros self has_cycle cycle_path Hd.
  apply detect_cycles_sound in Hd as [Htrue Hfalse]. simpl in *.
  split; [|exact Hfalse]. intros Hc. exact (Htrue Hc).
Qed.

Definition two_cycle_db : SkillsDB :=
  [("A", mkSkill 1 1 1 ["B"]); ("B", mkSkill 1 1 1 ["A"])].

Lemma detected_cycle_is_a_cycle_witness :
  (true = true ->
   exists s mid,
     ["A"; "B"; "A"] = s :: mid ++ [s] /\ mid <> [] /\
     exists b,
       requires (GraphValidation.skills_db
                   (GraphValidation.init identity_order two_cycle_db)) s b /\
       chain (GraphValidation.skills_db
                (GraphValidation.init identity_order two_cycle_db)) b s) /\
  (true = false -> ["A"; "B"; "A"] = []).
Proof.
  apply (detected_cycle_is_a_cycle
           (GraphValidation.init identity_order two_cycle_db) true
           ["A"; "B"; "A"]).
  vm_compute; reflexivity.
Defined.

(** ** [validate_before_optimization] *)

Definition validation_failed : string :=
  String.append GraphValidation.newline
    (String.append "🚫 VALIDAÇÃO FALHOU - Não é possível prosseguir!"
       GraphValidation.newline).

Definition orphans_line : string :=
  String.append "   Pré-requisitos inexistentes detectados."
    GraphValidation.newline.

Definition cycles_line : string :=
  String.append "   Ciclos detectados no grafo." GraphValidation.newline.

(** X21.  [validate_before_optimization] never returns [False].  It
    returns [True] only when the table has no dangling prerequisite
    and no cycle was detected.  A dangling prerequisite makes it raise
    [ValueError] with the line about missing prerequisites alone (the
    cycle detection is not reached), and a detected cycle makes it
    raise [ValueError] with the line about cycles alone. *)
Theorem validate_before_optimization_verdict :
  forall (set_order : list string -> list string) (arg : option SkillsDB),
    let db := match arg with None => SKILLS_DATABASE | Some d => d end in
    let self := GraphValidation.init set_order db in
    (forall b,
       GraphValidation.validate_before_optimization set_order arg = Ok b ->
       b = true /\
       GraphValidation._check_orphan_prereqs self = [] /\
       GraphValidation._detect_cycles self = Ok (false, [])) /\
    (GraphValidation._check_orphan_prereqs self <> [] ->
     GraphValidation.validate_before_optimization set_order arg
       = Raise (ValueError (String.append validation_failed orphans_line))) /\
    (GraphValidation._check_orphan_prereqs self = [] ->
     forall cycle_path,
       GraphValidation._detect_cycles self = Ok (true, cycle_path) ->
       GraphValidation.validate_before_optimization set_order arg
         = Raise (ValueError (String.append validation_failed cycles_line))).
Proof.
  intros set_order arg db self.
  unfold GraphValidation.validate_before_optimization.
  fold db. fold self. split; [|split].
  - intros b Hv. apply bind_ok_inv in Hv as ([is_valid report] & Hg & Hv).
    destruct is_valid; simpl in Hv; [|discriminate]. injection Hv as <-.
    split; [reflexivity|].
    unfold GraphValidation.validate_graph in Hg.
    destruct (GraphValidation._check_orphan_prereqs self); [|discriminate].
    split; [reflexivity|]. simpl in Hg.
    apply bind_ok_inv in Hg as ([has_cycle cycle_path] & Hd & Hg).
    destruct has_cycle; simpl in Hg; [discriminate|].
    apply detect_cycles_sound in Hd as Hs. destruct Hs as [_ Hnil].
    simpl in Hnil. rewrite (Hnil eq_refl) in Hd. exact Hd.
  - intros Hne. rewrite (validate_graph_verbose_halts self Hne). simpl.
    destruct (GraphValidation._check_orphan_prereqs self); [congruence|].
    reflexivity.
  - intros Hnil p Hd. unfold GraphValidation.validate_graph.
    rewrite Hnil. simpl. rewrite Hd. simpl.
    apply detect_cycles_sound in Hd as [Hc _].
    destruct (Hc eq_refl) as (s & mid & Hp & _). simpl in Hp. subst p.
    reflexivity.
Qed.

(** ** [_topological_sort] of the validator *)

Lemma nodup_in_get {V} (d : dict string V) k v :
  NoDup (map fst d) -> In (k, v) d -> dict_get d k = Some v.
Proof.
  induction d as [|[k0 v0] d IH]; simpl; intros Hnd Hin; [destruct Hin|].
  inversion Hnd as [|? ? Hk0 Hnd']; subst.
  destruct Hin as [Heq | Hin].
  - injection Heq as -> ->. rewrite String.eqb_refl. reflexivity.
  - destruct (String.eqb k0 k) eqn:E; [|auto].
    apply String.eqb_eq in E. subst k0. exfalso. apply Hk0.
    apply in_map_iff. exists (k, v). auto.
Qed.

Lemma dict_set_nodup {V} (d : dict string V) k v :
  NoDup (map fst d) -> NoDup (map fst (dict_set d k v)).
Proof.
  induction d as [|[k0 v0] d IH]; simpl; intros Hnd.
  - constructor; [intros [] | constructor].
  - inversion Hnd as [|? ? Hk0 Hnd']; subst.
    destruct (String.eqb k0 k) eqn:E; simpl; [constructor; assumption|].
    constructor; [|apply IH, Hnd'].
    intros Hin. apply in_map_iff in Hin as ([k1 v1] & Heq & Hin).
    simpl in Heq. subst k1. apply dict_set_In in Hin as [Heq | Hin].
    + injection Heq as -> _. rewrite String.eqb_refl in E. discriminate.
    + apply Hk0. apply in_map_iff. exists (k0, v1). auto.
Qed.

Lemma dict_get_app {V} (d1 d2 : dict string V) k :
  dict_get (d1 ++ d2) k
  = match dict_get d1 k with
    | Some v => Some v
    | None => dict_get d2 k
    end.
Proof.
  induction d1 as [|[k0 v0] d1 IH]; simpl; [reflexivity|].
  destruct (String.eqb k0 k); [reflexivity | exact IH].
Qed.

Lemma filter_all {A} (f : A -> bool) (l : list A) :
  (forall x, In x l -> f x = true) -> filter f l = l.
Proof.
  induction l as [|x l IH]; intros Hf; simpl; [reflexivity|].
  rewrite (Hf x (or_introl eq_refl)), IH; [reflexivity|].
  intros y Hy. apply Hf. right. exact Hy.
Qed.

Lemma zero_and_positive_counters (d : dict string Z) :
  (List.length (map fst (filter (fun e => (snd e =? 0)%Z) d)) + positives d
   <= List.length d)%nat.
Proof.
  unfold positives. rewrite length_map.
  induction d as [|[k n] d IH]; simpl; [lia|].
  destruct (n =? 0) eqn:E0; destruct (0 <? n) eqn:Ep; simpl; lia.
Qed.

Lemma bind_ext {A B} (m : result A) (f g : A -> result B) :
  (forall a, f a = g a) -> bind m f = bind m g.
Proof. intros Hfg. destruct m; simpl; [apply Hfg | reflexivity]. Qed.

Section ValidatorKahn.
Variable db : SkillsDB.
Variable ids : list string.
Hypothesis keys_unique : NoDup (map fst db).
Hypothesis ids_keys : Permutation ids (map fst db).
Hypothesis closed : no_dangling db.

Lemma item_getitem item : In item db -> getitem db (fst item) = Ok (snd item).
Proof.
  intros Hin. unfold getitem. destruct item as [k v]. cbn [fst snd].
  rewrite (nodup_in_get db k v keys_unique Hin). reflexivity.
Qed.

Lemma keys_present : Forall (present db) (map fst db).
Proof.
  apply Forall_forall. intros s Hs. apply dict_get_in_keys. exact Hs.
Qed.

Lemma key_is_id s : In s (map fst db) -> mem s ids = true.
Proof.
  intros Hs. apply mem_In. eapply Permutation_in;
    [apply Permutation_sym, ids_keys | exact Hs].
Qed.

Lemma prereq_is_key s entry p :
  dict_get db s = Some entry -> In p (Pre_Reqs entry) -> In p (map fst db).
Proof.
  intros Hget Hp. apply dict_get_in_keys.
  apply (closed s entry p); [apply dict_get_In, Hget | exact Hp].
Qed.

(** The release loop of the validator runs over the items of the
    table, that of the solver over identifiers it looks up: on a table
    they do the same. *)
Lemma release_agree current (l : SkillsDB) :
  forall st : dict string Z * list string,
  (forall item, In item l -> getitem db (fst item) = Ok (snd item)) ->
  foldM (GraphValidation.release current) l st
  = foldM (Challenge1.release db current) (map fst l) st.
Proof.
  induction l as [|item l IH]; intros st Hl; [reflexivity|].
  cbn [foldM map].
  assert (Hhead : GraphValidation.release current st item
                  = Challenge1.release db current st (fst item)).
  { unfold GraphValidation.release, Challenge1.release.
    rewrite (Hl item (or_introl eq_refl)). reflexivity. }
  rewrite Hhead.
  destruct (Challenge1.release db current st (fst item)) as [st'|e];
    [|reflexivity].
  cbn [bind]. apply IH. intros it Hit. apply Hl. right. exact Hit.
Qed.

Lemma kahn_agree : forall fuel (d : dict string Z) queue order,
  GraphValidation.kahn_loop fuel db d queue order
  = Challenge1.kahn_loop fuel db (map fst db) d queue order.
Proof.
  induction fuel as [|fuel IH]; intros d queue order;
    destruct queue as [|current rest]; try reflexivity.
  cbn [GraphValidation.kahn_loop Challenge1.kahn_loop].
  rewrite (release_agree current db (d, rest)) by (intros; apply item_getitem; auto).
  apply bind_ext. intros st. apply IH.
Qed.

(** *** The counters *)

Lemma count_item_get s (ps : list string) : forall (d : dict string Z) n,
  dict_get d s = Some n ->
  exists d',
    foldM (fun d _ => GraphValidation.in_degree_add d s 1) ps d = Ok d' /\
    dict_get d' s = Some (n + Z.of_nat (List.length ps)) /\
    (forall s', s' <> s -> dict_get d' s' = dict_get d s') /\
    (NoDup (map fst d) -> NoDup (map fst d')).
Proof.
  induction ps as [|p ps IH]; intros d n Hn.
  - exists d. simpl. rewrite Z.add_0_r. auto.
  - cbn [foldM]. unfold GraphValidation.in_degree_add at 1, getitem.
    rewrite Hn. cbn [bind].
    destruct (IH (dict_set d s (n + 1)) (n + 1)) as (d' & Hf & A & B & C).
    { rewrite dict_get_set_string, String.eqb_refl. reflexivity. }
    exists d'. split; [exact Hf|]. split; [|split].
    + rewrite A. f_equal. cbn [List.length]. lia.
    + intros s' Hs'. rewrite (B s' Hs'), dict_get_set_string.
      destruct (String.eqb s s') eqn:E; [|reflexivity].
      apply String.eqb_eq in E. congruence.
    + intros Hnd. apply C, dict_set_nodup, Hnd.
Qed.

(** The counters while the first loop has handled the items [done]. *)
Definition tallied (done : SkillsDB) (d : dict string Z) : Prop :=
  forall s, dict_get d s
            = if mem s ids
              then Some (match dict_get done s with
                         | Some entry => Z.of_nat (List.length (Pre_Reqs entry))
                         | None => 0
                         end)
              else None.

Lemma count_items_tallied (l : SkillsDB) : forall (done : SkillsDB) d,
  done ++ l = db -> tallied done d -> NoDup (map fst d) ->
  exists d',
    foldM GraphValidation.count_item l d = Ok d' /\
    tallied (done ++ l) d' /\ NoDup (map fst d').
Proof.
  induction l as [|[s entry] l IH]; intros done d Hdb Ht Hnd.
  - exists d. rewrite app_nil_r. auto.
  - assert (Hkey : In s (map fst db)).
    { rewrite <- Hdb, map_app. apply in_or_app. right. left. reflexivity. }
    assert (Hfresh : dict_get done s = None).
    { destruct (dict_get done s) eqn:E; [|reflexivity]. exfalso.
      assert (Hin : In s (map fst done)) by (apply dict_get_in_keys; congruence).
      rewrite <- Hdb, map_app in keys_unique.
      apply NoDup_remove_2 in keys_unique. apply keys_unique.
      apply in_or_app. left. exact Hin. }
    assert (H0 : dict_get d s = Some 0).
    { rewrite Ht, (key_is_id s Hkey), Hfresh. reflexivity. }
    destruct (count_item_get s (Pre_Reqs entry) d 0 H0) as (d1 & H1 & A & B & C).
    cbn [foldM]. unfold GraphValidation.count_item at 1. cbn [fst snd].
    rewrite H1. cbn [bind].
    destruct (IH (done ++ [(s, entry)]) d1) as (d' & Hf & Ht' & Hnd').
    + rewrite <- app_assoc. exact Hdb.
    + intros s'. rewrite dict_get_app. destruct (String.eqb s s') eqn:E.
      * apply String.eqb_eq in E. subst s'.
        rewrite A, (key_is_id s Hkey), Hfresh. simpl.
        rewrite String.eqb_refl. reflexivity.
      * apply String.eqb_neq in E. rewrite B by congruence. rewrite Ht.
        simpl. apply String.eqb_neq in E. rewrite E.
        destruct (dict_get done s'); reflexivity.
    + apply C, Hnd.
    + exists d'. rewrite <- app_assoc in Ht'. auto.
Qed.

Lemma zero_counters_nodup : forall (l : list string) (d0 : dict string Z),
  NoDup (map fst d0) ->
  NoDup (map fst (fold_left (fun d skill => dict_set d skill 0) l d0)).
Proof.
  induction l as [|x l IH]; intros d0 Hnd; cbn [fold_left]; [exact Hnd|].
  apply IH, dict_set_nodup, Hnd.
Qed.

Lemma counters_after_counting :
  exists d,
    foldM GraphValidation.count_item db
      (fold_left (fun d skill => dict_set d skill 0) ids []) = Ok d /\
    tallied db d /\ NoDup (map fst d).
Proof.
  apply (count_items_tallied db [] _ eq_refl).
  - intros s. rewrite in_degree_zero_get. simpl.
    destruct (mem s ids); reflexivity.
  - apply zero_counters_nodup. constructor.
Qed.

Lemma indeg_all s entry :
  dict_get db s = Some entry ->
  indeg db (map fst db) s = Z.of_nat (List.length (Pre_Reqs entry)).
Proof.
  intros Hget. unfold indeg, prereqs_of, skill_of. rewrite Hget.
  rewrite filter_all; [reflexivity|].
  intros p Hp. apply mem_In. eapply prereq_is_key; eauto.
Qed.

Lemma validator_kahn_initial d :
  tallied db d -> NoDup (map fst d) ->
  kahn_inv db (map fst db) d (map fst (filter (fun e => snd e =? 0) d)) [].
Proof.
  intros Ht Hnd.
  assert (Hcount : forall s, In s (map fst db) ->
            dict_get d s = Some (indeg db (map fst db) s)).
  { intros s Hs. rewrite Ht, (key_is_id s Hs).
    destruct (dict_get db s) as [entry|] eqn:E.
    - rewrite (indeg_all s entry E). reflexivity.
    - apply dict_get_in_keys in Hs. contradiction. }
  assert (Hq : forall s, In s (map fst (filter (fun e => snd e =? 0) d)) <->
                         dict_get d s = Some 0).
  { intros s. rewrite in_map_iff. split.
    - intros ([k n] & Heq & Hin). simpl in Heq. subst k.
      apply filter_In in Hin as [Hin Hz]. simpl in Hz. apply Z.eqb_eq in Hz.
      subst n. apply nodup_in_get; assumption.
    - intros Hget. exists (s, 0). split; [reflexivity|].
      apply filter_In. split; [apply dict_get_In, Hget | reflexivity]. }
  assert (Hqkey : forall s, In s (map fst (filter (fun e => snd e =? 0) d)) ->
                            In s (map fst db)).
  { intros s Hs. apply Hq in Hs. rewrite Ht in Hs.
    destruct (mem s ids) eqn:E; [|discriminate].
    apply mem_In in E. eapply Permutation_in; eauto. }
  repeat split.
  - intros s Hs. exists (indeg db (map fst db) s).
    split; [apply Hcount, Hs|]. unfold hits. simpl. lia.
  - simpl. clear - Hnd. induction d as [|[k n] d IH]; simpl; [constructor|].
    inversion Hnd as [|? ? Hk Hnd']; subst.
    destruct (n =? 0); simpl; [|auto].
    constructor; [|auto]. intros Hin. apply Hk.
    apply in_map_iff in Hin as (e & He & Hin). apply filter_In in Hin as [Hin _].
    apply in_map_iff. exists e. auto.
  - simpl. intros s Hs. apply Hqkey, Hs.
  - simpl. intros s Hs. apply Hq in Hs. exists 0. split; [exact Hs | lia].
  - intros s Hs p Hp _. exfalso.
    pose proof (Hqkey s Hs) as Hkey. apply Hq in Hs.
    rewrite (Hcount s Hkey) in Hs. injection Hs as Hs.
    destruct (dict_get db s) as [entry|] eqn:E.
    + rewrite (indeg_all s entry E) in Hs.
      unfold prereqs_of, skill_of in Hp. rewrite E in Hp.
      destruct (Pre_Reqs entry); [destruct Hp | simpl in Hs; lia].
    + apply dict_get_in_keys in Hkey. contradiction.
  - intros pre s suf Heq. destruct pre; discriminate.
  - simpl. intros s n Hs Hget Hn. apply Hq.
    rewrite (Hcount s Hs) in Hget. injection Hget as <-.
    rewrite (Hcount s Hs). f_equal. unfold indeg in *. lia.
Qed.

(** On a table without dangling prerequisite [_topological_sort]
    returns, and what it returns has no repetition, lists skills of
    the table and puts every prerequisite before the skill. *)
Lemma validator_sort_linear :
  exists topo,
    GraphValidation._topological_sort (GraphValidation.mkValidator db ids)
      = Ok topo /\
    NoDup topo /\ incl topo (map fst db) /\
    topological_linearization db topo /\
    (forall s, In s (map fst db) -> ~ In s topo ->
       hits db topo s < indeg db (map fst db) s).
Proof.
  destruct counters_after_counting as (d & Hd & Ht & Hnd).
  pose proof (validator_kahn_initial d Ht Hnd) as Hinv.
  destruct (kahn_loop_total db (map fst db) keys_unique keys_present
              (S (List.length d)) d _ [] Hinv) as (topo & Htopo).
  { pose proof (zero_and_positive_counters d). simpl. lia. }
  destruct (kahn_loop_linear db (map fst db) keys_unique keys_present
              _ _ _ _ _ Htopo Hinv) as (A & B & C & D).
  exists topo. unfold GraphValidation._topological_sort.
  cbn [GraphValidation.skills_db GraphValidation.all_skill_ids].
  rewrite Hd. cbn [bind]. rewrite kahn_agree. split; [exact Htopo|].
  repeat split; auto.
  intros pre s suf entry Heq Hget p Hp.
  apply getitem_ok_get in Hget.
  apply (C pre s suf Heq).
  - unfold prereqs_of, skill_of. rewrite Hget. exact Hp.
  - eapply prereq_is_key; eauto.
Qed.

(** When moreover the table has no cycle and no prerequisite list
    repeats an entry, the order lists every skill. *)
Lemma validator_sort_complete topo rank :
  acyclic_by db (map fst db) rank ->
  prereqs_listed_once db (map fst db) ->
  NoDup topo -> incl topo (map fst db) ->
  (forall s, In s (map fst db) -> ~ In s topo ->
     hits db topo s < indeg db (map fst db) s) ->
  Permutation topo (map fst db).
Proof.
  intros Hacyc Honce Hnd Hincl Hmiss.
  assert (Hall : forall n s, (rank s < n)%nat -> In s (map fst db) -> In s topo).
  { induction n as [|n IH]; intros s Hr Hs; [lia|].
    destruct (in_dec string_dec s topo) as [Hin | Hno]; [exact Hin|].
    exfalso. specialize (Hmiss s Hs Hno).
    pose proof keys_present as Hp. rewrite Forall_forall in Hp.
    pose proof (getitem_present db s (Hp s Hs)) as Hget.
    assert (Hpre : forall p, In p (prereqs_of db s) ->
              In p (map fst db) /\ In p topo).
    { intros p Hpin.
      assert (Hpr : In p (map fst db)).
      { apply getitem_ok_get in Hget. eapply prereq_is_key; eauto. }
      split; [exact Hpr|]. apply IH; [|exact Hpr].
      specialize (Hacyc s _ Hs Hget p Hpin). lia. }
    unfold hits, indeg in Hmiss.
    assert (Hlen : (List.length (filter (fun p => mem p (map fst db))
                                    (prereqs_of db s))
                    <= List.length (filter (fun c => mem c (prereqs_of db s)) topo))%nat).
    { apply NoDup_incl_length.
      - apply NoDup_filter. apply (Honce s _ Hs Hget).
      - intros p Hpin. apply filter_In in Hpin as [Hpin _].
        apply filter_In. split; [apply Hpre, Hpin | apply mem_In, Hpin]. }
    lia. }
  apply NoDup_Permutation; auto.
  intros x. split; [apply Hincl|]. intros Hx. apply (Hall (S (rank x))); auto.
Qed.

End ValidatorKahn.

(** ** [_detect_cycles] on a table without cycle *)

Lemma fold_set_get {V} (v : V) (l : list string) :
  forall (d0 : dict string V) s,
  dict_get (fold_left (fun d k => dict_set d k v) l d0) s
  = if mem s l then Some v else dict_get d0 s.
Proof.
  induction l as [|x l IH]; intros d0 s; [reflexivity|].
  cbn [fold_left]. rewrite IH, dict_get_set_string, mem_cons, String.eqb_sym.
  destruct (mem s l); [rewrite orb_true_r; reflexivity|].
  rewrite orb_false_r. reflexivity.
Qed.

Lemma dict_set_length {V} (d : dict string V) k v :
  (List.length (dict_set d k v) <= S (List.length d))%nat.
Proof.
  induction d as [|[k0 v0] d IH]; simpl; [lia|].
  destruct (String.eqb k0 k); simpl; lia.
Qed.

Lemma fold_set_length {V} (v : V) (l : list string) :
  forall d0 : dict string V,
  (List.length (fold_left (fun d k => dict_set d k v) l d0)
   <= List.length d0 + List.length l)%nat.
Proof.
  induction l as [|x l IH]; intros d0; cbn [fold_left]; [simpl; lia|].
  specialize (IH (dict_set d0 x v)).
  pose proof (dict_set_length d0 x v). simpl. lia.
Qed.

(** The number of white nodes bounds the depth of the search. *)
Definition whites (colors : dict string GraphValidation.color) : nat :=
  List.length (filter (fun e => GraphValidation.is_white (snd e)) colors).

Lemma whites_set_other colors k c :
  GraphValidation.is_white c = false ->
  (whites (dict_set colors k c) <= whites colors)%nat.
Proof.
  intros Hc. unfold whites.
  induction colors as [|[k0 c0] colors IH]; simpl.
  - rewrite Hc. simpl. lia.
  - destruct (String.eqb k0 k); simpl.
    + rewrite Hc. destruct (GraphValidation.is_white c0); simpl; lia.
    + destruct (GraphValidation.is_white c0); simpl; lia.
Qed.

Lemma whites_set_white colors k c :
  dict_get colors k = Some GraphValidation.WHITE ->
  GraphValidation.is_white c = false ->
  S (whites (dict_set colors k c)) = whites colors.
Proof.
  intros Hk Hc. unfold whites.
  induction colors as [|[k0 c0] colors IH]; simpl in *; [discriminate|].
  destruct (String.eqb k0 k); simpl.
  - injection Hk as ->. rewrite Hc. reflexivity.
  - destruct (GraphValidation.is_white c0); simpl; rewrite <- (IH Hk); reflexivity.
Qed.

Section DfsTotal.
Variable db : SkillsDB.
Variable ids : list string.
Hypothesis ids_present : forall s, In s ids -> dict_get db s <> None.
Hypothesis closed_ids :
  forall s entry p, dict_get db s = Some entry -> In p (Pre_Reqs entry) -> In p ids.
Hypothesis acyclic : forall s, ~ on_cycle db s.

(** Every identifier has a colour. *)
Definition coloured (st : GraphValidation.dfs_state) : Prop :=
  forall s, In s ids -> dict_get (GraphValidation.colors st) s <> None.

(** A visit that finds no cycle: it returns, leaves every identifier
    coloured, and adds neither white nor gray nodes. *)
Definition visit_clean (st : GraphValidation.dfs_state)
    (r : result (GraphValidation.dfs_state * (bool * list string))) : Prop :=
  exists st',
    r = Ok (st', (false, [])) /\ coloured st' /\
    (whites (GraphValidation.colors st') <= whites (GraphValidation.colors st))%nat /\
    (forall g, gray st' g -> gray st g).

Lemma coloured_set st k c parents :
  coloured st ->
  coloured (GraphValidation.mkDfs (dict_set (GraphValidation.colors st) k c) parents).
Proof.
  intros Hc s Hs. simpl. rewrite dict_get_set_string.
  destruct (String.eqb k s); [discriminate | apply Hc, Hs].
Qed.

Opaque GraphValidation.climb.

Lemma visit_prereqs_total rec node entry st bound :
  dict_get db node = Some entry ->
  (forall g, gray st g -> chain db g node) ->
  (forall prereq st1,
     In prereq ids -> coloured st1 ->
     (forall g, gray st1 g -> chain db g prereq) ->
     dict_get (GraphValidation.colors st1) prereq = Some GraphValidation.WHITE ->
     (whites (GraphValidation.colors st1) <= bound)%nat ->
     visit_clean st1 (rec prereq st1)) ->
  forall prereqs st0,
    (forall p, In p prereqs -> In p (Pre_Reqs entry)) ->
    coloured st0 ->
    (forall g, gray st0 g -> g = node \/ gray st g) ->
    (whites (GraphValidation.colors st0) <= bound)%nat ->
    exists st',
      visit_prereqs_of rec node prereqs st0 = Ok (st', (false, [])) /\
      coloured st' /\
      (whites (GraphValidation.colors st')
       <= whites (GraphValidation.colors st0))%nat /\
      (forall g, gray st' g -> gray st g).
Proof.
  intros Hentry Hpre Hrec.
  assert (Hreach : forall st0, (forall g, gray st0 g -> g = node \/ gray st g) ->
                   forall g, gray st0 g -> chain db g node).
  { intros st0 H0 g Hg. destruct (H0 g Hg) as [-> | Hg'];
      [apply chain_refl | auto]. }
  induction prereqs as [|prereq rest IH]; intros st0 Hsuf Hcol H0 Hw.
  - eexists. split; [reflexivity|]. split; [|split].
    + apply coloured_set, Hcol.
    + simpl. apply whites_set_other. reflexivity.
    + intros g Hg. unfold gray in Hg. simpl in Hg.
      rewrite dict_get_set_string in Hg.
      destruct (String.eqb node g) eqn:E; [discriminate|].
      apply String.eqb_neq in E.
      destruct (H0 g Hg) as [-> | Hg']; [congruence | exact Hg'].
  - assert (Hedge : requires db node prereq).
    { exists entry. split; [exact Hentry|]. apply Hsuf. left. reflexivity. }
    assert (Hid : In prereq ids).
    { eapply closed_ids; [exact Hentry|]. apply Hsuf. left. reflexivity. }
    assert (Hrest : forall p, In p rest -> In p (Pre_Reqs entry)).
    { intros p Hp. apply Hsuf. right. exact Hp. }
    cbn [visit_prereqs_of]. unfold getitem at 1.
    destruct (dict_get (GraphValidation.colors st0) prereq) as [c|] eqn:Ec;
      [|exfalso; exact (Hcol prereq Hid Ec)].
    cbn [bind]. destruct c; cbn [GraphValidation.is_gray GraphValidation.is_white].
    + (* white: descend *)
      destruct (Hrec prereq
                  (GraphValidation.mkDfs (GraphValidation.colors st0)
                     (dict_set (GraphValidation.parent st0) prereq (Some node))))
        as (st2 & Hr & Hcol2 & Hw2 & Hg2).
      * exact Hid.
      * exact Hcol.
      * intros g Hg. eapply chain_snoc; [|exact Hedge].
        apply (Hreach st0 H0). exact Hg.
      * exact Ec.
      * exact Hw.
      * rewrite Hr. cbn [bind fst snd].
        destruct (IH st2 Hrest Hcol2) as (st' & Hv & A & B & C).
        -- intros g Hg. apply H0. apply Hg2. exact Hg.
        -- simpl in Hw2. lia.
        -- exists st'. split; [exact Hv|]. split; [exact A|].
           split; [simpl in Hw2; lia | exact C].
    + (* gray: impossible without a cycle *)
      exfalso. apply (acyclic prereq).
      apply (chain_closes db prereq node); [|exact Hedge].
      apply (Hreach st0 H0). exact Ec.
    + (* black: skip *)
      apply (IH st0 Hrest Hcol H0 Hw).
Qed.

Transparent GraphValidation.climb.

Lemma white_counts colors k :
  dict_get colors k = Some GraphValidation.WHITE -> (1 <= whites colors)%nat.
Proof.
  intros Hk.
  rewrite <- (whites_set_white colors k GraphValidation.GRAY Hk eq_refl). lia.
Qed.

Lemma dfs_visit_total : forall fuel node st,
  In node ids -> coloured st ->
  (forall g, gray st g -> chain db g node) ->
  dict_get (GraphValidation.colors st) node = Some GraphValidation.WHITE ->
  (whites (GraphValidation.colors st) <= fuel)%nat ->
  visit_clean st (GraphValidation.dfs_visit fuel db node st).
Proof.
  induction fuel as [|fuel IH]; intros node st Hid Hcol Hpre Hwhite Hw.
  - apply white_counts in Hwhite. lia.
  - rewrite dfs_visit_unfold. unfold getitem at 1.
    destruct (dict_get db node) as [entry|] eqn:Eentry;
      [|exfalso; exact (ids_present node Hid Eentry)].
    cbn [bind].
    pose proof (whites_set_white _ node GraphValidation.GRAY Hwhite eq_refl) as Hdec.
    destruct (visit_prereqs_total (GraphValidation.dfs_visit fuel db) node entry st
                fuel Eentry Hpre IH (Pre_Reqs entry)
                (GraphValidation.mkDfs
                   (dict_set (GraphValidation.colors st) node GraphValidation.GRAY)
                   (GraphValidation.parent st)))
      as (st' & Hv & A & B & C).
    + auto.
    + apply coloured_set, Hcol.
    + intros g Hg. unfold gray in *. simpl in Hg.
      rewrite dict_get_set_string in Hg.
      destruct (String.eqb node g) eqn:E; [|right; exact Hg].
      apply String.eqb_eq in E. left. congruence.
    + simpl. lia.
    + exists st'. split; [exact Hv|]. split; [exact A|].
      split; [simpl in B; lia | exact C].
Qed.

Lemma detect_from_total depth : forall l st,
  incl l ids -> coloured st -> (forall g, ~ gray st g) ->
  (whites (GraphValidation.colors st) <= depth)%nat ->
  GraphValidation.detect_from db depth l st = Ok (false, []).
Proof.
  induction l as [|skill rest IH]; intros st Hincl Hcol Hno Hw; [reflexivity|].
  cbn [GraphValidation.detect_from]. unfold getitem at 1.
  assert (Hid : In skill ids) by (apply Hincl; left; reflexivity).
  assert (Hrest : incl rest ids) by (intros x Hx; apply Hincl; right; exact Hx).
  destruct (dict_get (GraphValidation.colors st) skill) as [c|] eqn:Ec;
    [|exfalso; exact (Hcol skill Hid Ec)].
  cbn [bind].
  destruct (GraphValidation.is_white c) eqn:Ew; [|apply IH; auto].
  destruct c; try discriminate.
  destruct (dfs_visit_total depth skill st Hid Hcol) as (st' & Hr & A & B & C).
  - intros g Hg. destruct (Hno g Hg).
  - exact Ec.
  - exact Hw.
  - rewrite Hr. cbn [bind fst snd]. apply IH; auto.
    + intros g Hg. apply (Hno g), C, Hg.
    + lia.
Qed.

Lemma detect_cycles_total :
  NoDup ids ->
  GraphValidation._detect_cycles (GraphValidation.mkValidator db ids)
    = Ok (false, []).
Proof.
  intros Hnd. unfold GraphValidation._detect_cycles.
  cbn [GraphValidation.all_skill_ids GraphValidation.skills_db].
  apply detect_from_total.
  - apply incl_refl.
  - intros s Hs. simpl. rewrite fold_set_get.
    apply mem_In in Hs. rewrite Hs. discriminate.
  - intros g Hg. unfold gray in Hg. simpl in Hg.
    revert Hg. apply all_white_no_gray. simpl. discriminate.
  - simpl. unfold whites.
    pose proof (filter_length_le
                  (fun e : string * GraphValidation.color =>
                     GraphValidation.is_white (snd e))
                  (fold_left (fun d k => dict_set d k GraphValidation.WHITE) ids [])).
    pose proof (fold_set_length GraphValidation.WHITE ids []). simpl in *. lia.
Qed.

(** *** [_print_graph_statistics] *)

Definition has_ids (d : dict string Z) : Prop :=
  forall s, In s ids -> dict_get d s <> None.

Lemma out_degree_total (ps : list string) : forall d : dict string Z,
  (forall p, In p ps -> In p ids) -> has_ids d ->
  exists d',
    foldM (fun d prereq => GraphValidation.in_degree_add d prereq 1) ps d = Ok d' /\
    has_ids d'.
Proof.
  induction ps as [|p ps IH]; intros d Hps Hd; [exists d; auto|].
  cbn [foldM]. unfold GraphValidation.in_degree_add at 1, getitem.
  destruct (dict_get d p) as [n|] eqn:En;
    [|exfalso; exact (Hd p (Hps p (or_introl eq_refl)) En)].
  cbn [bind]. apply IH; [intros q Hq; apply Hps; right; exact Hq|].
  intros s Hs. rewrite dict_get_set_string.
  destruct (String.eqb p s); [discriminate | apply Hd, Hs].
Qed.

Lemma out_degrees_total (l : list string) : forall d : dict string Z,
  incl l ids -> has_ids d ->
  exists d',
    foldM (fun d skill_id =>
             entry <- getitem db skill_id ;;
             foldM (fun d prereq => GraphValidation.in_degree_add d prereq 1)
               (Pre_Reqs entry) d)
      l d = Ok d' /\ has_ids d'.
Proof.
  induction l as [|x l IH]; intros d Hl Hd; [exists d; auto|].
  cbn [foldM]. unfold getitem at 1.
  assert (Hx : In x ids) by (apply Hl; left; reflexivity).
  destruct (dict_get db x) as [entry|] eqn:Ex;
    [|exfalso; exact (ids_present x Hx Ex)].
  cbn [bind].
  destruct (out_degree_total (Pre_Reqs entry) d) as (d1 & H1 & Hd1); auto.
  { intros p Hp. eapply closed_ids; eauto. }
  rewrite H1. cbn [bind]. apply IH; [|exact Hd1].
  intros y Hy. apply Hl. right. exact Hy.
Qed.

Lemma statistics_total :
  (2 <= List.length ids)%nat ->
  GraphValidation._print_graph_statistics (GraphValidation.mkValidator db ids)
    = Ok tt.
Proof.
  intros Hlen. unfold GraphValidation._print_graph_statistics.
  cbn [GraphValidation.all_skill_ids GraphValidation.skills_db].
  destruct (out_degrees_total ids
              (fold_left (fun d skill => dict_set d skill 0) ids []))
    as (d & Hd & _).
  - apply incl_refl.
  - intros s Hs. rewrite fold_set_get. apply mem_In in Hs. rewrite Hs.
    discriminate.
  - rewrite Hd. cbn [bind]. unfold truediv.
    destruct (Z.of_nat (List.length ids) =? 0) eqn:E1; [lia|].
    destruct (Z.of_nat (List.length ids) * (Z.of_nat (List.length ids) - 1) =? 0)
      eqn:E2; [|reflexivity].
    apply Z.eqb_eq in E2. apply Z.mul_eq_0 in E2. lia.
Qed.

End DfsTotal.

(** A rank that decreases along every prerequisite edge excludes
    cycles. *)
Lemma rank_excludes_cycles (db : SkillsDB) (rank : string -> nat) :
  acyclic_by db (map fst db) rank -> forall s, ~ on_cycle db s.
Proof.
  intros Hacyc.
  assert (Hedge : forall a b, requires db a b -> (rank b < rank a)%nat).
  { intros a b (entry & Hget & Hb).
    apply (Hacyc a entry); [| |exact Hb].
    - apply dict_get_in_keys. congruence.
    - unfold getitem. rewrite Hget. reflexivity. }
  assert (Hchain : forall a b, chain db a b -> (rank b <= rank a)%nat).
  { intros a b Hc. induction Hc as [a | a b c Hab Hbc IH]; [lia|].
    apply Hedge in Hab. lia. }
  intros s (b & Hsb & Hbs). apply Hedge in Hsb. apply Hchain in Hbs. lia.
Qed.

(** ** [validate_graph] on a well-formed table *)

Lemma validation_accepts (set_order : list string -> list string)
    (db : SkillsDB) (rank : string -> nat) :
  (forall l, Permutation (set_order l) l) ->
  NoDup (map fst db) ->
  no_dangling db ->
  acyclic_by db (map fst db) rank ->
  exists topo,
    GraphValidation.validate_graph (GraphValidation.init set_order db) false
      = Ok (true, GraphValidation.mkReport true [] [] [] topo) /\
    NoDup topo /\ incl topo (map fst db) /\
    topological_linearization db topo /\
    (prereqs_listed_once db (map fst db) -> Permutation topo (map fst db)) /\
    ((2 <= List.length db)%nat ->
     GraphValidation.validate_graph (GraphValidation.init set_order db) true
       = Ok (true, GraphValidation.mkReport true [] [] [] topo) /\
     GraphValidation.validate_before_optimization set_order (Some db) = Ok true).
Proof.
  intros Hperm Hkeys Hnd Hacyc.
  set (ids := set_order (map fst db)).
  assert (Hids : Permutation ids (map fst db)) by apply Hperm.
  assert (Hidsnd : NoDup ids).
  { eapply Permutation_NoDup; [apply Permutation_sym, Hids | exact Hkeys]. }
  assert (Hpresent : forall s, In s ids -> dict_get db s <> None).
  { intros s Hs. apply dict_get_in_keys. eapply Permutation_in; eauto. }
  assert (Hclosed : forall s entry p,
            dict_get db s = Some entry -> In p (Pre_Reqs entry) -> In p ids).
  { intros s entry p Hget Hp.
    eapply Permutation_in; [apply Permutation_sym, Hids|].
    apply dict_get_in_keys. apply (Hnd s entry p); [apply dict_get_In, Hget | exact Hp]. }
  pose proof (rank_excludes_cycles db rank Hacyc) as Hnocycle.
  destruct (validator_sort_linear db ids Hkeys Hids Hnd)
    as (topo & Htopo & A & B & C & D).
  pose proof (detect_cycles_total db ids Hpresent Hclosed Hnocycle Hidsnd) as Hdet.
  pose proof (proj2 (no_orphans_no_dangling set_order db Hperm) Hnd) as Horph.
  assert (Hquiet : forall verbose,
            (verbose = true ->
             GraphValidation._print_graph_statistics
               (GraphValidation.mkValidator db ids) = Ok tt) ->
            GraphValidation.validate_graph (GraphValidation.init set_order db) verbose
            = Ok (true, GraphValidation.mkReport true [] [] [] topo)).
  { intros verbose Hstats. unfold GraphValidation.validate_graph.
    rewrite Horph. unfold GraphValidation.init. fold ids.
    cbn [andb]. rewrite Hdet. cbn [bind andb]. rewrite Htopo. cbn [bind].
    destruct verbose; [rewrite (Hstats eq_refl)|]; reflexivity. }
  exists topo. split; [apply Hquiet; discriminate|].
  repeat split; auto.
  - intros Honce. eapply validator_sort_complete; eauto.
  - apply Hquiet. intros _.
    apply (statistics_total db ids Hpresent Hclosed).
    rewrite (Permutation_length Hids), length_map. assumption.
  - unfold GraphValidation.validate_before_optimization.
    rewrite Hquiet; [reflexivity|]. intros _.
    apply (statistics_total db ids Hpresent Hclosed).
    rewrite (Permutation_length Hids), length_map. assumption.
Qed.

(** X22.  On a table with no dangling prerequisite and no cycle (some
    rank decreases along every prerequisite edge), whatever order the
    set of identifiers is enumerated in, [validate_graph] returns
    [True] with a valid report without cycles or orphans, whose
    topological order has no repetition, lists skills of the table and
    puts every prerequisite before the skill that needs it; the order
    lists every skill when no prerequisite list repeats an entry.  With
    at least two skills the verbose mode returns the same, and
    [validate_before_optimization] returns [True]. *)
Theorem validation_accepts_acyclic_tables :
  forall (set_order : list string -> list string) (db : SkillsDB)
         (rank : string -> nat),
    (forall l, Permutation (set_order l) l) ->
    NoDup (map fst db) ->
    no_dangling db ->
    acyclic_by db (map fst db) rank ->
    exists topo,
      GraphValidation.validate_graph (GraphValidation.init set_order db) false
        = Ok (true, GraphValidation.mkReport true [] [] [] topo) /\
      NoDup topo /\ incl topo (map fst db) /\
      topological_linearization db topo /\
      (prereqs_listed_once db (map fst db) -> Permutation topo (map fst db)) /\
      ((2 <= List.length db)%nat ->
       GraphValidation.validate_graph (GraphValidation.init set_order db) true
         = Ok (true, GraphValidation.mkReport true [] [] [] topo) /\
       GraphValidation.validate_before_optimization set_order (Some db) = Ok true).
Proof.
  intros set_order db rank Hperm Hkeys Hnd Hacyc.
  apply (validation_accepts set_order db rank); assumption.
Qed.

(** A rank for the whole table of the repository. *)
Definition table_rank (s : string) : nat :=
  if mem s ["S6"] then 3
  else if mem s ["S4"; "S8"; "H11"; "H12"] then 2
  else if mem s ["S1"; "S2"; "S3"; "S5"; "S7"; "S9"] then 1
  else 0.

Lemma repository_acyclic :
  acyclic_by SKILLS_DATABASE (map fst SKILLS_DATABASE) table_rank.
Proof.
  intros s entry Hs Hget p Hp. simpl in Hs.
  repeat (destruct Hs as [<- | Hs];
          [vm_compute in Hget; injection Hget as <-; simpl in Hp;
           repeat (destruct Hp as [<- | Hp]; [vm_compute; lia|]);
           destruct Hp|]).
  destruct Hs.
Qed.

Lemma validation_accepts_acyclic_tables_witness :
  exists topo,
    GraphValidation.validate_graph
      (GraphValidation.init identity_order SKILLS_DATABASE) false
      = Ok (true, GraphValidation.mkReport true [] [] [] topo) /\
    NoDup topo /\ incl topo (map fst SKILLS_DATABASE) /\
    topological_linearization SKILLS_DATABASE topo /\
    (prereqs_listed_once SKILLS_DATABASE (map fst SKILLS_DATABASE) ->
     Permutation topo (map fst SKILLS_DATABASE)) /\
    ((2 <= List.length SKILLS_DATABASE)%nat ->
     GraphValidation.validate_graph
       (GraphValidation.init identity_order SKILLS_DATABASE) true
       = Ok (true, GraphValidation.mkReport true [] [] [] topo) /\
     GraphValidation.validate_before_optimization identity_order
       (Some SKILLS_DATABASE) = Ok true).
Proof.
  apply (validation_accepts_acyclic_tables identity_order SKILLS_DATABASE
           table_rank).
  - intros l. apply Permutation_refl.
  - simpl. repeat (constructor; [simpl; intuition discriminate|]). constructor.
  - exact repository_no_dangling.
  - exact repository_acyclic.
Defined.

(* ===================================================================== *)
(** * What the solver of gs_challenge1.py returns *)
(* ===================================================================== *)

(** A selection in the order of a list without repetition that holds
    every element of the list is the list. *)
Lemma Subseq_full {A} (s l : list A) :
  Subseq s l -> NoDup l -> incl l s -> s = l.
Proof.
  induction 1 as [|x s l Hs IH|x s l Hs IH]; intros Hnd Hincl.
  - reflexivity.
  - exfalso. inversion Hnd as [|? ? Hx _]; subst. apply Hx.
    eapply Subseq_In; [exact Hs|]. apply Hincl. left. reflexivity.
  - inversion Hnd as [|? ? Hx Hnd']; subst. f_equal. apply IH; [exact Hnd'|].
    intros y Hy. destruct (Hincl y (or_intror Hy)) as [<- | Hin];
      [contradiction | exact Hin].
Qed.

Lemma found_is_the_order set_order db target cap self mt mc p tv tt tc :
  (forall l, Permutation (set_order l) l) ->
  Challenge1.init set_order db target cap = Ok self ->
  Challenge1.solve_deterministic self mt mc = Ok (Challenge1.Found p tv tt tc) ->
  Challenge1._topological_sort self = Ok p /\
  Permutation p (Challenge1.required_skills self) /\
  tv = sum_valor db p.
Proof.
  intros Hperm Hi Hs.
  destruct (init_required_closure _ _ _ _ _ Hperm Hi) as (_ & _ & _ & _ & Hleast).
  destruct (init_topological_order _ _ _ _ _ Hperm Hi)
    as (topo & Htopo & Hnd & Hincl & _ & _ & _ & Hfull).
  assert (Hdb : Challenge1.skills_db self = db /\ Challenge1.target self = target).
  { apply init_inv in Hi as (R & t0 & acq & _ & -> & _). auto. }
  destruct Hdb as [Hdb Htg].
  apply solve_deterministic_found in Hs
    as (topo' & dp & k & sts & st & Ht' & Hdp & Hin & Hst & Hm & -> & -> & _).
  rewrite Htopo in Ht'. injection Ht' as <-.
  pose proof (tables_ordered self mt mc topo [] _ _ Hdp
                (initial_ordered _ mt mc) k sts st Hin Hst)
    as ((A & B & C & D & E & F) & G & H).
  simpl in G. rewrite Hdb in *. rewrite Htg in Hm.
  destruct (tables_linear _ _ _ _ _ Hdp k sts st Hin Hst) as (_ & Hlin).
  rewrite Hdb in Hlin. apply linearization_closed in Hlin.
  rewrite A in Hm. apply mem_In in Hm.
  assert (Hpath : Challenge1.path st = topo).
  { apply Subseq_full; [exact G | exact Hnd|].
    intros x Hx. apply (Hleast _ Hlin Hm), Hincl, Hx. }
  rewrite Hpath in *. split; [exact Htopo|]. split; [|exact H].
  apply Hfull, Hm.
Qed.

(** X23.  A constructed solver has no choice to make: every successful
    result of [solve_deterministic] returns the topological order of
    the required skills itself as path, which lists exactly the
    required skills; its value is the sum of their values and its time
    and complexity are the solver's minimums, whatever the budgets. *)
Theorem successful_path_is_the_topological_order :
  forall (set_order : list string -> list string) (db : SkillsDB)
         (target : string) (cap : Z) (self : Challenge1.solver)
         (max_time max_complexity : Z)
         (path : list string) (total_value total_time total_complexity : Z),
    (forall l, Permutation (set_order l) l) ->
    Challenge1.init set_order db target cap = Ok self ->
    Challenge1.solve_deterministic self max_time max_complexity
      = Ok (Challenge1.Found path total_value total_time total_complexity) ->
    Challenge1._topological_sort self = Ok path /\
    Permutation path (Challenge1.required_skills self) /\
    total_value = sum_valor db path /\
    total_time = Challenge1.min_feasible_time self /\
    total_complexity = Challenge1.min_feasible_complexity self.
Proof.
  intros set_order db target cap self mt mc p tv tt tc Hperm Hi Hs.
  destruct (found_is_the_order _ _ _ _ _ _ _ _ _ _ _ Hperm Hi Hs) as (A & B & C).
  destruct (found_within_minimums _ _ _ _ _ _ _ _ _ _ _ Hperm Hi Hs)
    as (_ & _ & D & E).
  auto.
Qed.

Lemma successful_path_is_the_topological_order_witness :
  Challenge1._topological_sort repository_solver
    = Ok ["H2"; "H1"; "H3"; "S1"; "S4"; "S6"] /\
  Permutation ["H2"; "H1"; "H3"; "S1"; "S4"; "S6"]
    (Challenge1.required_skills repository_solver) /\
  125 = sum_valor SKILLS_DATABASE ["H2"; "H1"; "H3"; "S1"; "S4"; "S6"] /\
  440 = Challenge1.min_feasible_time repository_solver /\
  31 = Challenge1.min_feasible_complexity repository_solver.
Proof.
  apply (successful_path_is_the_topological_order identity_order SKILLS_DATABASE
           TARGET_SKILL 50 repository_solver 490 37
           ["H2"; "H1"; "H3"; "S1"; "S4"; "S6"] 125 440 31).
  - intros l. apply Permutation_refl.
  - vm_compute; reflexivity.
  - vm_compute; reflexivity.
Defined.

Lemma minimums_are_sums set_order db target cap self :
  (forall l, Permutation (set_order l) l) ->
  Challenge1.init set_order db target cap = Ok self ->
  exists topo,
    Challenge1._topological_sort self = Ok topo /\
    Challenge1.min_feasible_time self = sum_tempo db topo /\
    Challenge1.min_feasible_complexity self = sum_complexidade db topo /\
    (In target topo ->
     Challenge1.min_feasible_time self
       = sum_tempo db (Challenge1.required_skills self) /\
     Challenge1.min_feasible_complexity self
       = sum_complexidade db (Challenge1.required_skills self)).
Proof.
  intros Hperm Hi.
  destruct (init_topological_order _ _ _ _ _ Hperm Hi)
    as (topo & Htopo & Hnd & _ & _ & _ & _ & Hfull).
  apply init_inv in Hi as (R & topo' & acq & _ & -> & Htopo' & _ & Hacq & Hset & _).
  unfold Challenge1._topological_sort in *.
  cbn [Challenge1.skills_db Challenge1.required_skills
       Challenge1.min_feasible_time Challenge1.min_feasible_complexity] in *.
  rewrite Htopo in Htopo'. injection Htopo' as <-.
  assert (HP : Permutation acq topo).
  { apply NoDup_Permutation; auto. }
  exists topo. split; [exact Htopo|].
  rewrite (sum_tempo_perm db _ _ HP), (sum_complexidade_perm db _ _ HP).
  split; [reflexivity|]. split; [reflexivity|].
  intros Ht. specialize (Hfull Ht).
  rewrite (sum_tempo_perm db _ _ Hfull), (sum_complexidade_perm db _ _ Hfull).
  auto.
Qed.

(** X24.  The minimums [__init__] stores are the sums of time and of
    complexity over the topological order of the required skills; when
    that order reaches the target they are the sums over all required
    skills. *)
Theorem minimums_are_sums_over_the_order :
  forall (set_order : list string -> list string) (db : SkillsDB)
         (target : string) (cap : Z) (self : Challenge1.solver),
    (forall l, Permutation (set_order l) l) ->
    Challenge1.init set_order db target cap = Ok self ->
    exists topo,
      Challenge1._topological_sort self = Ok topo /\
      Challenge1.min_feasible_time self = sum_tempo db topo /\
      Challenge1.min_feasible_complexity self = sum_complexidade db topo /\
      (In target topo ->
       Challenge1.min_feasible_time self
         = sum_tempo db (Challenge1.required_skills self) /\
       Challenge1.min_feasible_complexity self
         = sum_complexidade db (Challenge1.required_skills self)).
Proof.
  intros set_order db target cap self Hperm Hi.
  apply (minimums_are_sums set_order db target cap self); assumption.
Qed.

Lemma minimums_are_sums_over_the_order_witness :
  exists topo,
    Challenge1._topological_sort repository_solver = Ok topo /\
    Challenge1.min_feasible_time repository_solver
      = sum_tempo SKILLS_DATABASE topo /\
    Challenge1.min_feasible_complexity repository_solver
      = sum_complexidade SKILLS_DATABASE topo /\
    (In TARGET_SKILL topo ->
     Challenge1.min_feasible_time repository_solver
       = sum_tempo SKILLS_DATABASE (Challenge1.required_skills repository_solver) /\
     Challenge1.min_feasible_complexity repository_solver
       = sum_complexidade SKILLS_DATABASE
           (Challenge1.required_skills repository_solver)).
Proof.
  apply (minimums_are_sums_over_the_order identity_order SKILLS_DATABASE
           TARGET_SKILL 50 repository_solver).
  - intros l. apply Permutation_refl.
  - vm_compute; reflexivity.
Defined.

(** X25.  On a table whose required skills form no cycle, list no
    prerequisite twice and have positive times and non-negative
    complexities and values, and with room for at least one state per
    cell, the feasibility check is exact: [check_feasibility] answers
    [True] for a pair of budgets exactly when [solve_deterministic]
    succeeds under them. *)
Theorem feasibility_check_is_exact :
  forall (set_order : list string -> list string) (db : SkillsDB)
         (target : string) (cap : Z) (self : Challenge1.solver)
         (rank : string -> nat) (max_time max_complexity : Z),
    (forall l, Permutation (set_order l) l) ->
    Challenge1.init set_order db target cap = Ok self ->
    acyclic_by db (Challenge1.required_skills self) rank ->
    prereqs_listed_once db (Challenge1.required_skills self) ->
    positive_costs db (Challenge1.required_skills self) ->
    1 <= cap ->
    (fst (Challenge1.check_feasibility self max_time max_complexity) = true
     <-> exists path total_value total_time total_complexity,
           Challenge1.solve_deterministic self max_time max_complexity
             = Ok (Challenge1.Found path total_value total_time total_complexity)).
Proof.
  intros set_order db target cap self rank mt mc Hperm Hi Hacyc Honce Hpos Hcap.
  assert (Hfeas : fst (Challenge1.check_feasibility self mt mc) = true <->
                  Challenge1.min_feasible_time self <= mt /\
                  Challenge1.min_feasible_complexity self <= mc).
  { unfold Challenge1.check_feasibility.
    destruct (Challenge1.min_feasible_time self <=? mt) eqn:E1;
      destruct (Challenge1.min_feasible_complexity self <=? mc) eqn:E2;
      simpl; split; try discriminate; try reflexivity; intros; lia. }
  rewrite Hfeas. split.
  - intros [Ht Hc].
    destruct (init_topological_complete set_order db target cap self rank
                Hperm Hi Hacyc Honce) as (topo & Htopo & Htt & HP).
    exists topo. eexists. eexists. eexists.
    apply (feasible_solve set_order db target cap self mt mc topo); auto.
    unfold positive_costs in *. rewrite Forall_forall in *.
    intros s Hs. apply Hpos. eapply Permutation_in; eauto.
  - intros (p & tv & tt & tc & Hs).
    destruct (found_within_minimums _ _ _ _ _ _ _ _ _ _ _ Hperm Hi Hs)
      as (A & B & _). auto.
Qed.

Lemma feasibility_check_is_exact_witness :
  fst (Challenge1.check_feasibility repository_solver 490 37) = true
  <-> exists path total_value total_time total_complexity,
        Challenge1.solve_deterministic repository_solver 490 37
          = Ok (Challenge1.Found path total_value total_time total_complexity).
Proof.
  apply (feasibility_check_is_exact identity_order SKILLS_DATABASE TARGET_SKILL 50
           repository_solver repository_rank 490 37).
  - intros l. apply Permutation_refl.
  - vm_compute; reflexivity.
  - intros s entry Hs Hget p Hp. simpl in Hs.
    repeat (destruct Hs as [<- | Hs];
            [vm_compute in Hget; injection Hget as <-; simpl in Hp;
             repeat (destruct Hp as [<- | Hp]; [vm_compute; lia|]);
             destruct Hp|]).
    destruct Hs.
  - intros s entry Hs Hget. simpl in Hs.
    repeat (destruct Hs as [<- | Hs];
            [vm_compute in Hget; injection Hget as <-; simpl;
             repeat constructor; simpl; intuition discriminate|]).
    destruct Hs.
  - repeat constructor; vm_compute; try reflexivity; intros H; discriminate H.
  - lia.
Defined.

(* ===================================================================== *)
(** * Further facts about gs_challenge5.py *)
(* ===================================================================== *)

(** The number of prerequisite entries of a skill that are held. *)
Definition held_prereqs (entry : Skill) (current_skills : list string) : Z :=
  Z.of_nat (List.length (filter (fun p => mem p current_skills) (Pre_Reqs entry))).

Lemma synergy_fold (current_skills prereqs : list string) : forall bonus : Q,
  (fold_left
     (fun bonus prereq =>
        if mem prereq current_skills then bonus + (5 # 100) else bonus)
     prereqs bonus
   == bonus
      + (5 # 100)
        * inject_Z (Z.of_nat (List.length
                                (filter (fun p => mem p current_skills) prereqs))))%Q.
Proof.
  induction prereqs as [|p prereqs IH]; intros bonus; cbn [fold_left filter].
  - simpl. ring.
  - rewrite IH. destruct (mem p current_skills); [|reflexivity].
    cbn [List.length]. rewrite Nat2Z.inj_succ. unfold Z.succ.
    rewrite inject_Z_plus. ring.
Qed.

Lemma synergy_bonus_counts entry current_skills :
  (Challenge5.synergy_bonus entry current_skills
   == 1 + (5 # 100) * inject_Z (held_prereqs entry current_skills))%Q.
Proof. unfold Challenge5.synergy_bonus, held_prereqs. apply synergy_fold. Qed.

(** The skills some market scenario boosts. *)
Definition boosted_skills : list string :=
  flat_map (fun item => map fst (Challenge5.value_multiplier (snd item)))
    Challenge5.scenarios.

(** X26.  In exact arithmetic, the expected value of a skill that no
    market scenario boosts is its base value, times one plus 0.05 for
    every prerequisite entry already held, times 0.95 to the power of
    the years ahead: the scenario probabilities sum to one.  A skill
    missing from the table raises [KeyError]. *)
Theorem expected_value_without_boost :
  forall (db : SkillsDB) (skill_id : string) (current_skills : list string)
         (years_ahead : Z),
    ~ In skill_id boosted_skills ->
    match dict_get db skill_id with
    | Some entry =>
        exists v,
          Challenge5._calculate_expected_value db skill_id current_skills
            years_ahead = Ok v /\
          (v == inject_Z (Valor entry)
                * (1 + (5 # 100) * inject_Z (held_prereqs entry current_skills))
                * (95 # 100) ^ years_ahead)%Q
    | None =>
        Challenge5._calculate_expected_value db skill_id current_skills
          years_ahead = Raise (KeyError skill_id)
    end.
Proof.
  intros db skill_id current_skills years Hno.
  unfold Challenge5._calculate_expected_value, getitem.
  destruct (dict_get db skill_id) as [entry|]; [|reflexivity].
  eexists. split; [reflexivity|].
  assert (Hneq : forall n, In n boosted_skills -> String.eqb n skill_id = false).
  { intros n Hn. apply String.eqb_neq. intros ->. contradiction. }
  unfold Challenge5.scenario_sum, Challenge5.scenarios. cbn [fold_left snd].
  cbn [Challenge5.value_multiplier Challenge5.prob dict_get keq Key_string].
  rewrite !Hneq by (vm_compute; tauto).
  rewrite synergy_bonus_counts. unfold Challenge5.discount_factor. ring.
Qed.

Lemma expected_value_without_boost_witness :
  exists v,
    Challenge5._calculate_expected_value SKILLS_DATABASE "S1" ["H1"; "H2"] 1
      = Ok v /\
    (v == inject_Z 18
          * (1 + (5 # 100)
                 * inject_Z (held_prereqs (mkSkill 18 70 5 ["H1"; "H2"])
                               ["H1"; "H2"]))
          * (95 # 100) ^ 1)%Q.
Proof.
  apply (expected_value_without_boost SKILLS_DATABASE "S1" ["H1"; "H2"] 1).
  vm_compute. intuition discriminate.
Defined.

(* ===================================================================== *)
(** * [_detect_cycles] misses no cycle *)
(* ===================================================================== *)

Lemma chain_in_closed db C b a :
  prereq_closed db C -> In b C -> chain db b a -> In a C.
Proof.
  intros Hcl Hb Hc. induction Hc as [a | a b c (entry & Hget & Hin) Hbc IH];
    [exact Hb|].
  apply IH. apply (Hcl a entry Hb); [|exact Hin].
  unfold getitem. rewrite Hget. reflexivity.
Qed.

(** No skill of a topological linearization lies on a cycle. *)
Lemma linearization_no_cycle db L :
  topological_linearization db L -> NoDup L ->
  forall s, In s L -> ~ on_cycle db s.
Proof.
  induction L as [|a L0 IH] using rev_ind; intros Hlin Hnd s Hs; [destruct Hs|].
  assert (Hlin0 : topological_linearization db L0).
  { intros pre x suf entry Heq Hget p Hp.
    apply (Hlin pre x (suf ++ [a]) entry); auto.
    rewrite Heq, <- app_assoc. reflexivity. }
  apply NoDup_remove in Hnd as [Hnd0 Ha]. rewrite app_nil_r in Hnd0, Ha.
  apply in_app_or in Hs as [Hs | [<- | []]]; [apply IH; auto|].
  intros (b & (entry & Hget & Hb) & Hchain).
  apply Ha. apply (chain_in_closed db L0 b a); [|  |exact Hchain].
  - apply linearization_closed, Hlin0.
  - apply (Hlin L0 a [] entry); auto.
    unfold getitem. rewrite Hget. reflexivity.
Qed.

Section DfsComplete.
Variable db : SkillsDB.

Definition black (st : GraphValidation.dfs_state) (s : string) : Prop :=
  dict_get (GraphValidation.colors st) s = Some GraphValidation.BLACK.

(** The finished nodes, in the order in which they were finished, form
    a topological linearization. *)
Definition finished (st : GraphValidation.dfs_state) : Prop :=
  exists L, (forall s, black st s <-> In s L) /\ NoDup L /\
            topological_linearization db L.

(** A visit that found no cycle finished its node, kept what was
    finished and kept the gray nodes gray. *)
Definition visit_complete (node : string) (st : GraphValidation.dfs_state)
    (r : GraphValidation.dfs_state * (bool * list string)) : Prop :=
  fst (snd r) = false ->
  finished (fst r) /\ black (fst r) node /\
  (forall s, black st s -> black (fst r) s) /\
  (forall g, gray st g -> gray (fst r) g).

Opaque GraphValidation.climb.

Lemma visit_prereqs_complete rec node entry :
  getitem db node = Ok entry ->
  (forall prereq st1 r,
     finished st1 -> ~ black st1 prereq -> ~ gray st1 prereq ->
     rec prereq st1 = Ok r -> visit_complete prereq st1 r) ->
  forall prereqs done st0 r,
    done ++ prereqs = Pre_Reqs entry ->
    (forall p, In p done -> black st0 p) ->
    finished st0 -> gray st0 node ->
    visit_prereqs_of rec node prereqs st0 = Ok r ->
    fst (snd r) = false ->
    finished (fst r) /\ black (fst r) node /\
    (forall s, black st0 s -> black (fst r) s) /\
    (forall g, g <> node -> gray st0 g -> gray (fst r) g).
Proof.
  intros Hentry Hrec.
  induction prereqs as [|prereq rest IH]; intros done st0 r Hsplit Hdone Hfin Hnode Hv Hres.
  - simpl in Hv. injection Hv as <-. cbn [fst snd].
    rewrite app_nil_r in Hsplit. subst done.
    assert (Hget : forall s, s <> node ->
              dict_get (dict_set (GraphValidation.colors st0) node GraphValidation.BLACK) s
              = dict_get (GraphValidation.colors st0) s).
    { intros s Hs. rewrite dict_get_set_string.
      destruct (String.eqb node s) eqn:E; [|reflexivity].
      apply String.eqb_eq in E. congruence. }
    assert (Hnew : dict_get (dict_set (GraphValidation.colors st0) node
                               GraphValidation.BLACK) node
                   = Some GraphValidation.BLACK).
    { rewrite dict_get_set_string, String.eqb_refl. reflexivity. }
    split; [|split; [exact Hnew|split]].
    + destruct Hfin as (L & HL & Hnd & Hlin). exists (L ++ [node]).
      split; [|split].
      * intros s. unfold black. simpl. rewrite in_app_iff.
        destruct (string_dec s node) as [-> | Hne].
        -- split; [intros _; right; left; reflexivity | intros _; exact Hnew].
        -- rewrite (Hget s Hne). fold (black st0 s). rewrite HL. split; [auto|].
           intros [H | [H | []]]; [exact H | congruence].
      * apply NoDup_app; [exact Hnd | constructor; [intros [] | constructor] |].
        intros x Hx [<- | []]. apply HL in Hx. unfold black, gray in *. congruence.
      * eapply linearization_snoc; [exact Hlin | exact Hentry|].
        apply forallb_forall. intros p Hp. apply mem_In, HL, Hdone, Hp.
    + intros s Hs. unfold black in *. simpl.
      destruct (string_dec s node) as [-> | Hne]; [exact Hnew|].
      rewrite (Hget s Hne). exact Hs.
    + intros g Hg Hgray. unfold gray in *. simpl. rewrite (Hget g Hg). exact Hgray.
  - assert (Hsplit' : (done ++ [prereq]) ++ rest = Pre_Reqs entry).
    { rewrite <- app_assoc. exact Hsplit. }
    simpl in Hv. apply bind_ok_inv in Hv as (c & Hc & Hv).
    apply getitem_ok_get in Hc.
    destruct c; simpl in Hv.
    + (* white: descend *)
      apply bind_ok_inv in Hv as (r1 & Hr1 & Hv).
      destruct (fst (snd r1)) eqn:E; [injection Hv as <-; congruence|].
      apply Hrec in Hr1.
      * destruct (Hr1 E) as (Hfin1 & Hb1 & Hmono1 & Hgray1).
        assert (Hdone1 : forall p, In p (done ++ [prereq]) -> black (fst r1) p).
        { intros p Hp. apply in_app_or in Hp as [Hp | [<- | []]]; [|exact Hb1].
          apply Hmono1. apply Hdone, Hp. }
        assert (Hnode1 : gray (fst r1) node) by (apply Hgray1; exact Hnode).
        destruct (IH (done ++ [prereq]) (fst r1) r Hsplit' Hdone1 Hfin1 Hnode1
                    Hv Hres) as (A & B & C & D).
        split; [exact A|]. split; [exact B|]. split.
        -- intros s Hs. apply C, Hmono1. exact Hs.
        -- intros g Hg Hgray. apply D; [exact Hg|]. apply Hgray1. exact Hgray.
      * exact Hfin.
      * unfold black. simpl. congruence.
      * unfold gray. simpl. congruence.
    + (* gray: a cycle would have been reported *)
      apply bind_ok_inv in Hv as (cycle & _ & Hv). injection Hv as <-.
      simpl in Hres. discriminate.
    + (* black: skip *)
      assert (Hdone1 : forall p, In p (done ++ [prereq]) -> black st0 p).
      { intros p Hp. apply in_app_or in Hp as [Hp | [<- | []]]; [auto | exact Hc]. }
      apply (IH (done ++ [prereq]) st0 r Hsplit' Hdone1 Hfin Hnode Hv Hres).
Qed.

Transparent GraphValidation.climb.

Lemma dfs_visit_complete : forall fuel node st r,
  finished st -> ~ black st node -> ~ gray st node ->
  GraphValidation.dfs_visit fuel db node st = Ok r ->
  visit_complete node st r.
Proof.
  induction fuel as [|fuel IH]; intros node st r Hfin Hnb Hng Hv; [discriminate|].
  rewrite dfs_visit_unfold in Hv.
  apply bind_ok_inv in Hv as (entry & Hget & Hv).
  intros Hres.
  assert (Hother : forall s, s <> node ->
            dict_get (dict_set (GraphValidation.colors st) node GraphValidation.GRAY) s
            = dict_get (GraphValidation.colors st) s).
  { intros s Hs. rewrite dict_get_set_string.
    destruct (String.eqb node s) eqn:E; [|reflexivity].
    apply String.eqb_eq in E. congruence. }
  set (st0 := GraphValidation.mkDfs
                (dict_set (GraphValidation.colors st) node GraphValidation.GRAY)
                (GraphValidation.parent st)) in *.
  assert (Hfin0 : finished st0).
  2: assert (Hgray0 : gray st0 node).
  3: destruct (visit_prereqs_complete (GraphValidation.dfs_visit fuel db) node entry
              Hget (fun p s1 r1 => IH p s1 r1) (Pre_Reqs entry) [] st0 r eq_refl
              (fun p (H : In p []) => match H with end) Hfin0 Hgray0 Hv Hres)
    as (A & B & C & D).
  - destruct Hfin as (L & HL & Hnd & Hlin). exists L. split; [|auto].
    intros s. rewrite <- HL. unfold black. simpl.
    destruct (string_dec s node) as [-> | Hne].
    + rewrite dict_get_set_string, String.eqb_refl. unfold black in Hnb.
      split; [discriminate | intros H; contradiction].
    + rewrite (Hother s Hne). reflexivity.
  - unfold gray. simpl. rewrite dict_get_set_string, String.eqb_refl. reflexivity.
  - split; [exact A|]. split; [exact B|]. split.
    + intros s Hs. apply C. unfold black in *. simpl.
      rewrite Hother; [exact Hs|]. intros ->. contradiction.
    + intros g Hg. apply D.
      * intros ->. contradiction.
      * unfold gray in *. simpl. rewrite Hother; [exact Hg|].
        intros ->. contradiction.
Qed.

Lemma detect_from_complete depth : forall l st r,
  finished st -> (forall g, ~ gray st g) ->
  GraphValidation.detect_from db depth l st = Ok r ->
  fst r = false ->
  forall s, In s l \/ black st s -> ~ on_cycle db s.
Proof.
  induction l as [|skill rest IH]; intros st r Hfin Hno Hd Hres s Hs.
  - destruct Hs as [[] | Hs]. destruct Hfin as (L & HL & Hnd & Hlin).
    apply (linearization_no_cycle db L Hlin Hnd). apply HL, Hs.
  - simpl in Hd. apply bind_ok_inv in Hd as (c & Hc & Hd).
    apply getitem_ok_get in Hc.
    destruct c; simpl in Hd.
    + apply bind_ok_inv in Hd as (r1 & Hr1 & Hd).
      destruct (fst (snd r1)) eqn:E.
      { injection Hd as <-. congruence. }
      pose proof Hr1 as Hr1'.
      apply dfs_visit_sound in Hr1' as [_ Hgr]; [|intros g Hg; destruct (Hno g Hg)].
      apply dfs_visit_complete in Hr1; [|exact Hfin|unfold black; congruence|apply Hno].
      destruct (Hr1 E) as (Hfin1 & Hb1 & Hmono1 & _).
      apply (IH (fst r1) r Hfin1); auto.
      * intros g Hg. apply (Hno g). apply (proj2 (Hgr E)). exact Hg.
      * destruct Hs as [[<- | Hs] | Hs]; auto.
    + exfalso. apply (Hno skill). exact Hc.
    + apply (IH st r Hfin Hno Hd Hres).
      destruct Hs as [[<- | Hs] | Hs]; auto.
Qed.

End DfsComplete.

Lemma detect_cycles_complete (self : GraphValidation.validator) path :
  GraphValidation._detect_cycles self = Ok (false, path) ->
  forall s, In s (GraphValidation.all_skill_ids self) ->
            ~ on_cycle (GraphValidation.skills_db self) s.
Proof.
  unfold GraphValidation._detect_cycles. intros Hd s Hs.
  eapply detect_from_complete; [| |exact Hd|reflexivity|left; exact Hs].
  - exists []. split; [|split; [constructor|]].
    + intros x. unfold black. simpl. rewrite fold_set_get.
      destruct (mem x (GraphValidation.all_skill_ids self));
        split; try discriminate; intros [].
    + intros pre x suf entry Heq. destruct pre; discriminate.
  - intros g Hg. unfold gray in Hg. simpl in Hg.
    revert Hg. apply all_white_no_gray. simpl. discriminate.
Qed.

(** X27.  [_detect_cycles] misses no cycle: when it answers [False] on
    a validator built from a table, no skill of the table lies on a
    cycle of prerequisite edges. *)
Theorem undetected_means_acyclic :
  forall (set_order : list string -> list string) (db : SkillsDB)
         (cycle_path : list string),
    (forall l, Permutation (set_order l) l) ->
    GraphValidation._detect_cycles (GraphValidation.init set_order db)
      = Ok (false, cycle_path) ->
    forall s b, requires db s b -> ~ chain db b s.
Proof.
  intros set_order db path Hperm Hd s b Hreq Hchain.
  apply (detect_cycles_complete _ _ Hd s).
  - simpl. eapply Permutation_in; [apply Permutation_sym, Hperm|].
    destruct Hreq as (entry & Hget & _). apply dict_get_in_keys. congruence.
  - exists b. auto.
Qed.

Lemma undetected_means_acyclic_witness :
  requires SKILLS_DATABASE "S6" "S4" /\ ~ chain SKILLS_DATABASE "S4" "S6".
Proof.
  assert (Hreq : requires SKILLS_DATABASE "S6" "S4").
  { exists (mkSkill 40 120 9 ["S4"]). split; [reflexivity | left; reflexivity]. }
  split; [exact Hreq|].
  apply (undetected_means_acyclic identity_order SKILLS_DATABASE []
           (fun l => Permutation_refl l) eq_refl "S6" "S4" Hreq).
Defined.

(** X28.  What a passed validation guarantees: when [validate_graph],
    verbose or not, returns [True] with a report marked valid, the
    table has no dangling prerequisite and no cycle of prerequisite
    edges, and the report lists no orphan and no cycle. *)
Theorem validated_table_is_well_formed :
  forall (set_order : list string -> list string) (db : SkillsDB)
         (verbose : bool) (r : GraphValidation.report),
    (forall l, Permutation (set_order l) l) ->
    GraphValidation.validate_graph (GraphValidation.init set_order db) verbose
      = Ok (true, r) ->
    GraphValidation.valid r = true ->
    no_dangling db /\
    (forall s b, requires db s b -> ~ chain db b s) /\
    GraphValidation.orphan_nodes r = [] /\
    GraphValidation.cycles r = [].
Proof.
  intros set_order db verbose r Hperm Hv Hvalid.
  unfold GraphValidation.validate_graph in Hv.
  destruct (GraphValidation._check_orphan_prereqs
              (GraphValidation.init set_order db)) as [|o os] eqn:Eo.
  - cbn [andb] in Hv.
    apply bind_ok_inv in Hv as ([has_cycle cycle_path] & Hd & Hv).
    destruct has_cycle.
    + destruct verbose; cbn [andb] in Hv; [discriminate|].
      apply bind_ok_inv in Hv as (topo & _ & Hv). cbn [bind] in Hv.
      injection Hv as <-. simpl in Hvalid. discriminate.
    + cbn [andb] in Hv.
      apply bind_ok_inv in Hv as (topo & _ & Hv).
      apply bind_ok_inv in Hv as (u & _ & Hv). injection Hv as <-.
      pose proof (detect_cycles_sound _ _ Hd) as [_ Hnil].
      simpl in Hnil. specialize (Hnil eq_refl). subst cycle_path.
      split; [apply (no_orphans_no_dangling set_order db Hperm), Eo|].
      split; [|split; reflexivity].
      intros s b Hreq Hchain.
      apply (detect_cycles_complete _ _ Hd s).
      * simpl. eapply Permutation_in; [apply Permutation_sym, Hperm|].
        destruct Hreq as (entry & Hget & _). apply dict_get_in_keys. congruence.
      * exists b. auto.
  - destruct verbose; cbn [andb] in Hv; [discriminate|].
    apply bind_ok_inv in Hv as ([has_cycle cycle_path] & Hd & Hv).
    rewrite andb_false_r in Hv.
    apply bind_ok_inv in Hv as (topo & _ & Hv). cbn [bind] in Hv.
    injection Hv as <-. destruct has_cycle; simpl in Hvalid; discriminate.
Qed.

Lemma validated_table_is_well_formed_witness :
  no_dangling one_skill_db /\
  (forall s b, requires one_skill_db s b -> ~ chain one_skill_db b s) /\
  GraphValidation.orphan_nodes (GraphValidation.mkReport true [] [] [] ["H1"]) = [] /\
  GraphValidation.cycles (GraphValidation.mkReport true [] [] [] ["H1"]) = [].
Proof.
  apply (validated_table_is_well_formed identity_order one_skill_db false
           (GraphValidation.mkReport true [] [] [] ["H1"])).
  - intros l. apply Permutation_refl.
  - vm_compute; reflexivity.
  - reflexivity.
Defined.

(* ===================================================================== *)
(** * [optimal_solution_dp] at a threshold that needs nothing *)
(* ===================================================================== *)

Lemma sum_tempo_positive db l :
  Forall (fun s => 0 < Tempo (skill_of db s)) l -> l <> [] -> 0 < sum_tempo db l.
Proof.
  intros Hpos Hne. destruct l as [|x l]; [congruence|].
  inversion Hpos as [|? ? Hx Hl]; subst.
  assert (Hrest : 0 <= sum_tempo db l).
  { apply sum_nonneg. eapply Forall_impl; [|exact Hl]. simpl. intros; lia. }
  change (x :: l) with ([x] ++ l). rewrite sum_tempo_app, sum_tempo_single. lia.
Qed.

(** X29.  With a threshold of zero or less and candidates of positive
    time, [optimal_solution_dp] returns the empty selection, with value
    0 and time 0: the table starts from the level 0 reached by
    selecting nothing. *)
Theorem nonpositive_threshold_selects_nothing :
  forall (db : SkillsDB) (basic : list string) (thr : Z)
         (self : Challenge3.optimizer),
    Challenge3.init db basic thr = Ok self ->
    (forall s skill, In s basic -> getitem db s = Ok skill -> 0 < Tempo skill) ->
    thr <= 0 ->
    exists sol,
      Challenge3.optimal_solution_dp self = Ok (Some sol) /\
      Challenge3.selected sol = [] /\
      Challenge3.total_value sol = 0 /\
      Challenge3.total_time sol = 0.
Proof.
  intros db basic thr self Hinit Hpos Hthr.
  apply init_present in Hinit as [-> Hp].
  assert (Ht : Forall (fun s => 0 < Tempo (skill_of db s)) basic).
  { rewrite Forall_forall in *. intros s Hs.
    apply (Hpos s); auto. apply getitem_present; auto. }
  assert (Hnil : Subseq (@nil string) basic) by apply Subseq_nil_l.
  destruct (optimal_solution_dp_spec db basic thr Hp)
    as [[_ Hno] | (sol & Hdp & Hsub & Hval & Htv & Htime & Hmin)].
  - specialize (Hno [] Hnil). unfold sum_valor, sumZ in Hno. simpl in Hno. lia.
  - exists sol. split; [exact Hdp|].
    assert (Hle : Challenge3.total_time sol <= 0).
    { apply (Hmin [] Hnil). unfold sum_valor, sumZ. simpl. exact Hthr. }
    assert (Hsel : Challenge3.selected sol = []).
    { destruct (Challenge3.selected sol) as [|x l] eqn:E; [reflexivity|].
      exfalso.
      assert (Hposl : Forall (fun s => 0 < Tempo (skill_of db s)) (x :: l)).
      { rewrite Forall_forall in *. intros s Hs. apply Ht.
        eapply Subseq_In; eauto. }
      pose proof (sum_tempo_positive db (x :: l) Hposl ltac:(discriminate)).
      lia. }
    rewrite Htv, Htime, Hsel. repeat split; reflexivity.
Qed.

Lemma nonpositive_threshold_selects_nothing_witness :
  0 <= 0 /\
  exists sol,
    Challenge3.optimal_solution_dp
      (Challenge3.mkOptimizer Challenge3.counterexample_db ["A"; "B"; "C"] 0)
      = Ok (Some sol) /\
    Challenge3.selected sol = [] /\
    Challenge3.total_value sol = 0 /\
    Challenge3.total_time sol = 0.
Proof.
  split; [lia|].
  apply (nonpositive_threshold_selects_nothing Challenge3.counterexample_db
           ["A"; "B"; "C"] 0).
  - vm_compute; reflexivity.
  - intros s skill [<- | [<- | [<- | []]]] Hget;
      vm_compute in Hget; inversion Hget; subst; simpl; lia.
  - lia.
Defined.

(* ===================================================================== *)
(** * Where the minimums of an infeasible target are reported *)
(* ===================================================================== *)

(** The answer of [check_feasibility] that names the minimums. *)
Definition minimums_report (self : Challenge1.solver) : bool * string :=
  (false,
   String.concat ""
     ["Restrições muito rígidas! Mínimo necessário: T≥";
      str_of_Z (Challenge1.min_feasible_time self); ", C≥";
      str_of_Z (Challenge1.min_feasible_complexity self)]).

(** The conditions on the required skills under which the solver and
    its feasibility check agree: no cycle, no prerequisite listed
    twice, positive times, non-negative complexities and values, and
    room for at least one state per cell. *)
Definition requirements_well_formed (db : SkillsDB) (self : Challenge1.solver)
  : Prop :=
  (exists rank, acyclic_by db (Challenge1.required_skills self) rank) /\
  prereqs_listed_once db (Challenge1.required_skills self) /\
  positive_costs db (Challenge1.required_skills self) /\
  1 <= Challenge1.max_states_per_cell self.

Lemma well_formed_solve set_order db target cap self :
  (forall l, Permutation (set_order l) l) ->
  Challenge1.init set_order db target cap = Ok self ->
  requirements_well_formed db self ->
  Challenge1.min_feasible_time self
    = sum_tempo db (Challenge1.required_skills self) /\
  Challenge1.min_feasible_complexity self
    = sum_complexidade db (Challenge1.required_skills self) /\
  forall mt mc,
    (exists p tv tt tc,
       Challenge1.solve_deterministic self mt mc
         = Ok (Challenge1.Found p tv tt tc))
    <-> Challenge1.min_feasible_time self <= mt /\
        Challenge1.min_feasible_complexity self <= mc.
Proof.
  intros Hperm Hi ((rank & Hacyc) & Honce & Hpos & Hcap).
  assert (Hcap' : 1 <= cap).
  { pose proof Hi as Hi'.
    apply init_inv in Hi' as (R & t0 & acq & _ & -> & _). exact Hcap. }
  destruct (init_topological_complete set_order db target cap self rank
              Hperm Hi Hacyc Honce) as (topo & Htopo & Htt & HP).
  destruct (minimums_are_sums set_order db target cap self Hperm Hi)
    as (topo' & Htopo' & _ & _ & Hsums).
  rewrite Htopo in Htopo'. injection Htopo' as <-.
  destruct (Hsums Htt) as [Hst Hsc].
  split; [exact Hst|]. split; [exact Hsc|].
  intros mt mc. split.
  - intros (p & tv & tt & tc & Hs).
    destruct (found_within_minimums _ _ _ _ _ _ _ _ _ _ _ Hperm Hi Hs)
      as (A & B & _). auto.
  - intros [Ht Hc]. exists topo. eexists. eexists. eexists.
    apply (feasible_solve set_order db target cap self mt mc topo); auto.
    unfold positive_costs in *. rewrite Forall_forall in *.
    intros s Hs. apply Hpos. eapply Permutation_in; eauto.
Qed.

(** C8, amended.  [solve_deterministic] always answers a constructed
    solver, and a failure is [success = False] with a message that
    names the target and the two budgets and nothing else: it does not
    report the minimums.  They are reported by [check_feasibility]:
    whenever a minimum exceeds its budget the solver fails and
    [check_feasibility] answers [False] with a message naming
    [min_feasible_time] and [min_feasible_complexity].  On well-formed
    requirements (no cycle, no prerequisite listed twice, positive
    times, non-negative complexities and values, at least one state
    per cell) every failure is of that kind, the two minimums are the
    sums of time and of complexity over the required skills of the
    target, and the solver succeeds under a pair of budgets exactly
    when both are at least the minimums: the caller can relax the
    budgets to them. *)
Theorem infeasibility_is_reported :
  forall (set_order : list string -> list string) (db : SkillsDB)
         (target : string) (cap : Z) (self : Challenge1.solver)
         (max_time max_complexity : Z),
    (forall l, Permutation (set_order l) l) ->
    Challenge1.init set_order db target cap = Ok self ->
    exists r,
      Challenge1.solve_deterministic self max_time max_complexity = Ok r /\
      (Challenge1.success r = false ->
       r = Challenge1.NotFound
             (Challenge1.failure_message target max_time max_complexity)) /\
      (Challenge1.min_feasible_time self > max_time \/
       Challenge1.min_feasible_complexity self > max_complexity ->
       Challenge1.success r = false /\
       Challenge1.check_feasibility self max_time max_complexity
         = minimums_report self) /\
      (requirements_well_formed db self ->
       (Challenge1.success r = false ->
        (Challenge1.min_feasible_time self > max_time \/
         Challenge1.min_feasible_complexity self > max_complexity) /\
        Challenge1.check_feasibility self max_time max_complexity
          = minimums_report self) /\
       Challenge1.min_feasible_time self
         = sum_tempo db (Challenge1.required_skills self) /\
       Challenge1.min_feasible_complexity self
         = sum_complexidade db (Challenge1.required_skills self) /\
       forall relaxed_time relaxed_complexity,
         (exists path total_value total_time total_complexity,
            Challenge1.solve_deterministic self relaxed_time relaxed_complexity
              = Ok (Challenge1.Found path total_value total_time
                      total_complexity))
         <-> Challenge1.min_feasible_time self <= relaxed_time /\
             Challenge1.min_feasible_complexity self <= relaxed_complexity).
Proof.
  intros set_order db target cap self mt mc Hperm Hi.
  destruct (failure_carries_the_message_only set_order db target cap self mt mc
              Hperm Hi) as (r & Hs & Hmsg & Hmin).
  exists r. split; [exact Hs|]. split; [exact Hmsg|]. split; [exact Hmin|].
  intros Hwf.
  destruct (well_formed_solve set_order db target cap self Hperm Hi Hwf)
    as (Hst & Hsc & Hiff).
  split; [|split; [exact Hst|split; [exact Hsc|exact Hiff]]].
  intros Hfail.
  assert (Hinf : Challenge1.min_feasible_time self > mt \/
                 Challenge1.min_feasible_complexity self > mc).
  { destruct (Z_le_gt_dec (Challenge1.min_feasible_time self) mt) as [Ht | Ht];
      [|left; exact Ht].
    destruct (Z_le_gt_dec (Challenge1.min_feasible_complexity self) mc)
      as [Hc | Hc]; [|right; exact Hc].
    exfalso. destruct (proj2 (Hiff mt mc) (conj Ht Hc)) as (p & tv & tt & tc & Hf).
    rewrite Hs in Hf. injection Hf as ->. discriminate. }
  split; [exact Hinf | apply Hmin, Hinf].
Qed.

Lemma repository_requirements_well_formed :
  requirements_well_formed SKILLS_DATABASE repository_solver.
Proof.
  split; [exists repository_rank|split; [|split]].
  - intros s entry Hs Hget p Hp. simpl in Hs.
    repeat (destruct Hs as [<- | Hs];
            [vm_compute in Hget; injection Hget as <-; simpl in Hp;
             repeat (destruct Hp as [<- | Hp]; [vm_compute; lia|]);
             destruct Hp|]).
    destruct Hs.
  - intros s entry Hs Hget. simpl in Hs.
    repeat (destruct Hs as [<- | Hs];
            [vm_compute in Hget; injection Hget as <-; simpl;
             repeat constructor; simpl; intuition discriminate|]).
    destruct Hs.
  - repeat constructor; vm_compute; try reflexivity; intros H; discriminate H.
  - simpl. lia.
Qed.

Lemma infeasibility_is_reported_witness :
  exists r,
    Challenge1.solve_deterministic repository_solver MAX_TIME MAX_COMPLEXITY = Ok r /\
    Challenge1.success r = false /\
    r = Challenge1.NotFound
          (Challenge1.failure_message TARGET_SKILL MAX_TIME MAX_COMPLEXITY) /\
    Challenge1.check_feasibility repository_solver MAX_TIME MAX_COMPLEXITY
      = minimums_report repository_solver /\
    Challenge1.min_feasible_time repository_solver
      = sum_tempo SKILLS_DATABASE (Challenge1.required_skills repository_solver) /\
    Challenge1.min_feasible_complexity repository_solver
      = sum_complexidade SKILLS_DATABASE
          (Challenge1.required_skills repository_solver) /\
    exists path total_value total_time total_complexity,
      Challenge1.solve_deterministic repository_solver
        (Challenge1.min_feasible_time repository_solver)
        (Challenge1.min_feasible_complexity repository_solver)
      = Ok (Challenge1.Found path total_value total_time total_complexity).
Proof.
  destruct (infeasibility_is_reported identity_order SKILLS_DATABASE TARGET_SKILL
              50 repository_solver MAX_TIME MAX_COMPLEXITY
              (fun l => Permutation_refl l) eq_refl)
    as (r & Hs & Hmsg & Hmin & Hwf).
  destruct (Hwf repository_requirements_well_formed) as (_ & Hst & Hsc & Hiff).
  assert (Hinf : Challenge1.min_feasible_time repository_solver > MAX_TIME \/
                 Challenge1.min_feasible_complexity repository_solver
                   > MAX_COMPLEXITY).
  { left. vm_compute. reflexivity. }
  destruct (Hmin Hinf) as [Hfail Hcheck].
  exists r. split; [exact Hs|]. split; [exact Hfail|].
  split; [exact (Hmsg Hfail)|]. split; [exact Hcheck|].
  split; [exact Hst|]. split; [exact Hsc|].
  apply Hiff. split; apply Z.le_refl.
Defined.
